(** * Monthly report aggregation job (supabase/functions/send-monthly-report)

    A shallow embedding of [index.ts]: the request handler that lists the
    active businesses, pulls last month's appointments for each of them,
    derives the report metrics and sends one e-mail per qualifying business.

    JavaScript values are modelled by the Rocq types closest to their use:
    counts are [nat], time values are [Z] milliseconds since the epoch,
    Number values are IEEE 754 binary64 (sign, 53-bit significand, binary
    exponent, the two infinities and NaN) with every operation rounded to
    nearest, ties to even, and strings are strings of bytes (UTF-8). The
    time zone of the process gives an offset for every instant. The
    database, the mail service and the clock are an explicit environment;
    console output and outgoing calls are recorded in a trace. *)

From Stdlib Require Import ZArith QArith Qround Qabs Qpower String Ascii List Lia Lqa.
From Stdlib Require Import DecimalString DecimalN.
From stdpp Require Import base list strings gmap sorting.

Local Open Scope string_scope.

(** ** Strings and decimal digits *)

Module JsString.

(** ToBoolean on a string: only the empty string is falsy. *)
Definition truthy (s : string) : bool :=
  match s with
  | EmptyString => false
  | String _ _ => true
  end.

(** [x || d] where [x] is a string or undefined/null. *)
Definition or_else (x : option string) (d : string) : string :=
  match x with
  | Some s => if truthy s then s else d
  | None => d
  end.

(** Decimal digits of a natural number, as template literals and
    Number::toString print an integer. *)
Definition of_N (n : N) : string := NilZero.string_of_uint (N.to_uint n).
Definition of_nat (n : nat) : string := of_N (N.of_nat n).

Fixpoint repeat0 (n : nat) : string :=
  match n with
  | O => ""
  | S n' => String "0" (repeat0 n')
  end.

(** String.prototype.padStart(width, "0"). *)
Definition pad0 (width : nat) (s : string) : string :=
  repeat0 (width - String.length s) ++ s.

Fixpoint take (n : nat) (s : string) : string :=
  match n, s with
  | S n', String c s' => String c (take n' s')
  | _, _ => ""
  end.

Fixpoint drop (n : nat) (s : string) : string :=
  match n, s with
  | S n', String _ s' => drop n' s'
  | _, _ => s
  end.

(** [s.split(sep)[0]] for a one-character separator: the part of [s]
    before the first occurrence of [sep] (all of [s] when there is none). *)
Fixpoint split_head (sep : ascii) (s : string) : string :=
  match s with
  | EmptyString => ""
  | String c s' => if Ascii.eqb c sep then "" else String c (split_head sep s')
  end.

(** Does [s] start with [p]; on success the rest of [s]. *)
Fixpoint strip_prefix (p s : string) : option string :=
  match p, s with
  | EmptyString, _ => Some s
  | String a p', String b s' => if Ascii.eqb a b then strip_prefix p' s' else None
  | String _ _, EmptyString => None
  end.

End JsString.

(** ** Numbers *)

Module JsNumber.

Local Open Scope Z_scope.

(** A Number value is an IEEE 754 binary64: [Finite s m e] is
    [(-1)^s * m * 2^e] with [0 <= m < 2^53] and [-1074 <= e <= 971],
    kept in the one form in which [m] has 53 bits or [e] is [-1074]. *)
Inductive number : Type :=
| NaN
| Infinity (negative : bool)
| Finite (negative : bool) (m e : Z).

Definition emin : Z := -1074.
Definition emax : Z := 971.

Definition zero : number := Finite false 0 emin.

Definition is_nan (x : number) : bool :=
  match x with NaN => true | _ => false end.

(** ToBoolean on a Number: NaN and the two zeros are falsy. *)
Definition truthy (x : number) : bool :=
  match x with
  | NaN => false
  | Infinity _ => true
  | Finite _ m _ => negb (m =? 0)
  end.

(** [x || d] on numbers. *)
Definition or_else (x d : number) : number := if truthy x then x else d.

(** [2^k] for [0 <= k], and 1 below: a ratio [n * 2^k / d] is written
    [(n * pow2 k) / (d * pow2 (- k))] for every sign of [k]. *)
Definition pow2 (k : Z) : Z := 2 ^ Z.max 0 k.
Definition pow10 (k : Z) : Z := 10 ^ Z.max 0 k.

(** [floor (log2 (n / d))] for positive [n] and [d]. *)
Definition ilog2 (n d : Z) : Z :=
  let l := Z.log2 n - Z.log2 d in
  if n * pow2 (- l) <? d * pow2 l then l - 1 else l.

(** The integer nearest to [n / d], the even one of two that are as
    near. *)
Definition nearest_even (n d : Z) : Z :=
  let q := n / d in
  match 2 * (n mod d) ?= d with
  | Lt => q
  | Gt => q + 1
  | Eq => if Z.even q then q else q + 1
  end.

(** The binary64 nearest to [n / d] ([0 <= n], [0 < d]), ties to even;
    what is too large for the format becomes an infinity. *)
Definition round (negative : bool) (n d : Z) : number :=
  if n =? 0 then Finite negative 0 emin
  else
    let e := Z.max (ilog2 n d - 52) emin in
    let m := nearest_even (n * pow2 (- e)) (d * pow2 e) in
    let '(m, e) := if m =? 2 ^ 53 then (2 ^ 52, e + 1) else (m, e) in
    if emax <? e then Infinity negative else Finite negative m e.

Definition signed (negative : bool) (m : Z) : Z := if negative then - m else m.

(** ToNumber of an integer, as for an array length. *)
Definition of_Z (z : Z) : number := round (z <? 0) (Z.abs z) 1.
Definition of_nat (n : nat) : number := of_Z (Z.of_nat n).

(** Number addition, the [+] of [sum + ...]. *)
Definition add (x y : number) : number :=
  match x, y with
  | NaN, _ | _, NaN => NaN
  | Infinity a, Infinity b => if Bool.eqb a b then Infinity a else NaN
  | Infinity a, Finite _ _ _ => Infinity a
  | Finite _ _ _, Infinity b => Infinity b
  | Finite s1 m1 e1, Finite s2 m2 e2 =>
      let e := Z.min e1 e2 in
      let s := signed s1 m1 * 2 ^ (e1 - e) + signed s2 m2 * 2 ^ (e2 - e) in
      if s =? 0 then Finite (s1 && s2) 0 emin
      else round (s <? 0) (Z.abs s * pow2 e) (pow2 (- e))
  end.

(** Number multiplication. *)
Definition mul (x y : number) : number :=
  match x, y with
  | NaN, _ | _, NaN => NaN
  | Infinity a, Infinity b => Infinity (xorb a b)
  | Infinity a, Finite b m _ | Finite b m _, Infinity a =>
      if m =? 0 then NaN else Infinity (xorb a b)
  | Finite s1 m1 e1, Finite s2 m2 e2 =>
      round (xorb s1 s2) (m1 * m2 * pow2 (e1 + e2)) (pow2 (- (e1 + e2)))
  end.

(** Number division. *)
Definition div (x y : number) : number :=
  match x, y with
  | NaN, _ | _, NaN => NaN
  | Infinity _, Infinity _ => NaN
  | Infinity a, Finite b _ _ => Infinity (xorb a b)
  | Finite a _ _, Infinity b => Finite (xorb a b) 0 emin
  | Finite s1 m1 e1, Finite s2 m2 e2 =>
      if m2 =? 0 then (if m1 =? 0 then NaN else Infinity (xorb s1 s2))
      else round (xorb s1 s2) (m1 * pow2 (e1 - e2)) (m2 * pow2 (e2 - e1))
  end.

(** The Number value of the decimal [m * 10^e], [0 <= m]. *)
Definition of_decimal (negative : bool) (m e : Z) : number :=
  round negative (m * pow10 e) (pow10 (- e)).

(** Positional notation of [n / 10^k]: the digits of [n], filled with
    zeros on the left up to [k + 1] digits, and a point in front of the
    last [k] of them. *)
Definition positional (k : nat) (n : N) : string :=
  let ds := JsString.pad0 (S k) (JsString.of_N n) in
  let i := (String.length ds - k)%nat in
  match k with
  | O => ds
  | S _ => (JsString.take i ds ++ "." ++ JsString.drop i ds)%string
  end.

(** *** Number::toString *)

(** [floor (log10 (n / d))] for positive [n] and [d]: an estimate from
    the binary logarithm, corrected by one. *)
Definition ilog10 (n d : Z) : Z :=
  let k := ilog2 n d * 1233 / 4096 in
  if n * pow10 (- k) <? d * pow10 k then k - 1
  else if n * pow10 (- (k + 1)) <? d * pow10 (k + 1) then k
  else k + 1.

(** The digits of the search for the shortest decimal that reads back as
    [x = Finite false m e]: with [k] digits, the two [k]-digit decimals
    around the value, the nearer one first (the even one on a tie). A
    candidate is [(s, q)] for [s * 10^q]. *)
Definition candidates (n d : Z) (n0 : Z) (k : Z) : list (Z * Z) :=
  let q := n0 - k in
  let nn := n * pow10 (- q) in
  let dd := d * pow10 q in
  let lo := nn / dd in
  let hi := lo + 1 in
  let fix_up (s : Z) : Z * Z := if s =? 10 ^ k then (10 ^ (k - 1), q + 1) else (s, q) in
  match 2 * (nn mod dd) ?= dd with
  | Lt => [fix_up lo; fix_up hi]
  | Gt => [fix_up hi; fix_up lo]
  | Eq => if Z.even lo then [fix_up lo; fix_up hi] else [fix_up hi; fix_up lo]
  end.

Definition reads_back (x : number) (c : Z * Z) : bool :=
  match x, of_decimal false (fst c) (snd c) with
  | Finite _ m e, Finite _ m' e' => (0 <? fst c) && (m =? m') && (e =? e')
  | _, _ => false
  end.

(** The exact decimal expansion of [m * 2^e]. *)
Definition exact_decimal (m e : Z) : Z * Z :=
  if 0 <=? e then (m * 2 ^ e, 0) else (m * 5 ^ (- e), e).

Fixpoint shortest_from (fuel : nat) (x : number) (n d n0 k : Z) : option (Z * Z) :=
  match fuel with
  | O => None
  | S fuel' =>
      match List.filter (reads_back x) (candidates n d n0 k) with
      | c :: _ => Some c
      | [] => shortest_from fuel' x n d n0 (k + 1)
      end
  end.

(** [(s, q)] with [s * 10^q] the shortest decimal that reads back as
    [Finite false m e], [0 < m]. *)
Definition shortest (m e : Z) : Z * Z :=
  let n := m * pow2 e in
  let d := pow2 (- e) in
  match shortest_from 800 (Finite false m e) n d (ilog10 n d + 1) 1 with
  | Some c => c
  | None => exact_decimal m e
  end.

Definition digits10 (s : Z) : Z := Z.of_nat (String.length (JsString.of_N (Z.to_N s))).

(** Number::toString (radix 10). *)
Definition toString (x : number) : string :=
  match x with
  | NaN => "NaN"
  | Infinity false => "Infinity"
  | Infinity true => "-Infinity"
  | Finite negative m e =>
      if m =? 0 then "0"
      else
        let '(s, q) := shortest m e in
        let k := digits10 s in
        let n := k + q in
        let sign := if negative then "-"%string else ""%string in
        let body :=
          if (-6 <? n) && (n <=? 21)
          then positional (Z.to_nat (- q)) (Z.to_N (s * pow10 q))
          else
            let mantissa := positional (Z.to_nat (k - 1)) (Z.to_N s) in
            let exponent := JsString.of_N (Z.to_N (Z.abs (n - 1))) in
            let mark := if 0 <=? n - 1 then "e+"%string else "e-"%string in
            (mantissa ++ mark ++ exponent)%string in
        (sign ++ body)%string
  end.

(** *** Number.prototype.toFixed *)

(** [10^21 <= m * 2^e] *)
Definition at_least_1e21 (m e : Z) : bool := 10 ^ 21 * pow2 (- e) <=? m * pow2 e.

(** [x.toFixed(f)]: below 10^21 the integer [n] for which [n / 10^f] is
    nearest to the value of [x] (the larger one of two that are as near),
    in positional notation with [f] decimals. *)
Definition toFixed (f : nat) (x : number) : string :=
  match x with
  | Finite negative m e =>
      if at_least_1e21 m e then toString x
      else
        let n := (2 * m * pow2 e * 10 ^ Z.of_nat f + pow2 (- e)) / (2 * pow2 (- e)) in
        let sign := if negative && (0 <? m) then "-"%string else ""%string in
        (sign ++ positional f (Z.to_N n))%string
  | _ => toString x
  end.

(** *** parseFloat *)

(** White space and line terminators of one byte. *)
Definition is_white (c : ascii) : bool :=
  let n := nat_of_ascii c in
  ((9 <=? n) && (n <=? 13) || (n =? 32))%nat.

(** The UTF-8 bytes of the other white space: U+00A0, U+1680, U+2000 to
    U+200A, U+2028, U+2029, U+202F, U+205F, U+3000 and U+FEFF. *)
Definition is_white2 (a b : ascii) : bool :=
  ((nat_of_ascii a =? 194) && (nat_of_ascii b =? 160))%nat.

Definition is_white3 (a b c : ascii) : bool :=
  let '(a, b, c) := (nat_of_ascii a, nat_of_ascii b, nat_of_ascii c) in
  ((a =? 225) && (b =? 154) && (c =? 128)
   || (a =? 226) && (b =? 128)
      && ((128 <=? c) && (c <=? 138) || (c =? 168) || (c =? 169) || (c =? 175))
   || (a =? 226) && (b =? 129) && (c =? 159)
   || (a =? 227) && (b =? 128) && (c =? 128)
   || (a =? 239) && (b =? 187) && (c =? 191))%nat.

Fixpoint skip_white (s : string) : string :=
  match s with
  | String a s1 =>
      if is_white a then skip_white s1
      else
        match s1 with
        | String b s2 =>
            if is_white2 a b then skip_white s2
            else
              match s2 with
              | String c s3 => if is_white3 a b c then skip_white s3 else s
              | EmptyString => s
              end
        | EmptyString => s
        end
  | EmptyString => s
  end.

Definition digit_of (c : ascii) : option Z :=
  let n := nat_of_ascii c in
  if ((48 <=? n) && (n <=? 57))%nat then Some (Z.of_nat (n - 48)) else None.

(** The longest run of decimal digits at the head of [s], most significant
    first, and what follows it. *)
Fixpoint span_digits (s : string) : list Z * string :=
  match s with
  | String c s' =>
      match digit_of c with
      | Some d => let '(ds, r) := span_digits s' in (d :: ds, r)
      | None => ([], s)
      end
  | EmptyString => ([], s)
  end.

Definition digits_value (ds : list Z) : Z :=
  fold_left (fun acc d => 10 * acc + d) ds 0.

(** An optional sign: [true] for a minus. *)
Definition take_sign (s : string) : bool * string :=
  match s with
  | String "-" s' => (true, s')
  | String "+" s' => (false, s')
  | _ => (false, s)
  end.

(** ExponentPart, when one is present and well formed; otherwise 0. *)
Definition exponent_part (s : string) : Z :=
  match s with
  | String c s' =>
      if (Ascii.eqb c "e" || Ascii.eqb c "E")%bool then
        let '(neg, s'') := take_sign s' in
        let '(ds, _) := span_digits s'' in
        match ds with
        | [] => 0
        | _ => if neg then - digits_value ds else digits_value ds
        end
      else 0
  | EmptyString => 0
  end.

(** The value of the longest prefix of [s1] that is a
    StrUnsignedDecimalLiteral, with the sign read before it. *)
Definition parse_unsigned (neg : bool) (s1 : string) : number :=
  match JsString.strip_prefix "Infinity" s1 with
  | Some _ => Infinity neg
  | None =>
      let '(ip, s2) := span_digits s1 in
      let '(fp, s3) :=
        match s2 with
        | String "." s2' => span_digits s2'
        | _ => ([], s2)
        end in
      match (ip ++ fp)%list with
      | [] => NaN
      | ds => of_decimal neg (digits_value ds) (exponent_part s3 - Z.of_nat (List.length fp))
      end
  end.

(** parseFloat(s): the value of the longest prefix of the trimmed input
    that is a StrDecimalLiteral, NaN when there is none. *)
Definition parseFloat (s : string) : number :=
  let '(neg, s1) := take_sign (skip_white s) in
  parse_unsigned neg s1.

End JsNumber.

Import JsNumber.

(** ** Dates *)

Module JsDate.

Local Open Scope Z_scope.

(** A Date is its time value: milliseconds since 1970-01-01T00:00:00Z. *)
Definition msPerDay : Z := 86400000.
Definition msPerHour : Z := 3600000.
Definition msPerMinute : Z := 60000.
Definition msPerSecond : Z := 1000.

Definition Day (t : Z) : Z := t / msPerDay.
Definition TimeWithinDay (t : Z) : Z := t mod msPerDay.

Definition isLeap (y : Z) : bool :=
  (y mod 4 =? 0) && (negb (y mod 100 =? 0) || (y mod 400 =? 0)).

Definition DaysInYear (y : Z) : Z := if isLeap y then 366 else 365.

Definition DayFromYear (y : Z) : Z :=
  365 * (y - 1970) + (y - 1969) / 4 - (y - 1901) / 100 + (y - 1601) / 400.

(** The largest year [y] with [DayFromYear y <= Day t]: an estimate from
    the mean year length, corrected by at most one year. *)
Definition YearFromDay (d : Z) : Z :=
  let y := 1970 + (d * 400) / 146097 in
  if DayFromYear (y + 1) <=? d then y + 1
  else if DayFromYear y <=? d then y
  else y - 1.

Definition YearFromTime (t : Z) : Z := YearFromDay (Day t).

Definition DayWithinYear (t : Z) : Z := Day t - DayFromYear (YearFromTime t).

Definition InLeapYear (t : Z) : Z := if isLeap (YearFromTime t) then 1 else 0.

(** Number of days of the year that precede month [m] (0 = January). *)
Definition DaysBeforeMonth (leap m : Z) : Z :=
  match m with
  | 0 => 0
  | 1 => 31
  | 2 => 59 + leap
  | 3 => 90 + leap
  | 4 => 120 + leap
  | 5 => 151 + leap
  | 6 => 181 + leap
  | 7 => 212 + leap
  | 8 => 243 + leap
  | 9 => 273 + leap
  | 10 => 304 + leap
  | 11 => 334 + leap
  | _ => 365 + leap
  end.

Definition MonthFromTime (t : Z) : Z :=
  let d := DayWithinYear t in
  let leap := InLeapYear t in
  if d <? 31 then 0
  else if d <? 59 + leap then 1
  else if d <? 90 + leap then 2
  else if d <? 120 + leap then 3
  else if d <? 151 + leap then 4
  else if d <? 181 + leap then 5
  else if d <? 212 + leap then 6
  else if d <? 243 + leap then 7
  else if d <? 273 + leap then 8
  else if d <? 304 + leap then 9
  else if d <? 334 + leap then 10
  else 11.

Definition DateFromTime (t : Z) : Z :=
  DayWithinYear t - DaysBeforeMonth (InLeapYear t) (MonthFromTime t) + 1.

(** MakeDay(year, month, date): months outside 0..11 carry into the year,
    and the date counts on from the first of that month, so date 0 is the
    last day of the month before. *)
Definition MakeDay (year month date : Z) : Z :=
  let ym := year + month / 12 in
  let mn := month mod 12 in
  DayFromYear ym + DaysBeforeMonth (if isLeap ym then 1 else 0) mn + date - 1.

Definition MakeDate (day time : Z) : Z := day * msPerDay + time.

(** The time zone of the process. Offsets are in milliseconds, positive
    east of Greenwich: [offset_at t] is the offset in force at the instant
    [t], [offset_of_local t] the offset by which the local time [t] is
    read (LocalTZA(t, true) and LocalTZA(t, false)). The two differ around
    a change of offset, as at the start and the end of daylight saving
    time. *)
Record TimeZone : Type := {
  offset_at : Z -> Z;
  offset_of_local : Z -> Z
}.

Bind Scope Z_scope with TimeZone.

(** A zone that keeps one offset all year. *)
Definition fixed (tza : Z) : TimeZone :=
  {| offset_at := fun _ => tza; offset_of_local := fun _ => tza |}.

Definition LocalTime (tz : TimeZone) (t : Z) : Z := t + offset_at tz t.
Definition UTC (tz : TimeZone) (t : Z) : Z := t - offset_of_local tz t.

(** TimeClip: a time value is at most 8.64e15 ms away from the epoch;
    beyond that a Date is invalid. *)
Definition TimeClip (t : Z) : option Z :=
  if Z.abs t <=? 8640000000000000 then Some t else None.

(** [new Date(year, month, date)]: midnight local time at the start of the
    given civil day, as the time value before TimeClip. *)
Definition new_Date (tz : TimeZone) (year month date : Z) : Z :=
  let yr := if (0 <=? year) && (year <=? 99) then 1900 + year else year in
  UTC tz (MakeDate (MakeDay yr month date) 0).

Definition getFullYear (tz : TimeZone) (t : Z) : Z := YearFromTime (LocalTime tz t).
Definition getMonth (tz : TimeZone) (t : Z) : Z := MonthFromTime (LocalTime tz t).
Definition getDate (tz : TimeZone) (t : Z) : Z := DateFromTime (LocalTime tz t).

Definition pad (width : nat) (n : Z) : string :=
  JsString.pad0 width (JsString.of_N (Z.to_N n)).

(** The year of an ISO date: four digits, or a sign and six digits
    outside 0..9999. *)
Definition iso_year (y : Z) : string :=
  if (0 <=? y) && (y <=? 9999) then pad 4 y
  else String.append (if y <? 0 then "-" else "+") (pad 6 (Z.abs y)).

(** Date.prototype.toISOString: the UTC fields of the time value, as
    YYYY-MM-DDTHH:mm:ss.sssZ. *)
Definition toISOString (t : Z) : string :=
  let ms := TimeWithinDay t in
  (iso_year (YearFromTime t)
     ++ "-" ++ pad 2 (MonthFromTime t + 1) ++ "-" ++ pad 2 (DateFromTime t)
     ++ "T" ++ pad 2 (ms / msPerHour)
     ++ ":" ++ pad 2 (ms mod msPerHour / msPerMinute)
     ++ ":" ++ pad 2 (ms mod msPerMinute / msPerSecond)
     ++ "." ++ pad 3 (ms mod msPerSecond) ++ "Z")%string.

Definition month_name (m : Z) : string :=
  match m with
  | 0 => "January" | 1 => "February" | 2 => "March" | 3 => "April"
  | 4 => "May" | 5 => "June" | 6 => "July" | 7 => "August"
  | 8 => "September" | 9 => "October" | 10 => "November" | _ => "December"
  end.

(** [toLocaleDateString("en-US", { month: "long", year: "numeric" })]:
    the local month and year, as in "February 2025". *)
Definition toLocaleDateString_month_year (tz : TimeZone) (t : Z) : string :=
  (month_name (getMonth tz t) ++ " " ++ JsString.of_N (Z.to_N (getFullYear tz t)))%string.

(** The time value of a civil instant, for writing down test inputs. *)
Definition at_utc (year month1 date hour minute : Z) : Z :=
  MakeDate (MakeDay year (month1 - 1) date) (hour * msPerHour + minute * msPerMinute).

End JsDate.

(** An offset stands for the zone that keeps it all year. *)
Coercion JsDate.fixed : Z >-> JsDate.TimeZone.
Bind Scope Z_scope with JsDate.TimeZone.

(** ** The reporting window (index.ts, lines 45-47 and 56-57) *)

Section Window.

(** The time zone of the process and the clock reading. *)
Variable tza : JsDate.TimeZone.
Variable now : Z.

Definition firstDayLastMonth : Z :=
  JsDate.new_Date tza (JsDate.getFullYear tza now) (JsDate.getMonth tza now - 1) 1.

Definition lastDayLastMonth : Z :=
  JsDate.new_Date tza (JsDate.getFullYear tza now) (JsDate.getMonth tza now) 0.

(** [d.toISOString().split("T")[0]] *)
Definition iso_date (d : Z) : string :=
  JsString.split_head "T" (JsDate.toISOString d).

(** The bounds given to [.gte("appointment_date", _)] and
    [.lte("appointment_date", _)]. *)
Definition query_window : string * string :=
  (iso_date firstDayLastMonth, iso_date lastDayLastMonth).

End Window.

(** ** Rows returned by the database *)

(** A JSON scalar as a column value: [final_price] is declared numeric, the
    untyped client hands over whatever the row holds. *)
Inductive jsval : Type :=
| JNull
| JNum (n : number)
| JStr (s : string).

(** [v?.toString()]: undefined for null. *)
Definition toString_opt (v : jsval) : option string :=
  match v with
  | JNull => None
  | JNum n => Some (JsNumber.toString n)
  | JStr s => Some s
  end.

(** The [Boolean] function on a nullable string. *)
Definition Boolean (v : option string) : bool :=
  match v with
  | Some s => JsString.truthy s
  | None => false
  end.

Module Service.
(** The joined [services(name)] object. *)
Record t : Type := mk { name : option string }.
End Service.

Module Appointment.
(** select("id, status, final_price, service_id, customer_id, services(name)") *)
Record t : Type := mk {
  id : string;
  status : string;
  final_price : jsval;
  service_id : option string;
  customer_id : option string;
  services : option Service.t
}.
End Appointment.

Module Business.
(** select("id, name, email, owner_id, currency") *)
Record t : Type := mk {
  id : string;
  name : string;
  email : option string;
  owner_id : option string;
  currency : option string
}.
End Business.

Module ServiceCount.
(** An element of [topServices]. *)
Record t : Type := mk { name : string; count : nat }.
End ServiceCount.

Record MonthlyReportData : Type := {
  businessId : string;
  businessName : string;
  ownerEmail : string;
  totalAppointments : nat;
  completedAppointments : nat;
  cancelledAppointments : nat;
  totalRevenue : number;
  newCustomers : nat;
  topServices : list ServiceCount.t;
  currency : string
}.

(** ** A JavaScript Map with string keys

    Iteration follows insertion order, and [set] on a key that is present
    keeps its position. *)

Module JsMap.

Definition t (V : Type) : Type := list (string * V).

Definition empty {V} : t V := [].

Fixpoint get {V} (m : t V) (k : string) : option V :=
  match m with
  | [] => None
  | (k', v) :: m' => if String.eqb k k' then Some v else get m' k
  end.

Fixpoint set {V} (m : t V) (k : string) (v : V) : t V :=
  match m with
  | [] => [(k, v)]
  | (k', v') :: m' =>
      if String.eqb k k' then (k', v) :: m' else (k', v') :: set m' k v
  end.

Definition entries {V} (m : t V) : list (string * V) := m.

End JsMap.

(** ** Array.prototype.sort

    The sort is stable: elements the comparator does not separate keep their
    order. [insert_sorted x l] puts [x] in front of the first element it
    does not have to follow. *)

Section Sort.

Context {A : Type}.
Variable compare : A -> A -> Z.

Fixpoint insert_sorted (x : A) (l : list A) : list A :=
  match l with
  | [] => [x]
  | y :: l' =>
      if (0 <? compare x y)%Z then y :: insert_sorted x l' else x :: y :: l'
  end.

Fixpoint sort (l : list A) : list A :=
  match l with
  | [] => []
  | x :: l' => insert_sorted x (sort l')
  end.

End Sort.

(** ** The metrics of one business (index.ts, lines 64-99) *)

Section Metrics.

(** [appointments] is the [data] of the query: an array, or null. *)
Variable appointments : option (list Appointment.t).

Definition has_status (s : string) (a : Appointment.t) : bool :=
  String.eqb (Appointment.status a) s.

Definition calc_totalAppointments : nat :=
  match appointments with
  | Some l => length l
  | None => 0
  end.

Definition calc_completedAppointments : nat :=
  match appointments with
  | Some l => length (List.filter (has_status "completed") l)
  | None => 0
  end.

Definition calc_cancelledAppointments : nat :=
  match appointments with
  | Some l => length (List.filter (has_status "cancelled") l)
  | None => 0
  end.

(** [parseFloat(a.final_price?.toString() || "0")] *)
Definition price_of (a : Appointment.t) : number :=
  parseFloat (JsString.or_else (toString_opt (Appointment.final_price a)) "0").

Definition calc_totalRevenue : number :=
  match appointments with
  | Some l =>
      JsNumber.or_else
        (fold_left (fun sum a => JsNumber.add sum (price_of a))
                   (List.filter (has_status "completed") l) JsNumber.zero)
        JsNumber.zero
  | None => JsNumber.zero
  end.

Definition uniqueCustomers : gset (option string) :=
  match appointments with
  | Some l => list_to_set (List.filter Boolean (map Appointment.customer_id l))
  | None => ∅
  end.

Definition calc_newCustomers : nat := size uniqueCustomers.

(** [a.services?.name] when it is truthy. *)
Definition service_name (a : Appointment.t) : option string :=
  match Appointment.services a with
  | Some s =>
      match Service.name s with
      | Some n => if JsString.truthy n then Some n else None
      | None => None
      end
  | None => None
  end.

(** The body of the [forEach]. *)
Definition count_service (m : JsMap.t nat) (a : Appointment.t) : JsMap.t nat :=
  match service_name a with
  | Some n => JsMap.set m n (default 0 (JsMap.get m n) + 1)
  | None => m
  end.

Definition serviceCounts : JsMap.t nat :=
  match appointments with
  | Some l => fold_left count_service l JsMap.empty
  | None => JsMap.empty
  end.

(** The comparator [(a, b) => b.count - a.count]. *)
Definition by_count_desc (a b : ServiceCount.t) : Z :=
  Z.of_nat (ServiceCount.count b) - Z.of_nat (ServiceCount.count a).

Definition calc_topServices : list ServiceCount.t :=
  take 5
    (sort by_count_desc
       (map (fun '(name, count) => ServiceCount.mk name count)
            (JsMap.entries serviceCounts))).

Definition reportData (business : Business.t) : MonthlyReportData :=
  {| businessId := Business.id business;
     businessName := Business.name business;
     ownerEmail := JsString.or_else (Business.email business) "";
     totalAppointments := calc_totalAppointments;
     completedAppointments := calc_completedAppointments;
     cancelledAppointments := calc_cancelledAppointments;
     totalRevenue := calc_totalRevenue;
     newCustomers := calc_newCustomers;
     topServices := calc_topServices;
     currency := JsString.or_else (Business.currency business) "NGN" |}.

End Metrics.

(** ** The e-mail (index.ts, lines 124-231) *)

(** The HTML body, as the values the template interpolates, in order of
    first appearance. [totalRevenue] is the number handed to
    [toLocaleString]; the services section is rendered when the list is not
    empty. *)
Record ReportHtml : Type := {
  html_monthYear : string;
  html_businessName : string;
  html_totalAppointments : nat;
  html_currency : string;
  html_totalRevenue : number;
  html_completedAppointments : nat;
  html_completionRate : string;
  html_newCustomers : nat;
  html_topServices : list ServiceCount.t;
  html_cancelledAppointments : nat;
  html_averageRevenue : string
}.

Record Email : Type := {
  from : string;
  to : list string;
  subject : string;
  html : ReportHtml
}.

Section Render.

Variable tza : JsDate.TimeZone.
Variable data : MonthlyReportData.
Variables startDate endDate : Z.

Definition monthYear : string := JsDate.toLocaleDateString_month_year tza startDate.

(** [((completed / total) * 100).toFixed(1)], or "0" *)
Definition completionRate : string :=
  if (0 <? totalAppointments data)%nat
  then JsNumber.toFixed 1
         (JsNumber.mul
            (JsNumber.div (JsNumber.of_nat (completedAppointments data))
                          (JsNumber.of_nat (totalAppointments data)))
            (JsNumber.of_nat 100))
  else "0".

(** [(totalRevenue / completed).toFixed(2)], or "0" *)
Definition averageRevenue : string :=
  if (0 <? completedAppointments data)%nat
  then JsNumber.toFixed 2
         (JsNumber.div (totalRevenue data)
                       (JsNumber.of_nat (completedAppointments data)))
  else "0".

Definition render_html : ReportHtml :=
  {| html_monthYear := monthYear;
     html_businessName := businessName data;
     html_totalAppointments := totalAppointments data;
     html_currency := currency data;
     html_totalRevenue := totalRevenue data;
     html_completedAppointments := completedAppointments data;
     html_completionRate := completionRate;
     html_newCustomers := newCustomers data;
     html_topServices := topServices data;
     html_cancelledAppointments := cancelledAppointments data;
     html_averageRevenue := averageRevenue |}.

(** The argument of [resend.emails.send]. *)
Definition report_email : Email :=
  {| from := "Boji <admin@bojiapp.me>";
     to := [ownerEmail data];
     subject := "üìä Your Monthly Report - " ++ monthYear;
     html := render_html |}.

End Render.

(** ** The outside world *)

(** A thrown value; the handler reads nothing but [message]. *)
Record JsError : Type := { message : string }.

(** What an awaited call does: it resolves to [{ data, error }], or the
    promise rejects and [await] throws. *)
Inductive Outcome (A : Type) : Type :=
| Resolved (data : option A) (error : option JsError)
| Rejected (e : JsError).
Arguments Resolved {A} data error.
Arguments Rejected {A} e.

(** What the run does to the outside, in order. *)
Inductive Event : Type :=
| ConsoleLog (line : string)
| ConsoleError (line : string) (e : JsError)
| SelectBusinesses
| SelectAppointments (business_id gte lte : string)
| SendEmail (email : Email).

(** The collaborators. The answers to the per-business query and to the
    mail call may depend on everything that happened before the call. *)
Record Env : Type := {
  env_tza : JsDate.TimeZone;
  env_now : Z;
  env_createClient : option JsError;
  env_businesses : Outcome (list Business.t);
  env_appointments : list Event -> string -> string -> string -> Outcome (list Appointment.t);
  env_send : list Event -> Email -> Outcome unit
}.

(** ** Computations that log and may throw *)

Inductive result (A : Type) : Type :=
| Ok (a : A)
| Throw (e : JsError).
Arguments Ok {A} a.
Arguments Throw {A} e.

Definition M (A : Type) : Type := list Event -> result A * list Event.

#[global] Instance M_ret : MRet M := fun A a tr => (Ok a, tr).

#[global] Instance M_bind : MBind M := fun A B k m tr =>
  match m tr with
  | (Ok a, tr') => k a tr'
  | (Throw e, tr') => (Throw e, tr')
  end.

Definition throw {A} (e : JsError) : M A := fun tr => (Throw e, tr).

Definition try_catch {A} (m : M A) (handle : JsError -> M A) : M A :=
  fun tr =>
    match m tr with
    | (Ok a, tr') => (Ok a, tr')
    | (Throw e, tr') => handle e tr'
    end.

Definition emit (ev : Event) : M unit := fun tr => (Ok tt, (tr ++ [ev])%list).

(** [await call]: the call is recorded, then answered from the history
    before it. *)
Definition await {A} (ev : Event) (answer : list Event -> Outcome A)
  : M (option A * option JsError) :=
  fun tr =>
    match answer tr with
    | Resolved data error => (Ok (data, error), (tr ++ [ev])%list)
    | Rejected e => (Throw e, (tr ++ [ev])%list)
    end.

(** [for (const x of l) body] *)
Fixpoint for_of {A} (l : list A) (body : A -> M unit) : M unit :=
  match l with
  | [] => mret tt
  | x :: l' => body x ;; for_of l' body
  end.

(** ** HTTP *)

Record Request : Type := { method : string }.

(** The argument of [JSON.stringify]: an object with scalar fields. *)
Inductive JsonScalar : Type :=
| JsonString (s : string)
| JsonBool (b : bool).

Definition Json : Type := list (string * JsonScalar).

Record Response : Type := {
  status : Z;
  headers : list (string * string);
  body : option Json
}.

Definition corsHeaders : list (string * string) :=
  [("Access-Control-Allow-Origin", "*");
   ("Access-Control-Allow-Headers", "authorization, x-client-info, apikey, content-type")].

(** ** The handler (index.ts, lines 27-122) *)

Section Handler.

Variable env : Env.

(** [sendMonthlyReport(data, startDate, endDate)] *)
Definition sendMonthlyReport (data : MonthlyReportData) (startDate endDate : Z) : M unit :=
  let email := report_email (env_tza env) data startDate in
  await (SendEmail email) (fun tr => env_send env tr email) ;;
  mret tt.

(** The body of the inner [try]. *)
Definition report_business (first last : Z) (business : Business.t) : M unit :=
  let gte := iso_date first in
  let lte := iso_date last in
  '(appointments, apptError) ←
    await (SelectAppointments (Business.id business) gte lte)
          (fun tr => env_appointments env tr (Business.id business) gte lte);
  match apptError with
  | Some e =>
      emit (ConsoleError
              ("Error fetching appointments for business " ++ Business.id business ++ ":") e)
  | None =>
      let data := reportData appointments business in
      if (0 <? totalAppointments data)%nat && JsString.truthy (ownerEmail data)
      then
        sendMonthlyReport data first last ;;
        emit (ConsoleLog ("Sent monthly report to " ++ ownerEmail data
                            ++ " for " ++ businessName data))
      else mret tt
  end.

(** One iteration of the loop: the inner [try ... catch]. *)
Definition process_business (first last : Z) (business : Business.t) : M unit :=
  try_catch (report_business first last business)
    (fun error =>
       emit (ConsoleError
               ("Error processing business " ++ Business.id business ++ ":") error)).

Definition json_response (code : Z) (payload : Json) : Response :=
  {| status := code;
     headers := (corsHeaders ++ [("Content-Type", "application/json")])%list;
     body := Some payload |}.

(** The body of the outer [try]. *)
Definition run_reports : M Response :=
  match env_createClient env with
  | Some e => throw e
  | None => mret tt
  end ;;
  '(businesses, businessError) ← await SelectBusinesses (fun _ => env_businesses env);
  match businessError with
  | Some e => throw e
  | None =>
      emit (ConsoleLog ("Processing monthly reports for "
                          ++ JsString.of_nat (length (default [] businesses))
                          ++ " businesses")) ;;
      let first := firstDayLastMonth (env_tza env) (env_now env) in
      let last := lastDayLastMonth (env_tza env) (env_now env) in
      for_of (default [] businesses) (process_business first last) ;;
      mret (json_response 200
             [("success", JsonBool true);
              ("message", JsonString "Monthly reports sent successfully")])
  end.

Definition handler (req : Request) : M Response :=
  if String.eqb (method req) "OPTIONS"
  then mret {| status := 200; headers := corsHeaders; body := None |}
  else
    try_catch run_reports
      (fun error =>
         emit (ConsoleError "Error in send-monthly-report function:" error) ;;
         mret (json_response 500 [("error", JsonString (message error))])).

End Handler.

(** A run starts with an empty history. *)
Definition run (env : Env) (req : Request) : result Response * list Event :=
  handler env req [].

(** * Vocabulary of the properties *)

(** The digits of a decimal numeral, most significant first. *)
Fixpoint uint_digits (d : Decimal.uint) : list Z :=
  match d with
  | Decimal.Nil => []
  | Decimal.D0 d => 0%Z :: uint_digits d
  | Decimal.D1 d => 1%Z :: uint_digits d
  | Decimal.D2 d => 2%Z :: uint_digits d
  | Decimal.D3 d => 3%Z :: uint_digits d
  | Decimal.D4 d => 4%Z :: uint_digits d
  | Decimal.D5 d => 5%Z :: uint_digits d
  | Decimal.D6 d => 6%Z :: uint_digits d
  | Decimal.D7 d => 7%Z :: uint_digits d
  | Decimal.D8 d => 8%Z :: uint_digits d
  | Decimal.D9 d => 9%Z :: uint_digits d
  end.

(** [s] consists of the digits [ds] and nothing else. *)
Definition numeral (s : string) (ds : list Z) : Prop := JsNumber.span_digits s = (ds, "").

(** What may follow a numeral without being read as part of it: nothing,
    or a character that is neither a digit nor a point. *)
Definition stops (r : string) : Prop :=
  match r with
  | EmptyString => True
  | String c _ => JsNumber.digit_of c = None /\ c <> "."%char
  end.

(** A number in the one form the format stores: the significand has 53
    bits, or the exponent is the least one (a subnormal number or zero). *)
Definition canonical (x : number) : Prop :=
  match x with
  | Finite _ m e =>
      (0 <= m < 2 ^ 53 /\ JsNumber.emin <= e <= JsNumber.emax
       /\ (m < 2 ^ 52 -> e = JsNumber.emin))%Z
  | _ => True
  end.

(** [2^k] as a rational, for every integer [k]. *)
Definition two_to (k : Z) : Q := 2 ^ k.

(** The exact value of a finite number, sign included. *)
Definition finite_value (x : number) : Q :=
  match x with
  | Finite s m e => inject_Z (JsNumber.signed s m) * two_to e
  | _ => 0
  end.

(** What a running sum of finite amounts is: a number of the format that
    is neither NaN nor the negative zero. *)
Definition sound_sum (x : number) : Prop :=
  canonical x /\ JsNumber.is_nan x = false /\ x <> Finite true 0 JsNumber.emin.

Definition is_finite (x : number) : Prop := exists s m e, x = Finite s m e.

Definition is_zero (x : number) : Prop := exists s e, x = Finite s 0 e.

(** The revenue as the specification words it: the amounts of the completed
    records, each coerced to a number, where an amount that is missing or
    not a number counts as zero. *)
Definition spec_amount (a : Appointment.t) : number :=
  let x := price_of a in
  if JsNumber.is_nan x then JsNumber.zero else x.

Definition spec_revenue (l : list Appointment.t) : number :=
  fold_left JsNumber.add
    (map spec_amount (List.filter (has_status "completed") l)) JsNumber.zero.

(** The completion rate as the specification words it: completed / total
    * 100 rounded to one decimal place, the exact quotient being rounded to
    the nearest tenth and a quotient halfway between two tenths upwards (to
    the even tenth gives the same at 23 of 80). *)
Definition spec_completionRate (completed total : nat) : string :=
  if (0 <? total)%nat
  then JsNumber.positional 1
         (Z.to_N ((2000 * Z.of_nat completed + Z.of_nat total) / (2 * Z.of_nat total)))
  else "0".

(** The customer count as the specification words it: the distinct
    references among the records whose reference is not null. *)
Definition spec_newCustomers (l : list Appointment.t) : nat :=
  size (list_to_set (omap Appointment.customer_id l) : gset string).

(** The service names met while iterating over the records: a record
    without a service name, or with an empty one, gives none. *)
Definition service_names (l : list Appointment.t) : list string :=
  omap service_name l.

(** How often a name occurs, and where it occurs first (the length of the
    list when it does not occur). *)
Definition occurrences (n : string) (names : list string) : nat :=
  count_occ string_dec names n.

Fixpoint first_index (n : string) (names : list string) : nat :=
  match names with
  | [] => 0
  | x :: names' => if String.eqb x n then 0 else S (first_index n names')
  end.

(** The order of the ranking: more occurrences first, and among equal
    counts the name that was met first. *)
Definition ranks_before (names : list string) (a b : ServiceCount.t) : Prop :=
  (ServiceCount.count b < ServiceCount.count a)%nat
  \/ (ServiceCount.count a = ServiceCount.count b
      /\ (first_index (ServiceCount.name a) names
          < first_index (ServiceCount.name b) names)%nat).

(** The records that carry a service name, and those that carry [n]. *)
Definition has_service_name (a : Appointment.t) : bool :=
  match service_name a with
  | Some _ => true
  | None => false
  end.

Definition has_service (n : string) (a : Appointment.t) : bool :=
  match service_name a with
  | Some x => String.eqb x n
  | None => false
  end.

Definition total_count (top : list ServiceCount.t) : nat :=
  list_sum (map ServiceCount.count top).

(** The civil date [y]-[m + 1]-[d] as an ISO string; months count from 0
    as in [getMonth]. *)
Definition date_string (y m d : Z) : string :=
  JsDate.iso_year y ++ "-" ++ JsDate.pad 2 (m + 1) ++ "-" ++ JsDate.pad 2 d.

Definition DaysInMonth (y m : Z) : Z :=
  let leap := if JsDate.isLeap y then 1%Z else 0%Z in
  (JsDate.DaysBeforeMonth leap (m + 1) - JsDate.DaysBeforeMonth leap m)%Z.

(** The month before month [m] of year [y]. *)
Definition previous_month (y m : Z) : Z * Z :=
  if (m =? 0)%Z then ((y - 1)%Z, 11%Z) else (y, (m - 1)%Z).

(** The local midnights that the two dates of the window are built for:
    the start of the first and of the last day of the month before the
    local month of the clock reading. *)
Definition first_local_midnight (tz : JsDate.TimeZone) (now : Z) : Z :=
  let p := previous_month (JsDate.getFullYear tz now) (JsDate.getMonth tz now) in
  JsDate.MakeDate (JsDate.MakeDay p.1 p.2 1) 0.

Definition last_local_midnight (tz : JsDate.TimeZone) (now : Z) : Z :=
  let p := previous_month (JsDate.getFullYear tz now) (JsDate.getMonth tz now) in
  JsDate.MakeDate (JsDate.MakeDay p.1 p.2 (DaysInMonth p.1 p.2)) 0.

(** A business qualifies for a report when it had at least one appointment
    in the window and has a contact address that is not empty. *)
Definition has_activity (appointments : option (list Appointment.t)) : Prop :=
  (0 < calc_totalAppointments appointments)%nat.

Definition has_address (business : Business.t) : Prop :=
  exists address, Business.email business = Some address /\ address <> "".

Definition is_dispatch (ev : Event) : bool :=
  match ev with
  | SendEmail _ => true
  | _ => false
  end.

Definition is_error (ev : Event) : bool :=
  match ev with
  | ConsoleError _ _ => true
  | _ => false
  end.

(** An event of the per-business work: a query for appointments or a
    mail. *)
Definition is_business_work (ev : Event) : bool :=
  match ev with
  | SelectAppointments _ _ _ | SendEmail _ => true
  | _ => false
  end.

Definition dispatches (evs : list Event) : nat := length (List.filter is_dispatch evs).
Definition errors (evs : list Event) : nat := length (List.filter is_error evs).

(** What makes the whole run fail: an exception outside the loop over the
    businesses (the client cannot be created, the query rejects), or an
    error answer to the query for the businesses. *)
Definition run_failure (env : Env) : option JsError :=
  match env_createClient env with
  | Some e => Some e
  | None =>
      match env_businesses env with
      | Rejected e => Some e
      | Resolved _ (Some e) => Some e
      | Resolved _ None => None
      end
  end.

Definition success_body : Json :=
  [("success", JsonBool true);
   ("message", JsonString "Monthly reports sent successfully")].

Definition error_body (e : JsError) : Json := [("error", JsonString (message e))].

(** ** Sample inputs *)

Definition appointment (status : string) (final_price : jsval)
    (customer_id service : option string) : Appointment.t :=
  {| Appointment.id := "a";
     Appointment.status := status;
     Appointment.final_price := final_price;
     Appointment.service_id := None;
     Appointment.customer_id := customer_id;
     Appointment.services := Some (Service.mk service) |}.

(** [{completed, amount = 10}, {cancelled, amount = 999}] *)
Definition sample_revenue_records : list Appointment.t :=
  [appointment "completed" (JNum (JsNumber.of_Z 10)) (Some "c1") (Some "Haircut");
   appointment "cancelled" (JNum (JsNumber.of_Z 999)) (Some "c2") (Some "Haircut")].

(** A completed record whose amount is no number, next to one of 10. *)
Definition non_numeric_records : list Appointment.t :=
  [appointment "completed" (JStr "abc") (Some "c1") (Some "Haircut");
   appointment "completed" (JNum (JsNumber.of_Z 10)) (Some "c2") (Some "Haircut")].

(** One record whose customer reference is the empty string. *)
Definition empty_reference_records : list Appointment.t :=
  [appointment "completed" JNull (Some "") (Some "Haircut")].

(** Service counts A:3, B:5, C:5, D:1, with B met before C. *)
Definition booking (service : string) : Appointment.t :=
  appointment "completed" JNull None (Some service).

Definition ranking_records : list Appointment.t :=
  map booking ["A"; "B"; "C"; "D"; "C"; "B"; "A"; "C"; "B"; "C"; "B"; "C"; "B"; "A"].

(** Three records, one of them without a service name. *)
Definition unnamed_service_records : list Appointment.t :=
  [booking "A"; appointment "completed" JNull None None; booking "A"].

Definition sample_business : Business.t :=
  {| Business.id := "b1"; Business.name := "Salon";
     Business.email := Some "owner@salon.test";
     Business.owner_id := None; Business.currency := None |}.

Definition failing_business : Business.t :=
  {| Business.id := "b0"; Business.name := "Barber";
     Business.email := Some "owner@barber.test";
     Business.owner_id := None; Business.currency := Some "USD" |}.

Definition boom : JsError := {| message := "connection reset" |}.

(** 2025-03-15, noon UTC. *)
Definition mid_march_2025 : Z := JsDate.at_utc 2025 3 15 12 0.

(** 2025-04-15 and 2025-11-15, noon UTC. *)
Definition mid_april_2025 : Z := JsDate.at_utc 2025 4 15 12 0.
Definition mid_november_2025 : Z := JsDate.at_utc 2025 11 15 12 0.

(** Europe/London in 2025: Greenwich time, and one hour ahead of it from
    2025-03-30T01:00Z to 2025-10-26T01:00Z. A local time is read with the
    summer offset from 02:00 on 30 March up to 02:00 on 26 October (a local
    time that does not exist or exists twice is read with the offset before
    the change). *)
Definition london_2025 : JsDate.TimeZone :=
  {| JsDate.offset_at := fun t =>
       if ((JsDate.at_utc 2025 3 30 1 0 <=? t) && (t <? JsDate.at_utc 2025 10 26 1 0))%Z
       then JsDate.msPerHour else 0%Z;
     JsDate.offset_of_local := fun t =>
       if ((JsDate.at_utc 2025 3 30 2 0 <=? t) && (t <? JsDate.at_utc 2025 10 26 2 0))%Z
       then JsDate.msPerHour else 0%Z |}.

(** Two businesses: the query for the first one answers with an error, the
    second one has two appointments; mail goes through. *)
Definition sample_env : Env :=
  {| env_tza := 0;
     env_now := mid_march_2025;
     env_createClient := None;
     env_businesses := Resolved (Some [failing_business; sample_business]) None;
     env_appointments := fun _ id _ _ =>
       if String.eqb id "b0" then Resolved None (Some boom)
       else Resolved (Some sample_revenue_records) None;
     env_send := fun _ _ => Resolved None None |}.

(** The same, but the list of businesses cannot be read. *)
Definition broken_env : Env :=
  {| env_tza := 0;
     env_now := mid_march_2025;
     env_createClient := None;
     env_businesses := Resolved None (Some boom);
     env_appointments := env_appointments sample_env;
     env_send := env_send sample_env |}.

Definition post : Request := {| method := "POST" |}.

(** A report with 3 of 4 appointments completed, and one without any. *)
Definition sample_report : MonthlyReportData :=
  {| businessId := "b1"; businessName := "Salon"; ownerEmail := "owner@salon.test";
     totalAppointments := 4; completedAppointments := 3; cancelledAppointments := 1;
     totalRevenue := JsNumber.of_Z 30; newCustomers := 2; topServices := [];
     currency := "NGN" |}.

(** 23 of 80 appointments completed: exactly 28.75 per cent. *)
Definition tie_report : MonthlyReportData :=
  {| businessId := "b1"; businessName := "Salon"; ownerEmail := "owner@salon.test";
     totalAppointments := 80; completedAppointments := 23; cancelledAppointments := 0;
     totalRevenue := JsNumber.zero; newCustomers := 0; topServices := [];
     currency := "NGN" |}.

Definition empty_report : MonthlyReportData :=
  {| businessId := "b1"; businessName := "Salon"; ownerEmail := "owner@salon.test";
     totalAppointments := 0; completedAppointments := 0; cancelledAppointments := 0;
     totalRevenue := JsNumber.zero; newCustomers := 0; topServices := [];
     currency := "NGN" |}.

(** ** Vocabulary of the further properties *)

(** A string of white space only. *)
Fixpoint blank (s : string) : bool :=
  match s with
  | EmptyString => true
  | String c s' => JsNumber.is_white c && blank s'
  end.

(** What may follow the digits of an integer literal without changing its
    value: nothing, or a character that is no digit, point or exponent
    mark. *)
Definition ends_number (s : string) : bool :=
  match s with
  | EmptyString => true
  | String c _ =>
      match JsNumber.digit_of c with
      | Some _ => false
      | None => negb (Ascii.eqb c "." || Ascii.eqb c "e" || Ascii.eqb c "E")
      end
  end.

Definition is_query (ev : Event) : bool :=
  match ev with
  | SelectAppointments _ _ _ => true
  | _ => false
  end.

(** * Properties *)

(** ** Reading back what was printed *)

Section ParsePrinted.

Import JsString.

Lemma numeral_nil : numeral "" [].
Proof. reflexivity. Qed.

Lemma numeral_cons c s d ds :
  digit_of c = Some d -> numeral s ds -> numeral (String c s) (d :: ds).
Proof. unfold numeral. intros Hc Hs. simpl. now rewrite Hc, Hs. Qed.

Lemma numeral_uint d : numeral (NilEmpty.string_of_uint d) (uint_digits d).
Proof.
  induction d; simpl; try apply numeral_nil; now apply numeral_cons.
Qed.

Lemma numeral_length s ds : numeral s ds -> length ds = String.length s.
Proof.
  unfold numeral. revert ds. induction s as [|c s IH]; simpl; intros ds H.
  - now inversion H.
  - destruct (digit_of c); [|discriminate].
    destruct (span_digits s) as [ds' r] eqn:E. inversion H; subst.
    simpl. f_equal. now apply IH.
Qed.

Lemma numeral_app s1 ds1 s2 ds2 :
  numeral s1 ds1 -> numeral s2 ds2 -> numeral (s1 ++ s2) (ds1 ++ ds2)%list.
Proof.
  unfold numeral. revert ds1. induction s1 as [|c s1 IH]; simpl; intros ds1 H1 H2.
  - now inversion H1.
  - destruct (digit_of c); [|discriminate].
    destruct (span_digits s1) as [ds' r] eqn:E. inversion H1; subst.
    now rewrite (IH ds' eq_refl H2).
Qed.

Lemma numeral_take n s ds : numeral s ds -> numeral (JsString.take n s) (List.firstn n ds).
Proof.
  unfold numeral. revert s ds. induction n as [|n IH]; intros [|c s] ds H; simpl in *;
    try (inversion H; reflexivity).
  destruct (digit_of c); [|discriminate].
  destruct (span_digits s) as [ds' r] eqn:E. inversion H; subst.
  simpl. now rewrite (IH s ds' E).
Qed.

Lemma numeral_drop n s ds : numeral s ds -> numeral (JsString.drop n s) (List.skipn n ds).
Proof.
  unfold numeral. revert s ds. induction n as [|n IH]; intros [|c s] ds H; simpl in *;
    try (inversion H; reflexivity); try assumption.
  destruct (digit_of c); [|discriminate].
  destruct (span_digits s) as [ds' r] eqn:E. inversion H; subst.
  simpl. now apply IH.
Qed.

Lemma numeral_repeat0 n : numeral (repeat0 n) (List.repeat 0%Z n).
Proof. induction n; simpl; [apply numeral_nil | now apply numeral_cons]. Qed.

(** A numeral followed by a character that is no digit. *)
Lemma span_digits_stop s ds c r :
  numeral s ds -> digit_of c = None ->
  span_digits (s ++ String c r) = (ds, String c r).
Proof.
  unfold numeral. revert ds. induction s as [|a s IH]; simpl; intros ds H Hc.
  - inversion H. now rewrite Hc.
  - destruct (digit_of a); [|discriminate].
    destruct (span_digits s) as [ds' r'] eqn:E. inversion H; subst.
    now rewrite (IH ds' eq_refl Hc).
Qed.

Lemma digits_value_acc ds acc :
  fold_left (fun a d => 10 * a + d)%Z ds acc
  = (acc * 10 ^ Z.of_nat (length ds) + digits_value ds)%Z.
Proof.
  unfold digits_value. revert acc. induction ds as [|d ds IH]; intros acc.
  - simpl. lia.
  - cbn [fold_left length]. rewrite IH, (IH (10 * 0 + d)%Z).
    rewrite Nat2Z.inj_succ, Z.pow_succ_r by lia. lia.
Qed.

Lemma digits_value_app ds1 ds2 :
  digits_value (ds1 ++ ds2)
  = (digits_value ds1 * 10 ^ Z.of_nat (length ds2) + digits_value ds2)%Z.
Proof.
  unfold digits_value at 1. rewrite fold_left_app, digits_value_acc. reflexivity.
Qed.

Lemma digits_value_repeat0 n : digits_value (List.repeat 0%Z n) = 0%Z.
Proof.
  induction n as [|n IH]; [reflexivity|].
  change (List.repeat 0%Z (S n)) with ([0%Z] ++ List.repeat 0%Z n)%list.
  rewrite digits_value_app, IH. reflexivity.
Qed.

Lemma uint_digits_acc d acc :
  fold_left (fun a x => 10 * a + x)%Z (uint_digits d) (Z.pos acc)
  = Z.pos (Pos.of_uint_acc d acc).
Proof.
  revert acc. induction d; intros acc; simpl; try reflexivity;
    rewrite <- IHd; f_equal; lia.
Qed.

Lemma digits_value_uint d : digits_value (uint_digits d) = Z.of_N (Pos.of_uint d).
Proof.
  unfold digits_value.
  induction d; simpl; try reflexivity; try assumption;
    match goal with
    | |- fold_left _ _ ?z = _ =>
        change z with (Z.pos 1) || change z with (Z.pos 2) || change z with (Z.pos 3)
        || change z with (Z.pos 4) || change z with (Z.pos 5) || change z with (Z.pos 6)
        || change z with (Z.pos 7) || change z with (Z.pos 8) || change z with (Z.pos 9)
    end; now rewrite uint_digits_acc.
Qed.

(** The digits printed for [n] are a numeral of value [n]. *)
Lemma of_N_numeral n :
  exists ds, numeral (of_N n) ds /\ digits_value ds = Z.of_N n /\ ds <> [].
Proof.
  unfold of_N, NilZero.string_of_uint.
  destruct (N.to_uint n) eqn:E;
    try (eexists; split; [apply numeral_uint|]; split;
         [rewrite digits_value_uint, <- E; change Pos.of_uint with N.of_uint;
          now rewrite DecimalN.Unsigned.of_to | discriminate]).
  exists [0%Z]. split; [reflexivity|]. split; [|discriminate].
  assert (H : N.of_uint (N.to_uint n) = N.of_uint Decimal.Nil) by now rewrite E.
  rewrite DecimalN.Unsigned.of_to in H. now subst.
Qed.

End ParsePrinted.

Section ParsePositional.

Import JsString.

Lemma digit_first c d :
  digit_of c = Some d ->
  is_white c = false /\ c <> "-"%char /\ c <> "+"%char /\ c <> "I"%char /\ c <> "."%char.
Proof.
  destruct c as [[] [] [] [] [] [] [] []]; cbv; intros H;
    try discriminate H; repeat split; discriminate.
Qed.

(** No white space starts with a digit. *)
Lemma skip_white_digit c d s :
  digit_of c = Some d -> skip_white (String c s) = String c s.
Proof.
  intros Hd.
  assert (Hn : (48 <= nat_of_ascii c <= 57)%nat).
  { unfold digit_of in Hd.
    destruct (Nat.leb_spec 48 (nat_of_ascii c)), (Nat.leb_spec (nat_of_ascii c) 57);
      simpl in Hd; try discriminate; lia. }
  destruct (digit_first c d Hd) as (Hw & _).
  cbn [skip_white]. rewrite Hw.
  destruct s as [|b s]; [reflexivity|].
  assert (H2 : is_white2 c b = false).
  { unfold is_white2. destruct (Nat.eqb_spec (nat_of_ascii c) 194); [lia | reflexivity]. }
  rewrite H2. destruct s as [|e s]; [reflexivity|].
  assert (H3 : is_white3 c b e = false).
  { unfold is_white3.
    destruct (Nat.eqb_spec (nat_of_ascii c) 225); [lia|].
    destruct (Nat.eqb_spec (nat_of_ascii c) 226); [lia|].
    destruct (Nat.eqb_spec (nat_of_ascii c) 227); [lia|].
    destruct (Nat.eqb_spec (nat_of_ascii c) 239); [lia|]. reflexivity. }
  now rewrite H3.
Qed.

Lemma numeral_head s ds :
  numeral s ds -> ds <> [] -> exists c d s', s = String c s' /\ digit_of c = Some d.
Proof.
  unfold numeral. destruct s as [|c s]; simpl; intros H Hne.
  - inversion H. congruence.
  - destruct (digit_of c) as [d|] eqn:E; [eauto|].
    inversion H.
Qed.

(** A string that starts with a digit is not [Infinity]. *)
Lemma parse_unsigned_digit_first neg c d s :
  digit_of c = Some d ->
  parse_unsigned neg (String c s)
  = (let '(ip, s2) := span_digits (String c s) in
     let '(fp, s3) :=
       match s2 with
       | String "." s2' => span_digits s2'
       | _ => ([], s2)
       end in
     match (ip ++ fp)%list with
     | [] => NaN
     | ds => of_decimal neg (digits_value ds)
                        (exponent_part s3 - Z.of_nat (List.length fp))
     end).
Proof.
  intros Hd. destruct (digit_first c d Hd) as (_ & _ & _ & HI & _).
  unfold parse_unsigned.
  assert (Hi : strip_prefix "Infinity" (String c s) = None).
  { cbn [strip_prefix]. destruct (Ascii.eqb "I" c) eqn:E; [|reflexivity].
    apply Ascii.eqb_eq in E. congruence. }
  rewrite Hi. reflexivity.
Qed.

(** Nor does it carry white space or a sign in front. *)
Lemma parseFloat_digit_first c d s :
  digit_of c = Some d -> parseFloat (String c s) = parse_unsigned false (String c s).
Proof.
  intros Hd. destruct (digit_first c d Hd) as (Hw & Hm & Hp & _).
  unfold parseFloat. rewrite (skip_white_digit c d s Hd).
  assert (Hs : take_sign (String c s) = (false, String c s)).
  { unfold take_sign.
    destruct c as [[] [] [] [] [] [] [] []]; try reflexivity; congruence. }
  now rewrite Hs.
Qed.

Lemma pad0_numeral w s ds :
  numeral s ds ->
  numeral (pad0 w s) (List.repeat 0%Z (w - String.length s) ++ ds)%list.
Proof. intros H. unfold pad0. apply numeral_app; [apply numeral_repeat0 | exact H]. Qed.

Lemma string_app_nil_r s : s ++ "" = s.
Proof.
  induction s as [|c s IH]; [reflexivity|].
  change (String c s ++ "") with (String c (s ++ "")). now rewrite IH.
Qed.

Lemma string_app_assoc s1 s2 s3 : (s1 ++ s2) ++ s3 = s1 ++ (s2 ++ s3).
Proof.
  induction s1 as [|c s1 IH]; [reflexivity|].
  change (String c ((s1 ++ s2) ++ s3) = String c (s1 ++ (s2 ++ s3))). now rewrite IH.
Qed.

Lemma string_length_app s1 s2 :
  String.length (s1 ++ s2) = (String.length s1 + String.length s2)%nat.
Proof.
  induction s1 as [|c s1 IH]; [reflexivity|].
  change (S (String.length (s1 ++ s2)) = S (String.length s1 + String.length s2)).
  now rewrite IH.
Qed.

Lemma length_pad0 w s : (w <= String.length (pad0 w s))%nat.
Proof.
  unfold pad0. rewrite string_length_app.
  assert (H : String.length (repeat0 (w - String.length s)) = (w - String.length s)%nat).
  { induction (w - String.length s)%nat; simpl; congruence. }
  rewrite H. lia.
Qed.

Lemma positional_head k n :
  exists c d s', positional k n = String c s' /\ digit_of c = Some d.
Proof.
  destruct (of_N_numeral n) as (ds0 & Hnum & _ & _).
  pose proof (pad0_numeral (S k) _ _ Hnum) as Hpad.
  pose proof (length_pad0 (S k) (of_N n)) as Hlen.
  pose proof (numeral_length _ _ Hpad) as Hl.
  unfold positional.
  set (s := pad0 (S k) (of_N n)) in *.
  set (ds := (List.repeat 0%Z (S k - String.length (of_N n)) ++ ds0)%list) in *.
  destruct k as [|k].
  - apply (numeral_head s ds Hpad). intros E. rewrite E in Hl. simpl in Hl. lia.
  - set (i := (String.length s - S k)%nat).
    pose proof (numeral_take i s ds Hpad) as Ht.
    assert (Htne : List.firstn i ds <> []).
    { intros E. apply (f_equal (@length Z)) in E.
      rewrite length_firstn in E. simpl in E. unfold i in E. lia. }
    destruct (numeral_head _ _ Ht Htne) as (c & d & s' & Es & Hd).
    exists c, d, (s' ++ "." ++ JsString.drop i s). now rewrite Es.
Qed.

Lemma span_digits_stops s ds r :
  numeral s ds -> stops r -> span_digits (s ++ r) = (ds, r).
Proof.
  intros Hs Hr. destruct r as [|c r].
  - rewrite string_app_nil_r. exact Hs.
  - apply span_digits_stop; [exact Hs | apply Hr].
Qed.

(** Reading back positional notation, and what follows it, gives the
    decimal it denotes, scaled by the exponent that follows. *)
Lemma parse_unsigned_positional neg k n r :
  stops r ->
  parse_unsigned neg (positional k n ++ r)
  = of_decimal neg (Z.of_N n) (exponent_part r - Z.of_nat k).
Proof.
  intros Hr.
  destruct (positional_head k n) as (c & d & s' & Epos & Hd).
  rewrite Epos.
  change (String c s' ++ r) with (String c (s' ++ r)).
  rewrite (parse_unsigned_digit_first neg c d (s' ++ r) Hd).
  change (String c (s' ++ r)) with (String c s' ++ r).
  rewrite <- Epos. clear Epos Hd.
  destruct (of_N_numeral n) as (ds0 & Hnum & Hval & Hne).
  pose proof (pad0_numeral (S k) _ _ Hnum) as Hpad.
  pose proof (length_pad0 (S k) (of_N n)) as Hlen.
  unfold positional.
  set (s := pad0 (S k) (of_N n)) in *.
  set (ds := (List.repeat 0%Z (S k - String.length (of_N n)) ++ ds0)%list) in *.
  assert (Hv : digits_value ds = Z.of_N n).
  { unfold ds. rewrite digits_value_app, digits_value_repeat0, Hval. lia. }
  assert (Hl : length ds = String.length s) by now apply numeral_length.
  destruct k as [|k].
  - (* an integer *)
    rewrite (span_digits_stops s ds r Hpad Hr).
    assert (Hr' : match r with
                  | String "." s2' => span_digits s2'
                  | _ => ([], r)
                  end = ([], r)).
    { destruct r as [|c0 r0]; [reflexivity|]. destruct Hr as [_ Hc].
      destruct c0 as [[] [] [] [] [] [] [] []]; try reflexivity. congruence. }
    rewrite Hr', app_nil_r.
    destruct ds as [|d0 ds']; [simpl in Hl; lia|].
    cbn [List.length Z.of_nat]. now rewrite Hv.
  - (* digits, a point, [S k] digits *)
    set (i := (String.length s - S k)%nat).
    pose proof (numeral_take i s ds Hpad) as Ht.
    pose proof (numeral_drop i s ds Hpad) as Hdr.
    rewrite !string_app_assoc.
    change ("." ++ (JsString.drop i s ++ r))
      with (String "."%char (JsString.drop i s ++ r)).
    rewrite (span_digits_stop _ _ "."%char _ Ht eq_refl).
    rewrite (span_digits_stops _ _ r Hdr Hr), firstn_skipn.
    assert (Hsk : length (List.skipn i ds) = S k).
    { rewrite length_skipn. unfold i. lia. }
    destruct ds as [|d0 ds']; [simpl in Hl; lia|].
    now rewrite Hsk, Hv.
Qed.

Lemma parseFloat_positional k n r :
  stops r ->
  parseFloat (positional k n ++ r)
  = of_decimal false (Z.of_N n) (exponent_part r - Z.of_nat k).
Proof.
  intros Hr.
  destruct (positional_head k n) as (c & d & s' & Epos & Hd).
  rewrite Epos.
  change (String c s' ++ r) with (String c (s' ++ r)).
  rewrite (parseFloat_digit_first c d (s' ++ r) Hd).
  change (String c (s' ++ r)) with (String c s' ++ r).
  rewrite <- Epos.
  now apply parse_unsigned_positional.
Qed.

Lemma parseFloat_minus_positional k n r :
  stops r ->
  parseFloat ("-" ++ positional k n ++ r)
  = of_decimal true (Z.of_N n) (exponent_part r - Z.of_nat k).
Proof.
  intros Hr.
  destruct (positional_head k n) as (c & d & s' & Epos & Hd).
  unfold parseFloat. rewrite Epos.
  change ("-" ++ String c s' ++ r) with (String "-" (String c (s' ++ r))).
  assert (Hs : skip_white (String "-" (String c (s' ++ r)))
               = String "-" (String c (s' ++ r))).
  { destruct (s' ++ r) as [|b s'']; reflexivity. }
  rewrite Hs. cbn [take_sign].
  change (String c (s' ++ r)) with (String c s' ++ r). rewrite <- Epos.
  now apply parse_unsigned_positional.
Qed.

End ParsePositional.
(** ** Rounding to binary64 *)

Section PowersOfTwo.

Local Open Scope Z_scope.

Lemma pow2_pos k : 0 < pow2 k.
Proof. unfold pow2. apply Z.pow_pos_nonneg; lia. Qed.

Lemma pow10_pos' k : 0 < pow10 k.
Proof. unfold pow10. apply Z.pow_pos_nonneg; lia. Qed.

Lemma pow2_nonneg k : 0 <= k -> pow2 k = 2 ^ k /\ pow2 (- k) = 1.
Proof.
  intros H. unfold pow2. split.
  - now rewrite Z.max_r by lia.
  - rewrite Z.max_l by lia. reflexivity.
Qed.

Lemma pow2_neg k : k <= 0 -> pow2 k = 1 /\ pow2 (- k) = 2 ^ (- k).
Proof.
  intros H. unfold pow2. split.
  - rewrite Z.max_l by lia. reflexivity.
  - now rewrite Z.max_r by lia.
Qed.

Lemma two_to_pos k : (0 < two_to k)%Q.
Proof. unfold two_to. apply Qpower_0_lt. reflexivity. Qed.

Lemma two_to_add a b : (two_to (a + b) == two_to a * two_to b)%Q.
Proof. unfold two_to. apply Qpower_plus. discriminate. Qed.

Lemma two_to_succ a : (two_to (a + 1) == 2 * two_to a)%Q.
Proof. rewrite two_to_add. unfold two_to at 2. simpl. ring. Qed.

Lemma two_to_const k : 0 <= k -> (two_to k == inject_Z (2 ^ k))%Q.
Proof. intros H. unfold two_to. now rewrite Zpower_Qpower. Qed.

Lemma two_to_opp k : (two_to (- k) == / two_to k)%Q.
Proof. unfold two_to. apply Qpower_opp. Qed.

Lemma two_to_le a b : a <= b -> (two_to a <= two_to b)%Q.
Proof.
  intros H. replace b with (a + (b - a)) by lia. rewrite two_to_add.
  rewrite <- (Qmult_1_r (two_to a)) at 1.
  apply Qmult_le_l; [apply two_to_pos|].
  rewrite two_to_const by lia.
  pose proof (Z.pow_pos_nonneg 2 (b - a) ltac:(lia) ltac:(lia)).
  unfold Qle. simpl. lia.
Qed.

Lemma two_to_lt a b : a < b -> (two_to a < two_to b)%Q.
Proof.
  intros H. apply Qlt_le_trans with (two_to (a + 1)); [|apply two_to_le; lia].
  rewrite two_to_succ. pose proof (two_to_pos a). lra.
Qed.

Lemma two_to_lt_inv a b : (two_to a < two_to b)%Q -> a < b.
Proof.
  intros H. destruct (Z.lt_ge_cases a b) as [|Hge]; [assumption|].
  apply two_to_le in Hge. lra.
Qed.

(** [pow2 k / pow2 (- k)] is [2^k] for every sign of [k]. *)
Lemma inject_pow2 k : (inject_Z (pow2 k) == two_to k * inject_Z (pow2 (- k)))%Q.
Proof.
  destruct (Z.le_ge_cases 0 k) as [H|H].
  - destruct (pow2_nonneg k H) as [-> ->]. rewrite two_to_const by exact H. ring.
  - destruct (pow2_neg k H) as [-> ->].
    replace k with (- (- k)) at 1 by lia.
    rewrite two_to_opp, two_to_const by lia.
    assert (Hp : 0 < 2 ^ (- k)) by (apply Z.pow_pos_nonneg; lia).
    field. intros E. unfold Qeq in E. simpl in E. lia.
Qed.

Lemma inject_Z_minus x y : inject_Z (x - y) = (inject_Z x - inject_Z y)%Q.
Proof. unfold Z.sub. now rewrite inject_Z_plus, inject_Z_opp. Qed.

Lemma inject_pos z : 0 < z -> (0 < inject_Z z)%Q.
Proof. intros H. rewrite <- (Zlt_Qlt 0). exact H. Qed.

End PowersOfTwo.

Section Rounding.

Local Open Scope Z_scope.

(** Comparing [x / y] with [2^k] is comparing integers. *)
Lemma cross_lt x y k :
  (x * pow2 (- k) <? y * pow2 k) = true <-> (inject_Z x < two_to k * inject_Z y)%Q.
Proof.
  rewrite Z.ltb_lt, Zlt_Qlt, !inject_Z_mult, (inject_pow2 k).
  pose proof (inject_pos _ (pow2_pos (- k))) as Hp.
  setoid_replace (inject_Z y * (two_to k * inject_Z (pow2 (- k))))%Q
    with ((two_to k * inject_Z y) * inject_Z (pow2 (- k)))%Q using relation Qeq by ring.
  apply Qmult_lt_r. exact Hp.
Qed.

Lemma cross_ge x y k :
  (x * pow2 (- k) <? y * pow2 k) = false <-> (two_to k * inject_Z y <= inject_Z x)%Q.
Proof.
  rewrite Z.ltb_ge, Zle_Qle, !inject_Z_mult, (inject_pow2 k).
  pose proof (inject_pos _ (pow2_pos (- k))) as Hp.
  setoid_replace (inject_Z y * (two_to k * inject_Z (pow2 (- k))))%Q
    with ((two_to k * inject_Z y) * inject_Z (pow2 (- k)))%Q using relation Qeq by ring.
  apply Qmult_le_r. exact Hp.
Qed.

Lemma log2_bounds n :
  0 < n -> (two_to (Z.log2 n) <= inject_Z n < two_to (Z.log2 n + 1))%Q.
Proof.
  intros Hn. pose proof (Z.log2_spec n Hn) as [H1 H2].
  pose proof (Z.log2_nonneg n) as H0.
  rewrite !two_to_const by lia. rewrite <- Zle_Qle, <- Zlt_Qlt.
  replace (Z.log2 n + 1) with (Z.succ (Z.log2 n)) by lia. split; assumption.
Qed.

(** [ilog2 n d] is the binary exponent of [n / d]. *)
Lemma ilog2_spec n d :
  0 < n -> 0 < d ->
  (two_to (ilog2 n d) * inject_Z d <= inject_Z n
   /\ inject_Z n < two_to (ilog2 n d + 1) * inject_Z d)%Q.
Proof.
  intros Hn Hd. unfold ilog2.
  pose proof (log2_bounds n Hn) as [Hn1 Hn2].
  pose proof (log2_bounds d Hd) as [Hd1 Hd2].
  set (a := Z.log2 n) in *. set (b := Z.log2 d) in *.
  pose proof (inject_pos d Hd) as Hdq.
  destruct (n * pow2 (- (a - b)) <? d * pow2 (a - b)) eqn:E.
  - apply cross_lt in E. split.
    + apply Qle_trans with (two_to (a - b - 1) * two_to (b + 1))%Q.
      * apply Qmult_le_l; [apply two_to_pos | lra].
      * rewrite <- two_to_add. replace (a - b - 1 + (b + 1)) with a by lia. exact Hn1.
    + replace (a - b - 1 + 1) with (a - b) by lia. exact E.
  - apply cross_ge in E. split; [exact E|].
    apply Qlt_le_trans with (two_to (a - b + 1) * two_to b)%Q.
    + rewrite <- two_to_add. replace (a - b + 1 + b) with (a + 1) by lia. exact Hn2.
    + apply Qmult_le_l; [apply two_to_pos | exact Hd1].
Qed.

(** The binary exponent is the only one that fits. *)
Lemma ilog2_unique n d l :
  0 < n -> 0 < d ->
  (two_to l * inject_Z d <= inject_Z n)%Q ->
  (inject_Z n < two_to (l + 1) * inject_Z d)%Q ->
  ilog2 n d = l.
Proof.
  intros Hn Hd H1 H2.
  destruct (ilog2_spec n d Hn Hd) as [G1 G2].
  pose proof (inject_pos d Hd) as Hdq.
  assert (A : ilog2 n d < l + 1).
  { apply two_to_lt_inv. apply (Qmult_lt_r _ _ (inject_Z d) Hdq). lra. }
  assert (B : l < ilog2 n d + 1).
  { apply two_to_lt_inv. apply (Qmult_lt_r _ _ (inject_Z d) Hdq). lra. }
  lia.
Qed.

Lemma nearest_even_spec n d :
  0 <= n -> 0 < d ->
  0 <= nearest_even n d /\ - d <= 2 * (n - nearest_even n d * d) <= d.
Proof.
  intros Hn Hd. unfold nearest_even.
  pose proof (Z.div_mod n d ltac:(lia)) as Hdm.
  pose proof (Z.mod_pos_bound n d Hd) as Hm.
  pose proof (Z.div_pos n d Hn Hd) as Hq.
  destruct (Z.compare_spec (2 * (n mod d)) d) as [E|E|E].
  - destruct (Z.even (n / d)); split; nia.
  - split; nia.
  - split; nia.
Qed.

Lemma nearest_even_exact m d : 0 < d -> nearest_even (m * d) d = m.
Proof.
  intros Hd. unfold nearest_even.
  rewrite Z.div_mul, Z.mod_mul by lia.
  destruct (Z.compare_spec (2 * 0) d); lia.
Qed.

(** The quotient that [round] hands to [nearest_even], as a rational. *)
Lemma scaled_quotient n d e :
  0 < d ->
  (inject_Z (n * pow2 (- e))
   == inject_Z n / inject_Z d * two_to (- e) * inject_Z (d * pow2 e))%Q.
Proof.
  intros Hd. rewrite !inject_Z_mult.
  rewrite (inject_pow2 (- e)). replace (- - e) with e by lia.
  pose proof (inject_pos d Hd). field. lra.
Qed.

Lemma half_unit_scaled (x m T : Q) :
  (0 < T -> -1 <= 2 * (x - m) <= 1 -> x * T - (1 # 2) * T <= m * T <= x * T + (1 # 2) * T)%Q.
Proof.
  intros HT [H1 H2].
  assert (A : ((2 * (x - m)) * T <= 1 * T)%Q) by (apply Qmult_le_r; assumption).
  assert (B : ((-1) * T <= (2 * (x - m)) * T)%Q) by (apply Qmult_le_r; assumption).
  split; lra.
Qed.

Lemma integer_between (m : Z) (x : Q) (a b : Z) :
  (-1 <= 2 * (x - inject_Z m) <= 1)%Q ->
  (inject_Z a <= x)%Q -> (x < inject_Z b)%Q -> a <= m <= b.
Proof.
  intros [H1 H2] Ha Hb.
  assert (A : (inject_Z (2 * a - 1) <= inject_Z (2 * m))%Q).
  { rewrite inject_Z_minus, !inject_Z_mult.
    change (inject_Z 2) with 2%Q. change (inject_Z 1) with 1%Q. lra. }
  assert (B : (inject_Z (2 * m) < inject_Z (2 * b + 1))%Q).
  { rewrite inject_Z_plus, !inject_Z_mult.
    change (inject_Z 2) with 2%Q. change (inject_Z 1) with 1%Q. lra. }
  rewrite <- Zle_Qle in A. rewrite <- Zlt_Qlt in B. lia.
Qed.

(** What [round] returns: the sign it was given, with an infinity only
    for [2^1023] and more, and otherwise a number of the format at most
    half a unit in the last place away from [n / d]. *)
Lemma round_spec neg n d :
  0 < n -> 0 < d ->
  let q := (inject_Z n / inject_Z d)%Q in
  (round neg n d = Infinity neg /\ (two_to 1023 <= q)%Q)
  \/ (exists m e,
        round neg n d = Finite neg m e
        /\ canonical (Finite neg m e)
        /\ (q - (1 # 2) * two_to e <= inject_Z m * two_to e <= q + (1 # 2) * two_to e)%Q
        /\ ((two_to (-1022) <= q)%Q -> 2 ^ 52 <= m)).
Proof.
  intros Hn Hd q.
  pose proof (inject_pos d Hd) as Hdq.
  destruct (ilog2_spec n d Hn Hd) as [L1 L2].
  set (l := ilog2 n d) in *.
  assert (Q1 : (two_to l <= q)%Q) by (apply Qle_shift_div_l; assumption).
  assert (Q2 : (q < two_to (l + 1))%Q) by (apply Qlt_shift_div_r; assumption).
  set (e0 := Z.max (l - 52) emin).
  set (N := n * pow2 (- e0)). set (D := d * pow2 e0).
  assert (HD : 0 < D) by (apply Z.mul_pos_pos; [exact Hd | apply pow2_pos]).
  assert (HN : 0 <= N).
  { pose proof (pow2_pos (- e0)). unfold N. nia. }
  destruct (nearest_even_spec N D HN HD) as [Hm0 Herr].
  set (m0 := nearest_even N D) in *.
  set (X := (q * two_to (- e0))%Q).
  assert (HX : (-1 <= 2 * (X - inject_Z m0) <= 1)%Q).
  { pose proof (scaled_quotient n d e0 Hd) as Hs. fold N D q X in Hs.
    pose proof (inject_pos D HD) as HDq.
    destruct Herr as [E1 E2].
    rewrite Zle_Qle in E1, E2.
    rewrite inject_Z_mult, inject_Z_minus, inject_Z_mult, Hs in E2.
    rewrite inject_Z_opp, inject_Z_mult, inject_Z_minus, inject_Z_mult, Hs in E1.
    change (inject_Z 2) with 2%Q in E1, E2.
    split.
    - apply (Qmult_le_r _ _ (inject_Z D) HDq). lra.
    - apply (Qmult_le_r _ _ (inject_Z D) HDq). lra. }
  assert (HT : (0 < two_to e0)%Q) by apply two_to_pos.
  assert (Hq : (X * two_to e0 == q)%Q).
  { unfold X. rewrite <- Qmult_assoc, <- two_to_add.
    replace (- e0 + e0) with 0 by lia. unfold two_to. simpl. ring. }
  pose proof (half_unit_scaled X (inject_Z m0) (two_to e0) HT HX) as Hv.
  rewrite Hq in Hv.
  assert (Hround :
    round neg n d
    = let '(m, e) := if m0 =? 2 ^ 53 then (2 ^ 52, e0 + 1) else (m0, e0) in
      if emax <? e then Infinity neg else Finite neg m e).
  { unfold round. destruct (Z.eqb_spec n 0) as [E|E]; [lia | reflexivity]. }
  rewrite Hround. clear Hround.
  (* the range of the significand *)
  assert (Hrange : (emin <= l - 52 /\ e0 = l - 52 /\ 2 ^ 52 <= m0 <= 2 ^ 53)
                   \/ (l - 52 < emin /\ e0 = emin /\ 0 <= m0 <= 2 ^ 52)).
  { destruct (Z.max_spec (l - 52) emin) as [[Hlt E]|[Hge E]]; fold e0 in E.
    - right. split; [lia|]. split; [exact E|]. split; [exact Hm0|].
      unfold X in HX. rewrite E in HX.
      assert (Hup : (q * two_to (- emin) < inject_Z (2 ^ 52))%Q).
      { rewrite <- two_to_const by lia.
        apply Qlt_le_trans with (two_to (l + 1) * two_to (- emin))%Q.
        - apply Qmult_lt_r; [apply two_to_pos | exact Q2].
        - rewrite <- two_to_add. apply two_to_le. unfold emin in *. lia. }
      assert (Hlow : (inject_Z 0 <= q * two_to (- emin))%Q).
      { change (inject_Z 0) with 0%Q. apply Qmult_le_0_compat.
        - pose proof (two_to_pos l). lra.
        - pose proof (two_to_pos (- emin)). lra. }
      pose proof (integer_between m0 _ 0 (2 ^ 52) HX Hlow Hup). lia.
    - left. split; [lia|]. split; [exact E|].
      unfold X in HX. rewrite E in HX.
      assert (Hup : (q * two_to (- (l - 52)) < inject_Z (2 ^ 53))%Q).
      { rewrite <- two_to_const by lia.
        apply Qlt_le_trans with (two_to (l + 1) * two_to (- (l - 52)))%Q.
        - apply Qmult_lt_r; [apply two_to_pos | exact Q2].
        - rewrite <- two_to_add. apply two_to_le. lia. }
      assert (Hlow : (inject_Z (2 ^ 52) <= q * two_to (- (l - 52)))%Q).
      { rewrite <- two_to_const by lia.
        apply Qle_trans with (two_to l * two_to (- (l - 52)))%Q.
        - rewrite <- two_to_add. apply two_to_le. lia.
        - apply Qmult_le_r; [apply two_to_pos | exact Q1]. }
      pose proof (integer_between m0 _ (2 ^ 52) (2 ^ 53) HX Hlow Hup). lia. }
  assert (Hnormal : (two_to (-1022) <= q)%Q -> emin <= l - 52).
  { intros Hq1022.
    assert (-1022 < l + 1) by (apply two_to_lt_inv; lra).
    unfold emin. lia. }
  destruct (Z.eqb_spec m0 (2 ^ 53)) as [Ecarry|Ecarry].
  - (* the significand was rounded up to the next power of two *)
    destruct Hrange as [(Hl & He0 & Hm)|(Hl & He0 & Hm)]; [|lia].
    destruct (Z.ltb_spec emax (e0 + 1)) as [Hover|Hfit].
    + left. split; [reflexivity|].
      apply Qle_trans with (two_to l); [apply two_to_le; unfold emax in *; lia | exact Q1].
    + right. exists (2 ^ 52), (e0 + 1). split; [reflexivity|].
      split; [unfold canonical, emin, emax in *; lia|]. split.
      * rewrite Ecarry in Hv.
        assert (E : (inject_Z (2 ^ 52) * two_to (e0 + 1)
                     == inject_Z (2 ^ 53) * two_to e0)%Q).
        { rewrite two_to_succ.
          change (inject_Z (2 ^ 53)) with (2 * inject_Z (2 ^ 52))%Q. ring. }
        rewrite E, two_to_succ. lra.
      * intros _. lia.
  - destruct (Z.ltb_spec emax e0) as [Hover|Hfit].
    + left. split; [reflexivity|].
      destruct Hrange as [(Hl & He0 & Hm)|(Hl & He0 & Hm)];
        [|unfold emin, emax in *; lia].
      apply Qle_trans with (two_to l); [apply two_to_le; unfold emax in *; lia | exact Q1].
    + right. exists m0, e0. split; [reflexivity|]. split; [|split].
      * unfold canonical.
        destruct Hrange as [(Hl & He0 & Hm)|(Hl & He0 & Hm)];
          unfold emin, emax in *; lia.
      * exact Hv.
      * intros Hq1022. specialize (Hnormal Hq1022).
        destruct Hrange as [(Hl & He0 & Hm)|(Hl & He0 & Hm)]; lia.
Qed.

End Rounding.

Section ExactValues.

Local Open Scope Z_scope.

(** A value of the format is rounded to itself. *)
Lemma round_exact neg n d m e :
  0 < n -> 0 < d -> 0 < m -> canonical (Finite neg m e) ->
  (inject_Z n == inject_Z m * two_to e * inject_Z d)%Q ->
  round neg n d = Finite neg m e.
Proof.
  intros Hn Hd Hm (Hm53 & He & Hsub) Hval.
  pose proof (inject_pos d Hd) as Hdq.
  pose proof (two_to_pos e) as HT.
  (* the binary exponent of the value *)
  assert (Hl : Z.max (ilog2 n d - 52) emin = e).
  { destruct (Z.lt_ge_cases m (2 ^ 52)) as [Hsmall|Hbig].
    - specialize (Hsub Hsmall).
      destruct (ilog2_spec n d Hn Hd) as [L1 _].
      assert (ilog2 n d < e + 52).
      { apply two_to_lt_inv. apply (Qmult_lt_r _ _ (inject_Z d) Hdq).
        eapply Qle_lt_trans; [exact L1|]. rewrite Hval.
        apply Qmult_lt_r; [exact Hdq|].
        rewrite two_to_add, (Qmult_comm (two_to e)).
        apply Qmult_lt_r; [exact HT|].
        rewrite two_to_const by lia. rewrite <- Zlt_Qlt. exact Hsmall. }
      lia.
    - assert (ilog2 n d = e + 52).
      { apply ilog2_unique; try assumption.
        - rewrite Hval. apply Qmult_le_r; [exact Hdq|].
          rewrite two_to_add, (Qmult_comm (two_to e)).
          apply Qmult_le_r; [exact HT|].
          rewrite two_to_const by lia. rewrite <- Zle_Qle. exact Hbig.
        - rewrite Hval. apply Qmult_lt_r; [exact Hdq|].
          replace (e + 52 + 1) with (e + 53) by lia.
          rewrite two_to_add, (Qmult_comm (two_to e)).
          apply Qmult_lt_r; [exact HT|].
          rewrite two_to_const by lia. rewrite <- Zlt_Qlt. lia. }
      lia. }
  (* the quotient is the significand *)
  assert (HN : n * pow2 (- e) = m * (d * pow2 e)).
  { apply inject_Z_injective. rewrite !inject_Z_mult, Hval, (inject_pow2 e). ring. }
  unfold round. destruct (Z.eqb_spec n 0) as [E|_]; [lia|].
  rewrite Hl. cbv zeta. rewrite HN, nearest_even_exact
    by (apply Z.mul_pos_pos; [exact Hd | apply pow2_pos]).
  destruct (Z.eqb_spec m (2 ^ 53)) as [E|_]; [lia|].
  destruct (Z.ltb_spec emax e) as [E|_]; [lia | reflexivity].
Qed.

(** The sign is carried through. *)
Lemma round_sign neg n d s m e :
  round false n d = Finite s m e -> round neg n d = Finite neg m e.
Proof.
  unfold round. destruct (n =? 0).
  - intros [= <- <- <-]. reflexivity.
  - cbv zeta.
    destruct (if nearest_even _ _ =? 2 ^ 53 then _ else _) as [m' e'].
    destruct (emax <? e'); [discriminate|]. intros [= <- <- <-]. reflexivity.
Qed.

(** The significand and exponent of a positive integer below [2^53]. *)
Lemma of_Z_exact z :
  0 < z < 2 ^ 53 ->
  of_Z z = Finite false (z * 2 ^ (52 - Z.log2 z)) (Z.log2 z - 52)
  /\ canonical (of_Z z)
  /\ (finite_value (of_Z z) == inject_Z z)%Q.
Proof.
  intros [Hz Hz53].
  pose proof (Z.log2_spec z Hz) as [L1 L2].
  pose proof (Z.log2_nonneg z) as L0.
  assert (Hlog : Z.log2 z < 53).
  { apply Z.log2_lt_pow2; [exact Hz | exact Hz53]. }
  set (a := Z.log2 z) in *.
  assert (Hp : 0 < 2 ^ (52 - a)) by (apply Z.pow_pos_nonneg; lia).
  assert (Hm1 : 2 ^ 52 <= z * 2 ^ (52 - a)).
  { replace (2 ^ 52) with (2 ^ a * 2 ^ (52 - a))
      by (rewrite <- Z.pow_add_r by lia; f_equal; lia).
    apply Z.mul_le_mono_nonneg_r; lia. }
  assert (Hm2 : z * 2 ^ (52 - a) < 2 ^ 53).
  { replace (2 ^ 53) with (2 ^ Z.succ a * 2 ^ (52 - a))
      by (rewrite <- Z.pow_add_r by lia; f_equal; lia).
    apply Z.mul_lt_mono_pos_r; lia. }
  assert (Hc : canonical (Finite false (z * 2 ^ (52 - a)) (a - 52))).
  { unfold canonical, emin, emax. lia. }
  assert (Hv : (inject_Z (z * 2 ^ (52 - a)) * two_to (a - 52) == inject_Z z)%Q).
  { rewrite inject_Z_mult, <- two_to_const by lia.
    rewrite <- Qmult_assoc, <- two_to_add.
    replace (52 - a + (a - 52)) with 0 by lia. unfold two_to. simpl. ring. }
  assert (E : of_Z z = Finite false (z * 2 ^ (52 - a)) (a - 52)).
  { unfold of_Z. destruct (Z.ltb_spec z 0) as [|_]; [lia|].
    rewrite Z.abs_eq by lia.
    apply round_exact; try lia; [exact Hc|].
    rewrite Hv. change (inject_Z 1) with 1%Q. ring. }
  split; [exact E|]. rewrite E. split; [exact Hc|].
  unfold finite_value, signed. exact Hv.
Qed.

(** The quotient of two positive numbers, as the rounding of a ratio of
    integers whose value is the quotient of their values. *)
Lemma div_ratio m1 e1 m2 e2 :
  0 < m2 ->
  (inject_Z (m1 * pow2 (e1 - e2)) / inject_Z (m2 * pow2 (e2 - e1))
   == (inject_Z m1 * two_to e1) / (inject_Z m2 * two_to e2))%Q.
Proof.
  intros Hm2.
  rewrite !inject_Z_mult, (inject_pow2 (e1 - e2)).
  replace (- (e1 - e2)) with (e2 - e1) by lia.
  replace (e1 - e2) with (e1 + - e2) by lia.
  rewrite two_to_add, two_to_opp.
  pose proof (inject_pos _ (pow2_pos (e2 - e1))).
  pose proof (inject_pos m2 Hm2). pose proof (two_to_pos e2).
  field. repeat split; lra.
Qed.

Lemma mul_ratio m1 e1 m2 e2 :
  (inject_Z (m1 * m2 * pow2 (e1 + e2)) / inject_Z (pow2 (- (e1 + e2)))
   == (inject_Z m1 * two_to e1) * (inject_Z m2 * two_to e2))%Q.
Proof.
  rewrite !inject_Z_mult, (inject_pow2 (e1 + e2)), two_to_add.
  pose proof (inject_pos _ (pow2_pos (- (e1 + e2)))).
  field. lra.
Qed.

End ExactValues.

Section ToFixed.

Local Open Scope Z_scope.

Lemma at_least_1e21_spec m e :
  at_least_1e21 m e = true <-> (inject_Z (10 ^ 21) <= inject_Z m * two_to e)%Q.
Proof.
  unfold at_least_1e21. rewrite Z.leb_le, Zle_Qle, !inject_Z_mult, (inject_pow2 e).
  pose proof (inject_pos _ (pow2_pos (- e))) as Hp.
  setoid_replace (inject_Z m * (two_to e * inject_Z (pow2 (- e))))%Q
    with ((inject_Z m * two_to e) * inject_Z (pow2 (- e)))%Q using relation Qeq by ring.
  apply Qmult_le_r. exact Hp.
Qed.

(** Below 10^21, [toFixed] prints the integer nearest to the value
    scaled by [10^f], the larger one of two that are as near. *)
Lemma toFixed_spec f s m e :
  0 <= m ->
  (inject_Z m * two_to e < inject_Z (10 ^ 21))%Q ->
  exists n,
    toFixed f (Finite s m e)
    = ((if s && (0 <? m)%Z then "-" else "") ++ positional f (Z.to_N n))%string
    /\ 0 <= n
    /\ (inject_Z n
        <= inject_Z (10 ^ Z.of_nat f) * (inject_Z m * two_to e) + (1 # 2)
        < inject_Z n + 1)%Q.
Proof.
  intros Hm Hsmall.
  assert (Hlt : at_least_1e21 m e = false).
  { destruct (at_least_1e21 m e) eqn:E; [|reflexivity].
    apply at_least_1e21_spec in E. lra. }
  set (P := pow2 (- e)).
  assert (HP : 0 < P) by apply pow2_pos.
  assert (Hf : 0 < 10 ^ Z.of_nat f) by (apply Z.pow_pos_nonneg; lia).
  set (A := 2 * m * pow2 e * 10 ^ Z.of_nat f + P).
  exists (A / (2 * P)).
  split; [unfold toFixed; rewrite Hlt; reflexivity|].
  assert (HA : 0 <= A).
  { pose proof (pow2_pos e). unfold A. nia. }
  split; [apply Z.div_pos; lia|].
  pose proof (Z.div_mod A (2 * P) ltac:(lia)) as Hdm.
  pose proof (Z.mod_pos_bound A (2 * P) ltac:(lia)) as Hmod.
  set (n := A / (2 * P)) in *.
  assert (H1 : 2 * P * n <= A) by lia.
  assert (H2 : A < 2 * P * (n + 1)) by lia.
  rewrite Zle_Qle in H1. rewrite Zlt_Qlt in H2. unfold A in H1, H2.
  rewrite !inject_Z_plus, !inject_Z_mult, (inject_pow2 e) in H1, H2.
  fold P in H1, H2. rewrite inject_Z_plus in H2.
  change (inject_Z 2) with 2%Q in H1, H2. change (inject_Z 1) with 1%Q in H2.
  pose proof (inject_pos P HP) as HPq.
  split.
  - apply (Qmult_le_r _ _ (2 * inject_Z P)); [lra|]. lra.
  - apply (Qmult_lt_r _ _ (2 * inject_Z P)); [lra|]. lra.
Qed.

End ToFixed.
(** ** Number::toString and back *)

Section ShortestDecimal.

Local Open Scope Z_scope.

Lemma of_decimal_sign neg m e s m' e' :
  of_decimal false m e = Finite s m' e' -> of_decimal neg m e = Finite neg m' e'.
Proof. unfold of_decimal. apply round_sign. Qed.

Lemma round_false_sign n d s m e : round false n d = Finite s m e -> s = false.
Proof.
  unfold round. destruct (n =? 0).
  - intros [= <- _ _]. reflexivity.
  - cbv zeta.
    destruct (if nearest_even _ _ =? 2 ^ 53 then _ else _) as [m' e'].
    destruct (emax <? e'); [discriminate|]. intros [= <- _ _]. reflexivity.
Qed.

(** A decimal that passed the test reads back as the number. *)
Lemma reads_back_sound m e c :
  reads_back (Finite false m e) c = true ->
  0 < fst c /\ of_decimal false (fst c) (snd c) = Finite false m e.
Proof.
  unfold reads_back.
  destruct (of_decimal false (fst c) (snd c)) as [| |s m' e'] eqn:E; try discriminate.
  intros H. apply andb_true_iff in H as [H He]. apply andb_true_iff in H as [Hs Hm].
  apply Z.ltb_lt in Hs. apply Z.eqb_eq in Hm, He. subst m' e'.
  split; [exact Hs|]. f_equal. apply (round_false_sign _ _ _ _ _ E).
Qed.

Lemma shortest_from_sound fuel m e n d n0 k c :
  shortest_from fuel (Finite false m e) n d n0 k = Some c ->
  reads_back (Finite false m e) c = true.
Proof.
  revert k. induction fuel as [|fuel IH]; intros k; [discriminate|].
  cbn [shortest_from].
  destruct (List.filter _ _) as [|c' cs] eqn:E.
  - apply IH.
  - intros [= <-].
    assert (Hin : In c' (List.filter (reads_back (Finite false m e))
                                     (candidates n d n0 k))).
    { rewrite E. left. reflexivity. }
    apply filter_In in Hin. apply Hin.
Qed.

(** The exact expansion reads back as the number. *)
Lemma exact_decimal_reads_back m e :
  0 < m -> canonical (Finite false m e) ->
  0 < fst (exact_decimal m e)
  /\ of_decimal false (fst (exact_decimal m e)) (snd (exact_decimal m e))
     = Finite false m e.
Proof.
  intros Hm Hc. unfold exact_decimal.
  destruct (Z.leb_spec 0 e) as [He|He]; cbn [fst snd].
  - assert (Hp : 0 < 2 ^ e) by (apply Z.pow_pos_nonneg; lia).
    split; [nia|]. unfold of_decimal.
    change (pow10 0) with 1. change (pow10 (- 0)) with 1. rewrite Z.mul_1_r.
    assert (Hn : 0 < m * 2 ^ e) by nia.
    apply round_exact; [exact Hn | lia | exact Hm | exact Hc |].
    rewrite inject_Z_mult, two_to_const by exact He.
    change (inject_Z 1) with 1%Q. ring.
  - assert (Hp : 0 < 5 ^ (- e)) by (apply Z.pow_pos_nonneg; lia).
    assert (Hp2 : 0 < 2 ^ (- e)) by (apply Z.pow_pos_nonneg; lia).
    split; [nia|]. unfold of_decimal, pow10.
    rewrite (Z.max_l 0 e), (Z.max_r 0 (- e)) by lia.
    change (10 ^ 0) with 1. rewrite Z.mul_1_r.
    assert (Hn : 0 < m * 5 ^ (- e)) by nia.
    assert (Hd : 0 < 10 ^ (- e)) by (apply Z.pow_pos_nonneg; lia).
    apply round_exact; [exact Hn | exact Hd | exact Hm | exact Hc |].
    assert (E2 : (two_to e == / inject_Z (2 ^ (- e)))%Q).
    { rewrite <- two_to_const, <- two_to_opp by lia.
      replace (- - e) with e by lia. reflexivity. }
    change 10 with (2 * 5). rewrite Z.pow_mul_l, !inject_Z_mult, E2.
    field. intros E. unfold Qeq in E. simpl in E. lia.
Qed.

Lemma shortest_reads_back m e :
  0 < m -> canonical (Finite false m e) ->
  0 < fst (shortest m e)
  /\ of_decimal false (fst (shortest m e)) (snd (shortest m e)) = Finite false m e.
Proof.
  intros Hm Hc. unfold shortest.
  destruct (shortest_from _ _ _ _ _ _) as [c|] eqn:E.
  - apply reads_back_sound. now apply shortest_from_sound in E.
  - now apply exact_decimal_reads_back.
Qed.

End ShortestDecimal.

Section ReadingBack.

Local Open Scope Z_scope.
Import JsString.

Lemma exponent_part_printed (x : N) (neg : bool) :
  exponent_part ((if neg then "e-" else "e+") ++ of_N x)
  = if neg then - Z.of_N x else Z.of_N x.
Proof.
  destruct (of_N_numeral x) as (ds & Hnum & Hval & Hne).
  assert (E : exponent_part ((if neg then "e-" else "e+") ++ of_N x)
              = let '(ds, _) := span_digits (of_N x) in
                match ds with
                | [] => 0
                | _ => if neg then - digits_value ds else digits_value ds
                end).
  { destruct neg; reflexivity. }
  rewrite E, Hnum. destruct ds as [|d ds]; [congruence|]. now rewrite Hval.
Qed.

Lemma stops_exponent (neg : bool) (s : string) :
  stops ((if neg then "e-" else "e+") ++ s).
Proof. destruct neg; split; (reflexivity || discriminate). Qed.

Lemma of_N_length (x : N) : (1 <= String.length (of_N x))%nat.
Proof.
  destruct (of_N_numeral x) as (ds & Hnum & _ & Hne).
  rewrite <- (numeral_length _ _ Hnum). destruct ds; [congruence | simpl; lia].
Qed.

(** The two decimals that denote [s * 10^q] give the same number. *)
Lemma of_decimal_shift neg s q :
  of_decimal neg (s * pow10 q) (- Z.of_nat (Z.to_nat (- q))) = of_decimal neg s q.
Proof.
  unfold of_decimal. destruct (Z.le_ge_cases 0 q) as [H|H].
  - replace (Z.to_nat (- q)) with 0%nat by lia. cbn [Z.of_nat Z.opp].
    change (pow10 0) with 1.
    replace (pow10 (- q)) with 1 by (unfold pow10; rewrite Z.max_l by lia; reflexivity).
    now rewrite Z.mul_1_r.
  - rewrite Z2Nat.id by lia. replace (- - q) with q by lia.
    replace (pow10 q) with 1 by (unfold pow10; rewrite Z.max_l by lia; reflexivity).
    now rewrite Z.mul_1_r.
Qed.

(** What is printed for a finite number that is not zero, without its
    sign, reads back as the number with the sign that is given. *)
Lemma parse_unsigned_printed neg m e :
  0 < m -> canonical (Finite false m e) ->
  exists body c d s',
    toString (Finite neg m e) = ((if neg then "-" else "") ++ body)%string
    /\ body = String c s' /\ digit_of c = Some d
    /\ parse_unsigned neg body = Finite neg m e.
Proof.
  intros Hm Hc.
  destruct (shortest_reads_back m e Hm Hc) as [Hs Hback].
  apply (of_decimal_sign neg) in Hback.
  unfold toString. destruct (Z.eqb_spec m 0) as [|_]; [lia|].
  destruct (shortest m e) as [s q]. cbn [fst snd] in Hs, Hback. cbv zeta.
  set (k := digits10 s). set (n := k + q).
  assert (Hk : 1 <= k).
  { unfold k, digits10. pose proof (of_N_length (Z.to_N s)). lia. }
  destruct ((-6 <? n) && (n <=? 21)).
  - (* positional notation *)
    set (body := positional (Z.to_nat (- q)) (Z.to_N (s * pow10 q))).
    destruct (positional_head (Z.to_nat (- q)) (Z.to_N (s * pow10 q)))
      as (c & d & s' & Ebody & Hd).
    exists body, c, d, s'. split; [reflexivity|]. split; [exact Ebody|].
    split; [exact Hd|].
    rewrite <- (string_app_nil_r body). unfold body.
    rewrite (parse_unsigned_positional neg _ _ "" I).
    assert (Hpos : 0 <= s * pow10 q) by (pose proof (pow10_pos' q); nia).
    rewrite Z2N.id by exact Hpos.
    change (exponent_part "" - Z.of_nat (Z.to_nat (- q)))
      with (- Z.of_nat (Z.to_nat (- q))).
    now rewrite of_decimal_shift.
  - (* exponent notation *)
    set (x := Z.to_N (Z.abs (n - 1))).
    set (mantissa := positional (Z.to_nat (k - 1)) (Z.to_N s)).
    set (mark := if 0 <=? n - 1 then "e+"%string else "e-"%string).
    destruct (positional_head (Z.to_nat (k - 1)) (Z.to_N s))
      as (c & d & s' & Ebody & Hd).
    exists (mantissa ++ mark ++ of_N x)%string, c, d, (s' ++ mark ++ of_N x)%string.
    split; [reflexivity|]. split; [unfold mantissa; now rewrite Ebody|].
    split; [exact Hd|].
    assert (Emark : mark = if negb (0 <=? n - 1) then "e-"%string else "e+"%string).
    { unfold mark. destruct (0 <=? n - 1); reflexivity. }
    unfold mantissa. rewrite Emark.
    rewrite (parse_unsigned_positional neg _ _ _ (stops_exponent _ _)).
    rewrite exponent_part_printed, Z2N.id by lia.
    rewrite <- Hback. f_equal.
    unfold x. rewrite Z2N.id by lia. rewrite Z2Nat.id by lia.
    destruct (Z.leb_spec 0 (n - 1)); cbn [negb]; unfold n; lia.
Qed.

(** Number::toString followed by parseFloat gives the number back; the
    negative zero, printed "0", comes back as the positive one. *)
Lemma parseFloat_toString x :
  canonical x -> x <> Finite true 0 emin ->
  JsString.truthy (toString x) = true /\ parseFloat (toString x) = x.
Proof.
  destruct x as [|[]|neg m e]; try (intros; split; reflexivity).
  intros Hc Hnz.
  destruct (Z.eq_dec m 0) as [->|Hm0].
  - destruct Hc as (_ & _ & He). specialize (He ltac:(lia)). subst e.
    destruct neg; [congruence|]. split; reflexivity.
  - assert (Hm : 0 < m) by (destruct Hc as [? _]; lia).
    destruct (parse_unsigned_printed neg m e Hm Hc)
      as (body & c & d & s' & -> & Ebody & Hd & Hparse).
    subst body. destruct neg.
    + split; [reflexivity|].
      unfold parseFloat.
      change ("-" ++ String c s')%string with (String "-" (String c s')).
      assert (Hs : skip_white (String "-" (String c s')) = String "-" (String c s')).
      { destruct s' as [|b s'']; reflexivity. }
      rewrite Hs. cbn [take_sign]. exact Hparse.
    + change ("" ++ String c s')%string with (String c s').
      split; [reflexivity|].
      rewrite (parseFloat_digit_first c d s' Hd). exact Hparse.
Qed.

End ReadingBack.
(** ** The completion rate *)

Section CompletionRate.

Local Open Scope Z_scope.

(** From the three roundings (the division, the multiplication by 100
    and the one of [toFixed]) to the exact quotient: the errors of the
    first two are too small to move the result past a tenth that is not
    exactly halfway. *)
Lemma rate_arith (c t n : Z) (v1 v2 u1 u2 : Q) :
  0 < c < 2 ^ 32 -> 0 < t < 2 ^ 32 ->
  let q1 := (inject_Z c / inject_Z t)%Q in
  (q1 - (1 # 2) * u1 <= v1 <= q1 + (1 # 2) * u1)%Q ->
  (inject_Z (2 ^ 52) * u1 <= v1)%Q ->
  (100 * v1 - (1 # 2) * u2 <= v2 <= 100 * v1 + (1 # 2) * u2)%Q ->
  (inject_Z (2 ^ 52) * u2 <= v2)%Q ->
  (inject_Z n <= 10 * v2 + (1 # 2) < inject_Z n + 1)%Q ->
  - t <= 2 * (1000 * c - n * t) <= t.
Proof.
  intros Hc Ht q1 [A1 A2] B1 [A3 A4] B2 [N1 N2].
  pose proof (inject_pos t ltac:(lia)) as Hy.
  pose proof (inject_pos c ltac:(lia)) as Hx.
  assert (Hq : (q1 * inject_Z t == inject_Z c)%Q) by (unfold q1; field; lra).
  assert (Hq0 : (0 < q1)%Q).
  { unfold q1. apply Qlt_shift_div_l; [exact Hy | lra]. }
  assert (Hc32 : (inject_Z c < inject_Z (2 ^ 32))%Q) by (rewrite <- Zlt_Qlt; lia).
  change (inject_Z (2 ^ 52)) with (4503599627370496 # 1)%Q in B1, B2.
  change (inject_Z (2 ^ 32)) with (4294967296 # 1)%Q in Hc32.
  set (z := (inject_Z n - 1000 * q1)%Q).
  set (K := (1 # 2199023255552)%Q).
  assert (Z1 : (z <= (1 # 2) + K * q1)%Q) by (unfold z, K; lra).
  assert (Z2 : (- ((1 # 2) + K * q1) <= z)%Q) by (unfold z, K; lra).
  assert (P1 : (z * inject_Z t <= ((1 # 2) + K * q1) * inject_Z t)%Q)
    by (apply Qmult_le_r; assumption).
  assert (P2 : (- ((1 # 2) + K * q1) * inject_Z t <= z * inject_Z t)%Q)
    by (apply Qmult_le_r; assumption).
  assert (Hz : (z * inject_Z t == inject_Z n * inject_Z t - 1000 * inject_Z c)%Q).
  { unfold z. rewrite <- Hq. ring. }
  assert (HK : (((1 # 2) + K * q1) * inject_Z t == (1 # 2) * inject_Z t + K * inject_Z c)%Q).
  { rewrite <- Hq. ring. }
  assert (HK' : (- ((1 # 2) + K * q1) * inject_Z t
                 == - ((1 # 2) * inject_Z t + K * inject_Z c))%Q).
  { rewrite <- Hq. ring. }
  rewrite Hz, HK in P1. rewrite Hz, HK' in P2. unfold K in P1, P2.
  assert (U : (inject_Z (2 * (n * t - 1000 * c)) < inject_Z (t + 1))%Q).
  { rewrite inject_Z_plus, inject_Z_mult, inject_Z_minus, !inject_Z_mult.
    change (inject_Z 2) with 2%Q. change (inject_Z 1000) with 1000%Q.
    change (inject_Z 1) with 1%Q. lra. }
  assert (L : (inject_Z (- t - 1) < inject_Z (2 * (n * t - 1000 * c)))%Q).
  { rewrite inject_Z_minus, inject_Z_opp, inject_Z_mult, inject_Z_minus, !inject_Z_mult.
    change (inject_Z 2) with 2%Q. change (inject_Z 1000) with 1000%Q.
    change (inject_Z 1) with 1%Q. lra. }
  rewrite <- Zlt_Qlt in U, L. lia.
Qed.

Lemma below_two_to_1023 (q : Q) : (q < inject_Z (10 ^ 20))%Q -> (q < two_to 1023)%Q.
Proof.
  intros H. eapply Qlt_le_trans; [exact H|].
  apply Qle_trans with (two_to 67); [|apply two_to_le; lia].
  rewrite (two_to_const 67) by lia. rewrite <- Zle_Qle. vm_compute. discriminate.
Qed.

Lemma two_to_1022_small : (two_to (-1022) <= inject_Z 1 / inject_Z (2 ^ 32))%Q.
Proof.
  apply Qle_trans with (two_to (- 32)); [apply two_to_le; lia|].
  unfold two_to, Qle. simpl. lia.
Qed.

Lemma rate_zero t :
  0 < t < 2 ^ 53 ->
  toFixed 1 (mul (div (of_Z 0) (of_Z t)) (of_Z 100)) = "0.0"%string.
Proof.
  intros Ht. destruct (of_Z_exact t Ht) as (-> & _ & _).
  pose proof (Z.log2_nonneg t).
  assert (Hm : 0 < t * 2 ^ (52 - Z.log2 t)).
  { apply Z.mul_pos_pos; [lia|]. apply Z.pow_pos_nonneg; [lia|].
    assert (Z.log2 t < 53) by (apply Z.log2_lt_pow2; lia). lia. }
  change (of_Z 0) with (Finite false 0 emin). cbn [div].
  destruct (Z.eqb_spec (t * 2 ^ (52 - Z.log2 t)) 0) as [E|_]; [lia|].
  cbn [Z.mul round Z.eqb]. vm_compute. reflexivity.
Qed.

(** The rate printed for [c] completed appointments of [t]. *)
Lemma rate_nearest c t :
  0 < c < 2 ^ 32 -> 0 < t < 2 ^ 32 ->
  exists n,
    toFixed 1 (mul (div (of_Z c) (of_Z t)) (of_Z 100)) = positional 1 (Z.to_N n)
    /\ 0 <= n
    /\ - t <= 2 * (1000 * c - n * t) <= t.
Proof.
  intros Hc Ht.
  assert (Hc53 : 0 < c < 2 ^ 53) by lia.
  assert (Ht53 : 0 < t < 2 ^ 53) by lia.
  destruct (of_Z_exact c Hc53) as (Ec & Cc & Vc).
  destruct (of_Z_exact t Ht53) as (Et & Ct & Vt).
  rewrite Ec in Cc, Vc. rewrite Et in Ct, Vt. rewrite Ec, Et.
  set (mc := c * 2 ^ (52 - Z.log2 c)) in *. set (ec := Z.log2 c - 52) in *.
  set (mt := t * 2 ^ (52 - Z.log2 t)) in *. set (et := Z.log2 t - 52) in *.
  cbn [finite_value signed] in Vc, Vt.
  pose proof (inject_pos t ltac:(lia)) as Hy.
  pose proof (inject_pos c ltac:(lia)) as Hx.
  assert (Hmc : 0 < mc).
  { destruct (Z.lt_trichotomy mc 0) as [H|[H|H]]; [| |exact H].
    - destruct Cc as [? _]. lia.
    - rewrite H in Vc. change (inject_Z 0) with 0%Q in Vc. lra. }
  assert (Hmt : 0 < mt).
  { destruct (Z.lt_trichotomy mt 0) as [H|[H|H]]; [| |exact H].
    - destruct Ct as [? _]. lia.
    - rewrite H in Vt. change (inject_Z 0) with 0%Q in Vt. lra. }
  (* the division *)
  cbn [div]. destruct (Z.eqb_spec mt 0) as [E|_]; [lia|]. cbn [xorb].
  set (N1 := mc * pow2 (ec - et)). set (D1 := mt * pow2 (et - ec)).
  assert (HN1 : 0 < N1) by (apply Z.mul_pos_pos; [exact Hmc | apply pow2_pos]).
  assert (HD1 : 0 < D1) by (apply Z.mul_pos_pos; [exact Hmt | apply pow2_pos]).
  assert (Hq1 : (inject_Z N1 / inject_Z D1 == inject_Z c / inject_Z t)%Q).
  { unfold N1, D1. rewrite (div_ratio mc ec mt et Hmt), Vc, Vt. reflexivity. }
  assert (Hq1le : (inject_Z c / inject_Z t <= inject_Z (2 ^ 32))%Q).
  { apply Qle_shift_div_r; [exact Hy|].
    assert (Hx32 : (inject_Z c <= inject_Z (2 ^ 32))%Q) by (rewrite <- Zle_Qle; lia).
    assert (Hy1 : (inject_Z 1 <= inject_Z t)%Q) by (rewrite <- Zle_Qle; lia).
    change (inject_Z (2 ^ 32)) with (4294967296 # 1)%Q in *.
    change (inject_Z 1) with 1%Q in Hy1.
    apply Qle_trans with ((4294967296 # 1) * 1)%Q; [lra|].
    apply Qmult_le_l; [reflexivity | exact Hy1]. }
  change (inject_Z (2 ^ 32)) with (4294967296 # 1)%Q in Hq1le.
  assert (Big : forall q : Q, (q < inject_Z (10 ^ 20))%Q -> (q < two_to 1023)%Q)
    by exact below_two_to_1023.
  change (inject_Z (10 ^ 20)) with (100000000000000000000 # 1)%Q in Big.
  assert (Hq1ge : (two_to (-1022) <= inject_Z c / inject_Z t)%Q).
  { eapply Qle_trans; [apply two_to_1022_small|].
    apply Qle_shift_div_l; [exact Hy|].
    assert (Hy32 : (inject_Z t <= inject_Z (2 ^ 32))%Q) by (rewrite <- Zle_Qle; lia).
    assert (Hx1 : (inject_Z 1 <= inject_Z c)%Q) by (rewrite <- Zle_Qle; lia).
    change (inject_Z (2 ^ 32)) with (4294967296 # 1)%Q in *.
    change (inject_Z 1) with 1%Q in *.
    apply Qle_trans with (1 / (4294967296 # 1) * (4294967296 # 1))%Q.
    - apply Qmult_le_l; [reflexivity | exact Hy32].
    - setoid_replace (1 / (4294967296 # 1) * (4294967296 # 1))%Q with 1%Q
        using relation Qeq by reflexivity.
      exact Hx1. }
  destruct (round_spec false N1 D1 HN1 HD1) as [[_ Hinf]|(m1 & e1 & -> & C1 & Err1 & Norm1)].
  { cbv zeta in Hinf. rewrite Hq1 in Hinf.
    pose proof (Big (inject_Z c / inject_Z t)%Q ltac:(lra)). lra. }
  cbv zeta in Err1, Norm1. rewrite Hq1 in Err1, Norm1.
  specialize (Norm1 Hq1ge).
  pose proof (two_to_pos e1) as HT1.
  assert (B1 : (inject_Z (2 ^ 52) * two_to e1 <= inject_Z m1 * two_to e1)%Q).
  { apply Qmult_le_r; [exact HT1|]. rewrite <- Zle_Qle. exact Norm1. }
  (* the multiplication by 100 *)
  destruct (of_Z_exact 100 ltac:(lia)) as (E100 & _ & V100).
  rewrite E100 in V100. rewrite E100.
  set (mh := 100 * 2 ^ (52 - Z.log2 100)) in *. set (eh := Z.log2 100 - 52) in *.
  cbn [finite_value signed] in V100.
  cbn [mul xorb].
  set (N2 := m1 * mh * pow2 (e1 + eh)). set (D2 := pow2 (- (e1 + eh))).
  assert (Hmh : 0 < mh) by (vm_compute; reflexivity).
  assert (HN2 : 0 < N2).
  { unfold N2. pose proof (pow2_pos (e1 + eh)). nia. }
  assert (HD2 : 0 < D2) by apply pow2_pos.
  assert (Hq2 : (inject_Z N2 / inject_Z D2 == 100 * (inject_Z m1 * two_to e1))%Q).
  { unfold N2, D2. rewrite (mul_ratio m1 e1 mh eh), V100.
    change (inject_Z 100) with 100%Q. ring. }
  assert (V1up : (inject_Z m1 * two_to e1 <= (8589934592 # 1))%Q).
  { change (inject_Z (2 ^ 52)) with (4503599627370496 # 1)%Q in B1. lra. }
  assert (V1low : (two_to (-1022) <= 100 * (inject_Z m1 * two_to e1))%Q).
  { change (inject_Z (2 ^ 52)) with (4503599627370496 # 1)%Q in B1. lra. }
  destruct (round_spec false N2 D2 HN2 HD2) as [[_ Hinf]|(m2 & e2 & -> & C2 & Err2 & Norm2)].
  { cbv zeta in Hinf. rewrite Hq2 in Hinf.
    pose proof (Big (100 * (inject_Z m1 * two_to e1))%Q ltac:(lra)). lra. }
  cbv zeta in Err2, Norm2. rewrite Hq2 in Err2, Norm2.
  specialize (Norm2 V1low).
  pose proof (two_to_pos e2) as HT2.
  assert (B2 : (inject_Z (2 ^ 52) * two_to e2 <= inject_Z m2 * two_to e2)%Q).
  { apply Qmult_le_r; [exact HT2|]. rewrite <- Zle_Qle. exact Norm2. }
  (* the printed digits *)
  assert (Hsmall : (inject_Z m2 * two_to e2 < inject_Z (10 ^ 21))%Q).
  { change (inject_Z (2 ^ 52)) with (4503599627370496 # 1)%Q in B2.
    change (inject_Z (10 ^ 21)) with (1000000000000000000000 # 1)%Q. lra. }
  destruct (toFixed_spec 1 false m2 e2 ltac:(lia) Hsmall) as (n & -> & Hn & F1 & F2).
  exists n. split; [reflexivity|]. split; [exact Hn|].
  change (inject_Z (10 ^ Z.of_nat 1)) with 10%Q in F1, F2.
  apply (rate_arith c t n (inject_Z m1 * two_to e1) (inject_Z m2 * two_to e2)
           (two_to e1) (two_to e2)); try assumption; try lia.
  split; assumption.
Qed.

End CompletionRate.

(** C7, as the code has it. The completion rate shown in the e-mail is the
    text "0" when the business had no appointment. Otherwise (for counts
    below 2^32, as the length of every array is) it is the numeral, with
    one decimal, of a tenth [n / 10] nearest to completed / total * 100,
    and reads back as the number nearest to [n / 10]. The quotient is
    computed in binary64 before it is rounded to a tenth, so when it lies
    exactly halfway between two tenths either of them may be shown. With 3
    of 4 appointments completed it is "75.0". *)
Theorem completion_rate_rendered (tza : JsDate.TimeZone) (data : MonthlyReportData)
    (startDate : Z) :
  let c := Z.of_nat (completedAppointments data) in
  let t := Z.of_nat (totalAppointments data) in
  let shown := html_completionRate (html (report_email tza data startDate)) in
  (t = 0%Z -> shown = "0")
  /\ ((0 < t < 2 ^ 32)%Z -> (c < 2 ^ 32)%Z ->
      exists n : Z,
        (0 <= n)%Z
        /\ (- t <= 2 * (1000 * c - n * t) <= t)%Z
        /\ shown = JsNumber.positional 1 (Z.to_N n)
        /\ parseFloat shown = JsNumber.of_decimal false n (-1))
  /\ (c = 3%Z -> t = 4%Z -> shown = "75.0").
Proof.
  intros c t shown.
  assert (Hshown : shown = completionRate data) by reflexivity.
  assert (Hrate : (0 < t < 2 ^ 32)%Z -> (c < 2 ^ 32)%Z ->
                  exists n : Z,
                    (0 <= n)%Z
                    /\ (- t <= 2 * (1000 * c - n * t) <= t)%Z
                    /\ shown = JsNumber.positional 1 (Z.to_N n)).
  { intros Ht Hc. rewrite Hshown. unfold completionRate.
    destruct (Nat.ltb_spec 0 (totalAppointments data)) as [_|H]; [|lia].
    unfold JsNumber.of_nat. fold c t.
    change (Z.of_nat 100) with 100%Z.
    destruct (Z.eq_dec c 0%Z) as [E|E].
    - exists 0%Z. rewrite E, rate_zero by lia. repeat split; lia.
    - destruct (rate_nearest c t ltac:(lia) ltac:(lia)) as (n & Hs & Hn & Hb).
      exists n. repeat split; try assumption; lia. }
  split; [|split].
  - intros Ht. rewrite Hshown. unfold completionRate.
    destruct (Nat.ltb_spec 0 (totalAppointments data)) as [H|H]; [lia|reflexivity].
  - intros Ht Hc. destruct (Hrate Ht Hc) as (n & Hn & Hb & Hs).
    exists n. split; [exact Hn|]. split; [exact Hb|]. split; [exact Hs|].
    rewrite Hs, <- (string_app_nil_r (JsNumber.positional 1 (Z.to_N n))).
    rewrite (parseFloat_positional 1 (Z.to_N n) "" I), Z2N.id by exact Hn.
    reflexivity.
  - intros Hc Ht. destruct (Hrate ltac:(lia) ltac:(lia)) as (n & Hn & Hb & Hs).
    assert (n = 750%Z) by lia. subst n. rewrite Hs. reflexivity.
Qed.

Lemma completion_rate_rendered_witness :
  html_completionRate (html (report_email 0 empty_report 0)) = "0"
  /\ html_completionRate (html (report_email 0 sample_report 0)) = "75.0"
  /\ exists n : Z,
       (0 <= n)%Z
       /\ html_completionRate (html (report_email 0 sample_report 0))
          = JsNumber.positional 1 (Z.to_N n).
Proof.
  split; [|split].
  - apply (completion_rate_rendered 0 empty_report 0). reflexivity.
  - apply (completion_rate_rendered 0 sample_report 0); reflexivity.
  - destruct (proj1 (proj2 (completion_rate_rendered 0 sample_report 0)))
      as (n & Hn & _ & Hs & _); [simpl; lia | simpl; lia |].
    exists n. split; assumption.
Defined.

(** C7 as stated fails where the quotient is exactly halfway between two
    tenths: 23 of 80 is 28.75, which rounds to 28.8, while the code shows
    28.7 (the binary64 product is 28.749999999999996). *)
Lemma completion_rate_tie_counterexample :
  spec_completionRate 23 80 = "28.8"
  /\ html_completionRate (html (report_email 0 tie_report 0)) = "28.7"
  /\ html_completionRate (html (report_email 0 tie_report 0))
     <> spec_completionRate (completedAppointments tie_report)
                            (totalAppointments tie_report).
Proof. repeat split; vm_compute; congruence. Qed.

(** ** The currency of the report *)

(** C9. The report carries the fallback currency "NGN" when the business
    has no currency or an empty one, and the stored currency otherwise. *)
Theorem currency_fallback (appointments : option (list Appointment.t)) (business : Business.t) :
  currency (reportData appointments business)
  = match Business.currency business with
    | None => "NGN"
    | Some "" => "NGN"
    | Some stored => stored
    end.
Proof.
  unfold reportData. simpl.
  destruct (Business.currency business) as [[|c s]|]; reflexivity.
Qed.

(** ** The revenue *)

Section Revenue.

Local Open Scope Z_scope.

Lemma round_canonical neg n d : 0 <= n -> 0 < d -> canonical (round neg n d).
Proof.
  intros Hn Hd. destruct (Z.eq_dec n 0) as [->|Hn0].
  - unfold round, canonical, emin, emax. simpl. lia.
  - destruct (round_spec neg n d ltac:(lia) Hd) as [[-> _]|(m & e & -> & Hc & _)];
      [exact I | exact Hc].
Qed.

(** A value of the least unit or more is not rounded to zero. *)
Lemma round_positive neg n d s m e :
  0 < n -> 0 < d -> (two_to emin * inject_Z d <= inject_Z n)%Q ->
  round neg n d = Finite s m e -> 0 < m.
Proof.
  intros Hn Hd Hq E.
  destruct (round_spec neg n d Hn Hd) as [[E' _]|(m' & e' & E' & Hc & [Herr _] & _)];
    rewrite E' in E; [discriminate|].
  injection E as <- <- <-.
  destruct Hc as (Hm & He & Hsub).
  destruct (Z.lt_ge_cases m' (2 ^ 52)) as [Hsmall|]; [|lia].
  specialize (Hsub Hsmall). subst e'.
  pose proof (two_to_pos emin) as HT. pose proof (inject_pos d Hd) as Hdq.
  assert (Hq' : (two_to emin <= inject_Z n / inject_Z d)%Q)
    by (apply Qle_shift_div_l; assumption).
  assert (Hv : (0 < inject_Z m' * two_to emin)%Q) by lra.
  destruct (Z.lt_trichotomy m' 0) as [H|[H|H]]; [lia | | exact H].
  rewrite H in Hv. change (inject_Z 0) with 0%Q in Hv. lra.
Qed.

Lemma digit_of_nonneg c d : digit_of c = Some d -> 0 <= d.
Proof.
  unfold digit_of. destruct (_ && _)%bool; [|discriminate]. intros [= <-]. lia.
Qed.

Lemma span_digits_nonneg s : Forall (fun d => 0 <= d) (span_digits s).1.
Proof.
  induction s as [|c s IH]; simpl; [constructor|].
  destruct (digit_of c) as [d|] eqn:E; [|constructor].
  destruct (span_digits s) as [ds r]. simpl in *. constructor; [|exact IH].
  now apply (digit_of_nonneg c).
Qed.

Lemma digits_value_nonneg ds : Forall (fun d => 0 <= d) ds -> 0 <= digits_value ds.
Proof.
  unfold digits_value.
  assert (G : forall acc, 0 <= acc -> Forall (fun d => 0 <= d) ds ->
                          0 <= fold_left (fun a d => 10 * a + d) ds acc).
  { induction ds as [|d ds IH]; intros acc Hacc H; simpl; [exact Hacc|].
    inversion H; subst. apply IH; [lia | assumption]. }
  intros H. apply G; [lia | exact H].
Qed.

Lemma of_decimal_canonical neg m e : 0 <= m -> canonical (of_decimal neg m e).
Proof.
  intros Hm. unfold of_decimal. apply round_canonical; [|apply pow10_pos'].
  pose proof (pow10_pos' e). nia.
Qed.

(** What [parseFloat] returns is a number of the format. *)
Lemma parseFloat_canonical s : canonical (parseFloat s).
Proof.
  unfold parseFloat. destruct (take_sign (skip_white s)) as [neg s1].
  unfold parse_unsigned. destruct (JsString.strip_prefix "Infinity" s1); [exact I|].
  pose proof (span_digits_nonneg s1) as H1.
  destruct (span_digits s1) as [ip s2]. cbn [fst] in H1.
  assert (H2 : forall fp s3,
             (fp, s3) = match s2 with
                        | String "." s2' => span_digits s2'
                        | _ => ([], s2)
                        end -> Forall (fun d => 0 <= d) fp).
  { intros fp s3 E.
    destruct s2 as [|c s2']; [injection E as -> _; constructor|].
    destruct (Ascii.eqb_spec c "."%char) as [->|Hc].
    - pose proof (span_digits_nonneg s2') as H. rewrite <- E in H. exact H.
    - assert (E' : (fp, s3) = ([], String c s2')).
      { rewrite E. destruct c as [[] [] [] [] [] [] [] []]; try reflexivity. congruence. }
      injection E' as -> _. constructor. }
  destruct (match s2 with
            | String "." s2' => span_digits s2'
            | _ => ([], s2)
            end) as [fp s3] eqn:E.
  specialize (H2 fp s3 eq_refl).
  destruct (ip ++ fp)%list as [|d ds] eqn:Eds; [exact I|].
  apply of_decimal_canonical, digits_value_nonneg. rewrite <- Eds.
  apply Forall_app. split; assumption.
Qed.

Lemma price_of_canonical a : canonical (price_of a).
Proof. apply parseFloat_canonical. Qed.

(** The sum of two finite numbers: never NaN, and the negative zero only
    for two negative zeros. *)
Lemma add_finite x y :
  canonical x -> canonical y -> is_finite x -> is_finite y ->
  canonical (add x y) /\ is_nan (add x y) = false
  /\ (add x y = Finite true 0 emin -> x = Finite true 0 emin).
Proof.
  intros Cx Cy (s1 & m1 & e1 & ->) (s2 & m2 & e2 & ->).
  destruct Cx as (Hm1 & He1 & Hs1). destruct Cy as (Hm2 & He2 & Hs2).
  cbn [add]. set (e := Z.min e1 e2).
  set (S := signed s1 m1 * 2 ^ (e1 - e) + signed s2 m2 * 2 ^ (e2 - e)).
  assert (Hp1 : 0 < 2 ^ (e1 - e)) by (apply Z.pow_pos_nonneg; lia).
  assert (Hp2 : 0 < 2 ^ (e2 - e)) by (apply Z.pow_pos_nonneg; lia).
  destruct (Z.eqb_spec S 0) as [E0|Hne].
  - split; [unfold canonical, emin, emax in *; lia|]. split; [reflexivity|].
    intros [= Hs]. apply andb_true_iff in Hs as [-> ->].
    unfold S, signed in E0.
    assert (m1 = 0) by nia. subst m1. rewrite Hs1 by lia. reflexivity.
  - assert (Hn : 0 < Z.abs S * pow2 e) by (pose proof (pow2_pos e); nia).
    assert (Hd : 0 < pow2 (- e)) by apply pow2_pos.
    split; [apply round_canonical; lia|].
    assert (Hq : (two_to emin * inject_Z (pow2 (- e)) <= inject_Z (Z.abs S * pow2 e))%Q).
    { rewrite inject_Z_mult, (inject_pow2 e).
      pose proof (inject_pos _ Hd) as Hdq.
      assert (H1 : (1 <= inject_Z (Z.abs S))%Q)
        by (change 1%Q with (inject_Z 1); rewrite <- Zle_Qle; lia).
      assert (H2 : (two_to emin <= two_to e)%Q) by (apply two_to_le; unfold e; lia).
      pose proof (two_to_pos emin) as HT.
      apply Qle_trans with (two_to e * inject_Z (pow2 (- e)))%Q.
      - apply Qmult_le_r; assumption.
      - rewrite <- (Qmult_1_l (two_to e * inject_Z (pow2 (- e)))) at 1.
        apply Qmult_le_r; [|exact H1].
        apply Qmult_lt_0_compat; [apply two_to_pos | exact Hdq]. }
    destruct (round (S <? 0) (Z.abs S * pow2 e) (pow2 (- e))) as [| |s m e'] eqn:E.
    + destruct (round_spec (S <? 0) _ _ Hn Hd) as [[E' _]|(m' & e'' & E' & _)];
        rewrite E' in E; discriminate.
    + split; [reflexivity | discriminate].
    + split; [reflexivity|]. intros [= _ Hm _].
      pose proof (round_positive _ _ _ _ _ _ Hn Hd Hq E). lia.
Qed.

Lemma fold_add_sound xs acc :
  sound_sum acc -> Forall canonical xs -> Forall is_finite xs ->
  sound_sum (fold_left add xs acc).
Proof.
  intros Hacc Hc Hf. revert acc Hacc.
  induction xs as [|x xs IH]; intros acc Hacc; [exact Hacc|].
  inversion Hc; subst. inversion Hf; subst.
  cbn [fold_left]. apply IH; try assumption.
  destruct Hacc as (Ca & Na & Za).
  destruct acc as [|a|s m e]; [discriminate| |].
  - match goal with H : is_finite x |- _ => destruct H as (s2 & m2 & e2 & ->) end.
    repeat split; discriminate.
  - destruct (add_finite (Finite s m e) x) as (C & N & Z0); try assumption.
    { now exists s, m, e. }
    repeat split; try assumption. intros E. apply Za, Z0, E.
Qed.

(** [x || 0] on a sum. *)
Lemma or_else_sound x : sound_sum x -> or_else x zero = x.
Proof.
  intros (C & N & Z0). unfold or_else.
  destruct x as [|a|s m e]; [discriminate | reflexivity |].
  cbn [truthy]. destruct (Z.eqb_spec m 0) as [->|]; [|reflexivity].
  cbn [negb]. destruct C as (_ & _ & He). rewrite He by lia.
  destruct s; [|reflexivity]. rewrite He in Z0 by lia. congruence.
Qed.

Lemma add_nan_r x : add x NaN = NaN.
Proof. destruct x; reflexivity. Qed.

Lemma fold_add_nan xs : fold_left add xs NaN = NaN.
Proof. induction xs as [|x xs IH]; simpl; [reflexivity | exact IH]. Qed.

Lemma fold_add_map (r : list Appointment.t) acc :
  fold_left (fun sum a => add sum (price_of a)) r acc
  = fold_left add (map price_of r) acc.
Proof. revert acc. induction r as [|a r IH]; intros acc; simpl; [reflexivity | apply IH]. Qed.

Lemma revenue_fold (l : list Appointment.t) :
  calc_totalRevenue (Some l)
  = or_else
      (fold_left add (map price_of (List.filter (has_status "completed") l)) zero)
      zero.
Proof. unfold calc_totalRevenue. now rewrite fold_add_map. Qed.

End Revenue.

(** C6, as the code has it. Each amount is coerced by [parseFloat] of its
    text: a missing or empty amount counts as zero and a number counts as
    itself. When the amount of every record whose status is "completed" is
    a finite number, the revenue is the sum of these amounts, added from
    left to right in binary64; records of any other status contribute
    nothing, so [{completed, 10}, {cancelled, 999}] yield 10. *)
Theorem revenue_of_completed (l : list Appointment.t) :
  let amounts := map price_of (List.filter (has_status "completed") l) in
  let sum := fold_left JsNumber.add amounts JsNumber.zero in
  (forall a, Appointment.final_price a = JNull \/ Appointment.final_price a = JStr ""
             -> price_of a = JsNumber.zero)
  /\ (forall a x, Appointment.final_price a = JNum x ->
                  canonical x -> x <> Finite true 0 JsNumber.emin -> price_of a = x)
  /\ (Forall is_finite amounts ->
      calc_totalRevenue (Some l) = sum /\ JsNumber.is_nan sum = false)
  /\ calc_totalRevenue (Some sample_revenue_records) = JsNumber.of_Z 10.
Proof.
  intros amounts sum.
  split; [|split; [|split]].
  - intros a [H|H]; unfold price_of; rewrite H; reflexivity.
  - intros a x H Hx Hnz. unfold price_of. rewrite H. cbn [toString_opt JsString.or_else].
    destruct (parseFloat_toString x Hx Hnz) as [-> Hback]. exact Hback.
  - intros Hfin.
    assert (Hsound : sound_sum sum).
    { apply fold_add_sound; [| |exact Hfin].
      - split; [unfold canonical, JsNumber.zero, JsNumber.emin, JsNumber.emax; lia|].
        split; [reflexivity | discriminate].
      - unfold amounts. apply Forall_forall. intros x Hx.
        apply list_elem_of_In, in_map_iff in Hx as (a & <- & _). apply price_of_canonical. }
    split; [|apply Hsound].
    rewrite revenue_fold. fold amounts sum. now apply or_else_sound.
  - vm_compute. reflexivity.
Qed.

Lemma revenue_of_completed_witness :
  price_of (appointment "completed" JNull None None) = JsNumber.zero
  /\ price_of (appointment "completed" (JNum (JsNumber.of_decimal false 125 (-1))) None None)
     = JsNumber.of_decimal false 125 (-1)
  /\ calc_totalRevenue (Some sample_revenue_records) = JsNumber.of_Z 10.
Proof.
  pose proof (revenue_of_completed sample_revenue_records) as (H1 & H2 & H3 & _).
  split; [|split].
  - apply H1. left. reflexivity.
  - apply (H2 _ (JsNumber.of_decimal false 125 (-1))).
    + reflexivity.
    + apply of_decimal_canonical. lia.
    + vm_compute. discriminate.
  - destruct H3 as [-> _]; [|vm_compute; reflexivity].
    repeat constructor. vm_compute. now exists false, 5629499534213120%Z, (-49)%Z.
Defined.

(** C6 as stated fails: with a completed record whose amount is no number
    next to a completed record of 10, the amounts coerced with non-numbers
    as zero add up to 10, while the code reports 0. *)
Lemma revenue_non_numeric_counterexample :
  spec_revenue non_numeric_records = JsNumber.of_Z 10
  /\ calc_totalRevenue (Some non_numeric_records) = JsNumber.zero
  /\ calc_totalRevenue (Some non_numeric_records) <> spec_revenue non_numeric_records.
Proof. repeat split; vm_compute; congruence. Qed.

(** ** The customer count *)

Section Customers.

(** The references that survive [filter(Boolean)]. *)
Lemma kept_reference (l : list Appointment.t) (v : option string) :
  v ∈ List.filter Boolean (map Appointment.customer_id l)
  <-> exists s, v = Some s /\ s <> "" /\ exists a, a ∈ l /\ Appointment.customer_id a = Some s.
Proof.
  rewrite list_elem_of_In, filter_In, in_map_iff. split.
  - intros [(a & Ha & Hin) Hb]. destruct v as [s|]; [|discriminate].
    exists s. split; [reflexivity|]. split.
    + intros ->. discriminate.
    + exists a. now rewrite list_elem_of_In.
  - intros (s & -> & Hs & a & Hin & Ha). split.
    + exists a. now rewrite <- list_elem_of_In.
    + destruct s; [contradiction | reflexivity].
Qed.

End Customers.

(** C8, as the code has it. The customer count is the number of distinct
    customer references among the records, leaving out the records whose
    reference is null or the empty string; it is 0 when the query gave no
    array. When no record has an empty reference this is the number of
    distinct non-null references. *)
Theorem distinct_customers (l : list Appointment.t) :
  (exists ids : list string,
      NoDup ids
      /\ (forall s, s ∈ ids <->
                    s <> "" /\ exists a, a ∈ l /\ Appointment.customer_id a = Some s)
      /\ calc_newCustomers (Some l) = length ids)
  /\ calc_newCustomers None = 0%nat
  /\ ((forall a, a ∈ l -> Appointment.customer_id a <> Some "")
      -> calc_newCustomers (Some l) = spec_newCustomers l).
Proof.
  split; [|split].
  - exists (remove_dups (omap id (List.filter Boolean (map Appointment.customer_id l)))).
    split; [apply NoDup_remove_dups|]. split.
    + intros s. rewrite elem_of_remove_dups, list_elem_of_omap. split.
      * intros (v & Hv & Hs). unfold id in Hs. subst v.
        apply kept_reference in Hv as (s' & [= <-] & Hne & Ha). auto.
      * intros [Hne Ha]. exists (Some s). split; [|reflexivity].
        apply kept_reference. eauto.
    + unfold calc_newCustomers, uniqueCustomers.
      set (kept := List.filter Boolean (map Appointment.customer_id l)).
      assert (E : (list_to_set kept : gset (option string))
                  = list_to_set (Some <$> remove_dups (omap id kept))).
      { apply set_eq. intros v.
        rewrite !elem_of_list_to_set, list_elem_of_fmap. split.
        - intros Hv. pose proof Hv as Hv'.
          apply kept_reference in Hv' as (s & -> & _).
          exists s. split; [reflexivity|].
          rewrite elem_of_remove_dups, list_elem_of_omap. now exists (Some s).
        - intros (s & -> & Hs).
          rewrite elem_of_remove_dups, list_elem_of_omap in Hs.
          destruct Hs as (v & Hv & Hs). unfold id in Hs. now subst v. }
      rewrite E, size_list_to_set, length_fmap; [reflexivity|].
      apply NoDup_fmap_2; [|apply NoDup_remove_dups]. intros x y [= ->]. reflexivity.
  - reflexivity.
  - intros Hne. unfold calc_newCustomers, uniqueCustomers, spec_newCustomers.
    set (kept := List.filter Boolean (map Appointment.customer_id l)).
    set (refs := omap Appointment.customer_id l).
    assert (E : (list_to_set kept : gset (option string))
                = list_to_set (Some <$> remove_dups refs)).
    { apply set_eq. intros v.
      rewrite !elem_of_list_to_set, list_elem_of_fmap. split.
      - intros Hv. apply kept_reference in Hv as (s & -> & _ & a & Ha & Hs).
        exists s. split; [reflexivity|].
        rewrite elem_of_remove_dups. apply list_elem_of_omap. eauto.
      - intros (s & -> & Hs). rewrite elem_of_remove_dups in Hs.
        apply list_elem_of_omap in Hs as (a & Ha & Hs).
        apply kept_reference. exists s. split; [reflexivity|]. split; [|eauto].
        intros ->. exact (Hne a Ha Hs). }
    assert (E' : (list_to_set refs : gset string) = list_to_set (remove_dups refs)).
    { apply set_eq. intros s. now rewrite !elem_of_list_to_set, elem_of_remove_dups. }
    rewrite E, E', !size_list_to_set, length_fmap; [reflexivity | apply NoDup_remove_dups |].
    apply NoDup_fmap_2; [|apply NoDup_remove_dups]. intros x y [= ->]. reflexivity.
Qed.

Lemma distinct_customers_witness :
  calc_newCustomers (Some sample_revenue_records) = spec_newCustomers sample_revenue_records.
Proof.
  apply (distinct_customers sample_revenue_records).
  intros a Ha.
  apply list_elem_of_In in Ha.
  destruct Ha as [<-|[<-|[]]]; discriminate.
Defined.

(** C8 as stated fails: a record whose customer reference is the empty
    string has a reference that is not null, and it is not counted. *)
Lemma empty_reference_counterexample :
  spec_newCustomers empty_reference_records = 1%nat
  /\ calc_newCustomers (Some empty_reference_records) = 0%nat.
Proof. split; vm_compute; reflexivity. Qed.

(** ** The service ranking *)

Section StableSort.

Context {A : Type}.
Variable cnt : A -> nat.
Variable pos : A -> nat.

(** The comparator of the ranking, and the order it is meant to give
    once ties are settled by the position in the input. *)
Let compare (a b : A) : Z := (Z.of_nat (cnt b) - Z.of_nat (cnt a))%Z.
Let before (a b : A) : Prop :=
  (cnt b < cnt a)%nat \/ (cnt a = cnt b /\ (pos a < pos b)%nat).

Lemma insert_sorted_Permutation x l : insert_sorted compare x l ≡ₚ x :: l.
Proof.
  induction l as [|y l IH]; simpl; [reflexivity|].
  destruct (0 <? compare x y)%Z; [|reflexivity].
  rewrite IH. apply perm_swap.
Qed.

Lemma sort_Permutation l : sort compare l ≡ₚ l.
Proof.
  induction l as [|x l IH]; simpl; [reflexivity|].
  now rewrite insert_sorted_Permutation, IH.
Qed.

(** An element that came before all of [l] in the input lands in front
    of the first element it does not have fewer occurrences than. *)
Lemma insert_sorted_before x l :
  StronglySorted before l ->
  Forall (fun y => (pos x < pos y)%nat) l ->
  StronglySorted before (insert_sorted compare x l).
Proof.
  intros Hs Hpos. induction Hs as [|y l Hs IH Hy]; simpl.
  - repeat constructor.
  - apply Forall_cons in Hpos as [Hxy Hpos].
    unfold compare at 1.
    destruct (Z.ltb_spec 0 (Z.of_nat (cnt y) - Z.of_nat (cnt x))) as [Hc|Hc].
    + constructor; [now apply IH|].
      rewrite insert_sorted_Permutation. constructor; [|exact Hy].
      left. lia.
    + constructor; [now constructor|].
      assert (Hx : before x y).
      { destruct (Nat.eq_dec (cnt x) (cnt y)); [right; lia | left; lia]. }
      constructor; [exact Hx|].
      rewrite Forall_forall in Hy, Hpos |- *. intros z Hz.
      specialize (Hy z Hz). specialize (Hpos z Hz).
      destruct Hy as [Hy|[Hy _]]; unfold before.
      * destruct (Nat.eq_dec (cnt x) (cnt z)); [right; lia | left; lia].
      * destruct (Nat.eq_dec (cnt x) (cnt z)); [right; lia | left; lia].
Qed.

Lemma sort_before l :
  StronglySorted (fun a b => (pos a < pos b)%nat) l ->
  StronglySorted before (sort compare l).
Proof.
  induction 1 as [|x l Hs IH Hx]; simpl; [constructor|].
  apply insert_sorted_before; [exact IH|].
  now rewrite sort_Permutation.
Qed.

End StableSort.

Section FirstIndex.

Lemma first_index_lt n names : n ∈ names -> (first_index n names < length names)%nat.
Proof.
  induction names as [|x names IH]; simpl; intros H.
  - now apply not_elem_of_nil in H.
  - destruct (String.eqb_spec x n) as [E|E]; [lia|].
    apply elem_of_cons in H as [H|H]; [congruence|].
    specialize (IH H). lia.
Qed.

Lemma first_index_app_l n names r :
  n ∈ names -> first_index n (names ++ r) = first_index n names.
Proof.
  induction names as [|x names IH]; simpl; intros H.
  - now apply not_elem_of_nil in H.
  - destruct (String.eqb_spec x n) as [E|E]; [reflexivity|].
    apply elem_of_cons in H as [H|H]; [congruence|].
    now rewrite IH.
Qed.

Lemma first_index_app_r n names :
  n ∉ names -> first_index n (names ++ [n]) = length names.
Proof.
  induction names as [|x names IH]; simpl; intros H.
  - now rewrite String.eqb_refl.
  - apply not_elem_of_cons in H as [H1 H2].
    destruct (String.eqb_spec x n) as [E|E]; [congruence|].
    now rewrite IH.
Qed.

Lemma occurrences_app n names r :
  occurrences n (names ++ r) = (occurrences n names + occurrences n r)%nat.
Proof. apply count_occ_app. Qed.

Lemma occurrences_absent n names : n ∉ names -> occurrences n names = 0%nat.
Proof. rewrite list_elem_of_In. apply count_occ_not_In. Qed.

End FirstIndex.

Section JsMapFacts.

Context {V : Type}.
Implicit Types (m : JsMap.t V) (k n : string) (v c : V).

Lemma get_absent m k : k ∉ m.*1 -> JsMap.get m k = None.
Proof.
  induction m as [|[k' v'] m IH]; simpl; intros H; [reflexivity|].
  apply not_elem_of_cons in H as [H1 H2].
  destruct (String.eqb_spec k k'); [congruence | now apply IH].
Qed.

Lemma get_present m k v : NoDup m.*1 -> (k, v) ∈ m -> JsMap.get m k = Some v.
Proof.
  induction m as [|[k' v'] m IH]; simpl; intros Hnd H.
  - now apply not_elem_of_nil in H.
  - apply NoDup_cons in Hnd as [Hk' Hnd].
    apply elem_of_cons in H as [[= <- <-]|H].
    + now rewrite String.eqb_refl.
    + destruct (String.eqb_spec k k') as [<-|E]; [|now apply IH].
      exfalso. apply Hk'. apply list_elem_of_fmap. now exists (k, v).
Qed.

(** Setting a new key appends it. *)
Lemma set_absent m k v : k ∉ m.*1 -> JsMap.set m k v = (m ++ [(k, v)])%list.
Proof.
  induction m as [|[k' v'] m IH]; simpl; intros H; [reflexivity|].
  apply not_elem_of_cons in H as [H1 H2].
  destruct (String.eqb_spec k k'); [congruence|]. now rewrite IH.
Qed.

(** Setting a key that is present leaves the keys where they are. *)
Lemma set_present_keys m k v : k ∈ m.*1 -> (JsMap.set m k v).*1 = m.*1.
Proof.
  induction m as [|[k' v'] m IH]; cbn [JsMap.set]; intros H.
  - now apply not_elem_of_nil in H.
  - rewrite fmap_cons in H. cbn [fst] in H.
    destruct (String.eqb_spec k k') as [E|E]; [reflexivity|].
    apply elem_of_cons in H as [H|H]; [congruence|].
    rewrite !fmap_cons. now rewrite IH.
Qed.

Lemma elem_of_set m k v n c :
  NoDup m.*1 ->
  (n, c) ∈ JsMap.set m k v <-> (n = k /\ c = v) \/ (n <> k /\ (n, c) ∈ m).
Proof.
  induction m as [|[k' v'] m IH]; simpl; intros Hnd.
  - rewrite list_elem_of_singleton. split.
    + intros [= -> ->]. now left.
    + intros [[-> ->]|[_ H]]; [reflexivity | now apply not_elem_of_nil in H].
  - apply NoDup_cons in Hnd as [Hk' Hnd].
    destruct (String.eqb_spec k k') as [<-|E].
    + rewrite !elem_of_cons. split.
      * intros [[= -> ->]|H]; [now left|]. right. split; [|now right].
        intros ->. apply Hk'. apply list_elem_of_fmap. now exists (k, c).
      * intros [[-> ->]|[Hne [[= -> ->]|H]]]; [now left | congruence | now right].
    + rewrite !elem_of_cons, (IH Hnd). split.
      * intros [[= -> ->]|[[-> ->]|[Hne H]]].
        -- right. split; [congruence | now left].
        -- now left.
        -- right. split; [exact Hne | now right].
      * intros [[-> ->]|[Hne [[= -> ->]|H]]].
        -- right. now left.
        -- now left.
        -- right. right. now split.
Qed.

Lemma set_keys_NoDup m k v : NoDup m.*1 -> NoDup (JsMap.set m k v).*1.
Proof.
  intros Hnd. destruct (decide (k ∈ m.*1)) as [H|H].
  - now rewrite set_present_keys.
  - rewrite set_absent, fmap_app by exact H. simpl.
    apply NoDup_app. split; [exact Hnd|]. split; [|apply NoDup_singleton].
    intros x Hx Hx'. apply list_elem_of_singleton in Hx'. now subst.
Qed.

(** An order on keys survives [set] when a new key comes after all. *)
Lemma set_sorted (R : relation string) m k v :
  StronglySorted (fun e1 e2 => R e1.1 e2.1) m ->
  (k ∉ m.*1 -> forall e, e ∈ m -> R e.1 k) ->
  StronglySorted (fun e1 e2 => R e1.1 e2.1) (JsMap.set m k v).
Proof.
  intros Hs Hnew. destruct (decide (k ∈ m.*1)) as [H|H].
  - clear Hnew. induction Hs as [|[k' v'] m Hs IH Hk']; simpl.
    + now apply not_elem_of_nil in H.
    + destruct (String.eqb_spec k k') as [E|E].
      * constructor; [exact Hs | exact Hk'].
      * simpl in H. apply elem_of_cons in H as [H|H]; [congruence|].
        constructor; [now apply IH|].
        rewrite Forall_forall in Hk' |- *. intros [n c] Hin. simpl.
        assert (Hn : n ∈ (JsMap.set m k v).*1).
        { apply list_elem_of_fmap. now exists (n, c). }
        rewrite set_present_keys in Hn by exact H.
        apply list_elem_of_fmap in Hn as ([n' c'] & -> & Hn).
        exact (Hk' _ Hn).
  - rewrite set_absent by exact H.
    apply StronglySorted_app_2; [|exact Hs|repeat constructor].
    intros e1 e2 H1 H2. apply list_elem_of_singleton in H2. subst e2. simpl.
    now apply Hnew.
Qed.

End JsMapFacts.

Section ServiceCounts.

Lemma StronglySorted_impl_in {A} (R1 R2 : relation A) (l : list A) :
  (forall a b, a ∈ l -> b ∈ l -> R1 a b -> R2 a b) ->
  StronglySorted R1 l -> StronglySorted R2 l.
Proof.
  intros H Hs. induction Hs as [|x l Hs IH Hx]; constructor.
  - apply IH. intros a b Ha Hb. apply H; now right.
  - rewrite Forall_forall in Hx |- *. intros y Hy.
    apply H; [now left | now right | now apply Hx].
Qed.

(** Counting one more occurrence adds one to the sum of the counts. *)
Lemma set_increment_sum (m : JsMap.t nat) k :
  list_sum (JsMap.set m k (default 0 (JsMap.get m k) + 1)).*2 = S (list_sum m.*2).
Proof.
  induction m as [|[k' v'] m IH]; cbn [JsMap.set JsMap.get]; [reflexivity|].
  destruct (String.eqb_spec k k') as [E|E]; rewrite !fmap_cons; simpl.
  - lia.
  - rewrite IH. lia.
Qed.

(** The map of the [forEach] depends on the service names only. *)
Lemma serviceCounts_names (l : list Appointment.t) :
  serviceCounts (Some l)
  = fold_left (fun m n => JsMap.set m n (default 0 (JsMap.get m n) + 1))
              (service_names l) JsMap.empty.
Proof.
  unfold serviceCounts, service_names. generalize (@JsMap.empty nat).
  induction l as [|a l IH]; intros m; simpl; [reflexivity|].
  unfold count_service at 2. destruct (service_name a); simpl; apply IH.
Qed.

(** After the loop the map holds every name met, in the order the names
    were first met, each with the number of its occurrences. *)
Lemma counted (names : list string) :
  let m := fold_left (fun m n => JsMap.set m n (default 0 (JsMap.get m n) + 1))
                     names JsMap.empty in
  NoDup m.*1
  /\ (forall n c, (n, c) ∈ m <-> n ∈ names /\ c = occurrences n names)
  /\ StronglySorted
       (fun e1 e2 => (first_index e1.1 names < first_index e2.1 names)%nat) m
  /\ list_sum m.*2 = length names.
Proof.
  induction names as [|x names IH] using rev_ind.
  - simpl. split; [constructor|]. split; [|split; [constructor | reflexivity]].
    intros n c. split; [intros H | intros [H _]]; now apply not_elem_of_nil in H.
  - rewrite fold_left_app. cbn [fold_left].
    set (m := fold_left _ names JsMap.empty) in *. cbv zeta in IH.
    destruct IH as (Hnd & Hin & Hs & Hsum).
    set (v := (default 0 (JsMap.get m x) + 1)%nat).
    assert (Hkeys : forall n, n ∈ m.*1 <-> n ∈ names).
    { intros n. rewrite list_elem_of_fmap. split.
      - intros ([n' c] & -> & H). now apply Hin in H.
      - intros H. exists (n, occurrences n names). split; [reflexivity|].
        now apply Hin. }
    assert (Hv : v = occurrences x (names ++ [x])).
    { unfold v. rewrite occurrences_app.
      assert (E1 : occurrences x [x] = 1%nat).
      { unfold occurrences. simpl. destruct (string_dec x x); congruence. }
      rewrite E1. f_equal.
      destruct (decide (x ∈ names)) as [H|H].
      - rewrite (get_present m x (occurrences x names)); [reflexivity | exact Hnd |].
        now apply Hin.
      - rewrite get_absent; [|now rewrite Hkeys].
        now rewrite occurrences_absent. }
    assert (Hocc : forall n, n <> x -> occurrences n (names ++ [x]) = occurrences n names).
    { intros n Hn. rewrite occurrences_app. unfold occurrences at 2. simpl.
      destruct (string_dec x n); [congruence | lia]. }
    split; [now apply set_keys_NoDup|]. split; [|split].
    + intros n c. rewrite (elem_of_set m x v n c Hnd), elem_of_app, list_elem_of_singleton.
      split.
      * intros [[-> ->]|[Hne H]]; [now split; [right|]|].
        apply Hin in H as [H ->]. split; [now left | now rewrite Hocc].
      * intros [H ->]. destruct (decide (n = x)) as [->|Hne]; [now left|].
        right. split; [exact Hne|]. apply Hin. split; [|now rewrite Hocc].
        destruct H; [assumption | contradiction].
    + apply (set_sorted (fun a b => (first_index a (names ++ [x])
                                     < first_index b (names ++ [x]))%nat)).
      * revert Hs. apply StronglySorted_impl_in. intros [a ca] [b cb] Ha Hb. simpl.
        apply Hin in Ha as [Ha _]. apply Hin in Hb as [Hb _].
        now rewrite !first_index_app_l.
      * intros Hx [n c] He. simpl. apply Hin in He as [Hn _].
        rewrite Hkeys in Hx.
        rewrite (first_index_app_l n names [x] Hn), (first_index_app_r x names Hx).
        now apply first_index_lt.
    + unfold v. rewrite set_increment_sum, Hsum, length_app. simpl. lia.
Qed.

End ServiceCounts.

Lemma list_sum_Permutation (xs ys : list nat) : xs ≡ₚ ys -> list_sum xs = list_sum ys.
Proof. induction 1; simpl; lia. Qed.

Section TopServices.

Variable l : list Appointment.t.

Let names : list string := service_names l.
Let entry : string * nat -> ServiceCount.t := fun '(name, count) => ServiceCount.mk name count.

(** The ranking is the head of a list that holds one entry per name met,
    with its number of occurrences, in ranking order. *)
Lemma ranking_structure :
  exists ranked : list ServiceCount.t,
    calc_topServices (Some l) = take 5 ranked
    /\ NoDup (ServiceCount.name <$> ranked)
    /\ (forall e, e ∈ ranked <->
                  ServiceCount.name e ∈ names
                  /\ ServiceCount.count e = occurrences (ServiceCount.name e) names)
    /\ StronglySorted (ranks_before names) ranked
    /\ total_count ranked = length names.
Proof.
  pose proof (counted names) as Hc. cbv zeta in Hc.
  unfold names in Hc. rewrite <- serviceCounts_names in Hc. fold names in Hc.
  destruct Hc as (Hnd & Hin & Hs & Hsum).
  set (m := serviceCounts (Some l)) in *.
  set (es := map entry (JsMap.entries m)).
  assert (Hperm : sort by_count_desc es ≡ₚ es) by apply sort_Permutation.
  assert (Hnames : ServiceCount.name <$> es = m.*1).
  { unfold es, JsMap.entries. clear.
    induction m as [|[n c] m' IH]; [reflexivity|]. simpl. f_equal. exact IH. }
  assert (Hcounts : ServiceCount.count <$> es = m.*2).
  { unfold es, JsMap.entries. clear.
    induction m as [|[n c] m' IH]; [reflexivity|]. simpl. f_equal. exact IH. }
  assert (Hes : es = entry <$> (m : list (string * nat))) by reflexivity.
  exists (sort by_count_desc es). split; [reflexivity|]. split; [|split; [|split]].
  - rewrite Hperm, Hnames. exact Hnd.
  - intros [n c]. rewrite Hperm, Hes, list_elem_of_fmap. simpl. split.
    + intros ([n' c'] & [= -> ->] & H). now apply Hin.
    + intros [H1 H2]. exists (n, c). split; [reflexivity|]. now apply Hin.
  - apply (sort_before ServiceCount.count
             (fun e => first_index (ServiceCount.name e) names)).
    rewrite Hes. revert Hs. apply StronglySorted_fmap. now intros [n1 c1] [n2 c2].
  - assert (Hp : ServiceCount.count <$> sort by_count_desc es
                 ≡ₚ ServiceCount.count <$> es) by now rewrite Hperm.
    unfold total_count.
    change (list_sum (ServiceCount.count <$> sort by_count_desc es) = length names).
    rewrite (list_sum_Permutation _ _ Hp), Hcounts. exact Hsum.
Qed.

End TopServices.

Section TakeFacts.

Context {A : Type}.

Lemma elem_of_take_l (n : nat) (xs : list A) x : x ∈ take n xs -> x ∈ xs.
Proof. intros H. rewrite <- (take_drop n xs). apply elem_of_app. now left. Qed.

Lemma elem_of_take_or_drop (n : nat) (xs : list A) x :
  x ∈ xs -> x ∈ take n xs \/ x ∈ drop n xs.
Proof. intros H. rewrite <- (take_drop n xs) in H. now apply elem_of_app in H. Qed.

Lemma take_full_of_drop (n : nat) (xs : list A) x :
  x ∈ drop n xs -> length (take n xs) = n.
Proof.
  intros H. rewrite length_take.
  destruct (Nat.le_gt_cases (length xs) n) as [Hle|Hgt]; [|lia].
  rewrite drop_ge in H by exact Hle. now apply not_elem_of_nil in H.
Qed.

End TakeFacts.

(** With counts A:3, B:5, C:5, D:1 and B met before C there is one
    ranking. *)
Section RankingExample.

Variable l : list Appointment.t.
Let names : list string := service_names l.

Hypothesis only_ABCD : forall n, n ∈ names -> n ∈ ["A"; "B"; "C"; "D"].
Hypothesis count_A : occurrences "A" names = 3%nat.
Hypothesis count_B : occurrences "B" names = 5%nat.
Hypothesis count_C : occurrences "C" names = 5%nat.
Hypothesis count_D : occurrences "D" names = 1%nat.
Hypothesis B_before_C : (first_index "B" names < first_index "C" names)%nat.

Let expected : list ServiceCount.t :=
[ServiceCount.mk "B" 5; ServiceCount.mk "C" 5;
 ServiceCount.mk "A" 3; ServiceCount.mk "D" 1].

Lemma ranking_of_ABCD : calc_topServices (Some l) = expected.
Proof.
destruct (ranking_structure l) as (ranked & Htop & Hnd & Hin & Hs & _).
fold names in Hin, Hs.
assert (Hmem : forall e, e ∈ ranked <-> e ∈ expected).
{ intros [n c]. rewrite Hin. simpl. unfold expected.
  rewrite !elem_of_cons, elem_of_nil. split.
  - intros [Hn ->]. apply only_ABCD in Hn.
    rewrite !elem_of_cons, elem_of_nil in Hn.
    destruct Hn as [->|[->|[->|[->|[]]]]];
      rewrite ?count_A, ?count_B, ?count_C, ?count_D; tauto.
  - assert (Hp : forall n, (0 < occurrences n names)%nat -> n ∈ names).
    { intros n' H. apply list_elem_of_In. now apply (count_occ_In string_dec). }
    intros [[= -> ->]|[[= -> ->]|[[= -> ->]|[[= -> ->]|[]]]]];
      (split; [apply Hp; lia | congruence]). }
assert (Hnd' : NoDup ranked) by exact (NoDup_fmap_1 _ _ Hnd).
assert (Hexp : NoDup expected).
{ unfold expected. repeat constructor; rewrite ?elem_of_cons, ?elem_of_nil;
    intros H; repeat destruct H as [H|H]; try discriminate H; exact H. }
assert (Hperm : ranked ≡ₚ expected) by now apply NoDup_Permutation.
assert (Hsorted : StronglySorted (ranks_before names) expected).
{ unfold expected.
  repeat apply SSorted_cons; try apply SSorted_nil;
    repeat apply List.Forall_cons; try apply List.Forall_nil;
    unfold ranks_before; simpl; try (left; lia).
  right. split; [reflexivity | exact B_before_C]. }
assert (Heq : ranked = expected).
{ apply (StronglySorted_unique_strong (ranks_before names)); try assumption.
  intros [n1 c1] [n2 c2] _ _. unfold ranks_before. simpl.
  intros [H1|[H1 H1']] [H2|[H2 H2']]; lia. }
rewrite Htop, Heq. reflexivity.
Qed.

End RankingExample.

(** C5. The ranking lists at most five services, each once and with the
    number of records that name it; it is ordered by descending count, and
    among equal counts by the order in which the names were first met; a
    service left out of the list ranks behind every service in it, and the
    list then has five entries. Whenever the counts are A:3, B:5, C:5, D:1
    and B was met before C, it is [B(5), C(5), A(3), D(1)]. *)
Theorem top_services_ranking (l : list Appointment.t) :
  let names := service_names l in
  let top := calc_topServices (Some l) in
  (length top <= 5)%nat
  /\ NoDup (map ServiceCount.name top)
  /\ (forall e, e ∈ top ->
                ServiceCount.name e ∈ names
                /\ ServiceCount.count e = occurrences (ServiceCount.name e) names)
  /\ StronglySorted (ranks_before names) top
  /\ (forall n, n ∈ names -> n ∉ map ServiceCount.name top ->
                length top = 5%nat
                /\ forall e, e ∈ top ->
                             ranks_before names e (ServiceCount.mk n (occurrences n names)))
  /\ ((forall n, n ∈ names -> n ∈ ["A"; "B"; "C"; "D"]) ->
      occurrences "A" names = 3%nat -> occurrences "B" names = 5%nat ->
      occurrences "C" names = 5%nat -> occurrences "D" names = 1%nat ->
      (first_index "B" names < first_index "C" names)%nat ->
      top = [ServiceCount.mk "B" 5; ServiceCount.mk "C" 5;
             ServiceCount.mk "A" 3; ServiceCount.mk "D" 1]).
Proof.
  intros names top.
  destruct (ranking_structure l) as (ranked & Htop & Hnd & Hin & Hs & _).
  fold names in Hin, Hs. fold top in Htop.
  split; [|split; [|split; [|split; [|split]]]].
  - rewrite Htop, length_take. lia.
  - rewrite Htop. change (NoDup (ServiceCount.name <$> take 5 ranked)).
    rewrite <- (take_drop 5 ranked), fmap_app in Hnd.
    now apply NoDup_app in Hnd as [Hnd _].
  - intros e He. rewrite Htop in He. apply Hin. now apply elem_of_take_l in He.
  - rewrite Htop. rewrite <- (take_drop 5 ranked) in Hs.
    now apply StronglySorted_app_1_l in Hs.
  - intros n Hn Hout.
    set (e' := ServiceCount.mk n (occurrences n names)).
    assert (He' : e' ∈ ranked) by (apply Hin; now split).
    destruct (elem_of_take_or_drop 5 ranked e' He') as [H|H].
    + exfalso. apply Hout. rewrite Htop.
      change (ServiceCount.name e' ∈ ServiceCount.name <$> take 5 ranked).
      now apply list_elem_of_fmap_2.
    + split.
      * rewrite Htop. exact (take_full_of_drop 5 ranked e' H).
      * intros e He. rewrite Htop in He.
        rewrite <- (take_drop 5 ranked) in Hs.
        exact (StronglySorted_app_1_elem_of _ _ _ _ _ Hs He H).
  - apply ranking_of_ABCD.
Qed.

Lemma top_services_ranking_witness :
  calc_topServices (Some ranking_records)
  = [ServiceCount.mk "B" 5; ServiceCount.mk "C" 5;
     ServiceCount.mk "A" 3; ServiceCount.mk "D" 1]
  /\ forall e, e ∈ calc_topServices (Some ranking_records) ->
                ServiceCount.count e
                = occurrences (ServiceCount.name e) (service_names ranking_records).
Proof.
  pose proof (top_services_ranking ranking_records) as (_ & _ & Hin & _ & _ & Hex).
  cbv zeta in Hin, Hex. split.
  - apply Hex; try reflexivity.
    + intros n Hn. apply list_elem_of_In in Hn. apply list_elem_of_In.
      vm_compute in Hn. simpl.
      repeat (destruct Hn as [<-|Hn]; [tauto|]). destruct Hn.
    + vm_compute. lia.
  - intros e He. now apply Hin.
Defined.

Section UnnamedServices.

Lemma service_names_filter (l : list Appointment.t) :
  service_names (List.filter has_service_name l) = service_names l.
Proof.
  induction l as [|a l IH]; [reflexivity|].
  cbn [List.filter]. unfold has_service_name at 1.
  destruct (service_name a) as [n|] eqn:E.
  - change (service_names (a :: List.filter has_service_name l))
      with (from_option (fun y => y :: service_names (List.filter has_service_name l))
                        (service_names (List.filter has_service_name l)) (service_name a)).
    change (service_names (a :: l))
      with (from_option (fun y => y :: service_names l) (service_names l) (service_name a)).
    now rewrite E, IH.
  - change (service_names (a :: l))
      with (from_option (fun y => y :: service_names l) (service_names l) (service_name a)).
    now rewrite E.
Qed.

Lemma length_service_names (l : list Appointment.t) :
  length (service_names l) = length (List.filter has_service_name l).
Proof.
  induction l as [|a l IH]; [reflexivity|].
  cbn [List.filter]. unfold has_service_name at 1.
  change (service_names (a :: l))
    with (from_option (fun y => y :: service_names l) (service_names l) (service_name a)).
  destruct (service_name a) as [n|]; simpl; now rewrite IH.
Qed.

Lemma occurrences_service_names n (l : list Appointment.t) :
  occurrences n (service_names l) = length (List.filter (has_service n) l).
Proof.
  induction l as [|a l IH]; [reflexivity|].
  cbn [List.filter]. unfold has_service at 1.
  change (service_names (a :: l))
    with (from_option (fun y => y :: service_names l) (service_names l) (service_name a)).
  destruct (service_name a) as [x|]; simpl; [|exact IH].
  unfold occurrences in *. simpl.
  destruct (string_dec x n) as [E|E], (String.eqb_spec x n) as [E'|E'];
    try congruence; simpl; now rewrite IH.
Qed.

Lemma total_count_take (n : nat) (xs : list ServiceCount.t) :
  (total_count (take n xs) <= total_count xs)%nat.
Proof.
  unfold total_count. rewrite <- (take_drop n xs) at 2.
  rewrite map_app, list_sum_app. lia.
Qed.

End UnnamedServices.

(** C10. A record has no service name to count when the joined service is
    missing, or its name is missing or empty. Such records do not enter the
    ranking: it is the ranking of the other records, every count in it is
    the number of records that carry that name, and the counts add up to at
    most the number of records with a name, which can be less than the
    number of records. *)
Theorem unnamed_services_not_counted (l : list Appointment.t) :
  let top := calc_topServices (Some l) in
  (forall a, has_service_name a = false <->
             Appointment.services a = None
             \/ (exists s, Appointment.services a = Some s
                           /\ (Service.name s = None \/ Service.name s = Some "")))
  /\ top = calc_topServices (Some (List.filter has_service_name l))
  /\ (forall e, e ∈ top ->
                ServiceCount.count e
                = length (List.filter (has_service (ServiceCount.name e)) l))
  /\ (total_count top <= length (List.filter has_service_name l) <= length l)%nat
  /\ (total_count (calc_topServices (Some unnamed_service_records))
      < length unnamed_service_records)%nat.
Proof.
  intros top. split; [|split; [|split; [|split]]].
  - intros a. unfold has_service_name, service_name.
    destruct (Appointment.services a) as [[[[|c s]|]]|]; simpl.
    + split; [intros _ | reflexivity].
      right. eexists. split; [reflexivity | now right].
    + split; [discriminate|].
      intros [H|(s' & Hs & H)]; [discriminate|].
      injection Hs as <-. destruct H; discriminate.
    + split; [intros _ | reflexivity].
      right. eexists. split; [reflexivity | now left].
    + split; [intros _; now left | reflexivity].
  - unfold top, calc_topServices.
    now rewrite !serviceCounts_names, service_names_filter.
  - intros e He.
    destruct (ranking_structure l) as (ranked & Htop & _ & Hin & _).
    fold top in Htop. rewrite Htop in He. apply elem_of_take_l in He.
    apply Hin in He as [_ ->]. apply occurrences_service_names.
  - destruct (ranking_structure l) as (ranked & Htop & _ & _ & _ & Hsum).
    fold top in Htop. rewrite Htop. split.
    + etransitivity; [apply total_count_take|].
      now rewrite Hsum, length_service_names.
    + apply filter_length_le.
  - vm_compute. lia.
Qed.

Lemma unnamed_services_not_counted_witness :
  ServiceCount.count (ServiceCount.mk "A" 2)
  = length (List.filter (has_service "A") unnamed_service_records).
Proof.
  pose proof (unnamed_services_not_counted unnamed_service_records) as (_ & _ & H & _).
  apply (H (ServiceCount.mk "A" 2)).
  vm_compute. left.
Defined.

(** ** One iteration of the loop *)

Section Iteration.

Variable env : Env.
Variables first last : Z.
Variable business : Business.t.

Let query : Event :=
  SelectAppointments (Business.id business) (iso_date first) (iso_date last).
Let answer (tr : list Event) : Outcome (list Appointment.t) :=
  env_appointments env tr (Business.id business) (iso_date first) (iso_date last).
Let mail (appointments : option (list Appointment.t)) : Email :=
  report_email (env_tza env) (reportData appointments business) first.

(** The condition of the [if] is the qualification of the business. *)
Lemma qualifies_spec (appointments : option (list Appointment.t)) :
  let data := reportData appointments business in
  (0 <? totalAppointments data)%nat && JsString.truthy (ownerEmail data) = true
  <-> has_activity appointments /\ has_address business.
Proof.
  unfold has_activity, has_address. simpl.
  rewrite andb_true_iff, Nat.ltb_lt.
  apply and_iff_compat_l.
  destruct (Business.email business) as [[|c s]|]; simpl; split;
    try discriminate; try reflexivity.
  - intros (a & [= <-] & H). congruence.
  - intros _. eexists. split; [reflexivity | discriminate].
  - intros (a & H & _). discriminate.
Qed.

(** Everything one iteration can do, by the answers it gets. *)
Lemma process_business_cases (tr : list Event) :
  process_business env first last business tr
  = match answer tr with
    | Rejected e =>
        (Ok tt, tr ++ [query;
                       ConsoleError ("Error processing business "
                                       ++ Business.id business ++ ":") e])
    | Resolved _ (Some e) =>
        (Ok tt, tr ++ [query;
                       ConsoleError ("Error fetching appointments for business "
                                       ++ Business.id business ++ ":") e])
    | Resolved appointments None =>
        let data := reportData appointments business in
        if (0 <? totalAppointments data)%nat && JsString.truthy (ownerEmail data)
        then
          match env_send env (tr ++ [query]) (mail appointments) with
          | Resolved _ _ =>
              (Ok tt, tr ++ [query; SendEmail (mail appointments);
                             ConsoleLog ("Sent monthly report to " ++ ownerEmail data
                                           ++ " for " ++ businessName data)])
          | Rejected e =>
              (Ok tt, tr ++ [query; SendEmail (mail appointments);
                             ConsoleError ("Error processing business "
                                             ++ Business.id business ++ ":") e])
          end
        else (Ok tt, tr ++ [query])
    end%list.
Proof.
  unfold process_business, try_catch, report_business, mbind, M_bind, await.
  fold query. fold (answer tr).
  destruct (answer tr) as [appointments [e|]|e]; unfold emit.
  - rewrite <- app_assoc. reflexivity.
  - cbv zeta.
    destruct ((0 <? totalAppointments (reportData appointments business))%nat
              && JsString.truthy (ownerEmail (reportData appointments business))).
    + unfold sendMonthlyReport, mbind, M_bind, await, mret, M_ret, emit.
      fold (mail appointments).
      destruct (env_send env (tr ++ [query]) (mail appointments)) as [d e|e];
        rewrite <- !app_assoc; reflexivity.
    + reflexivity.
  - rewrite <- app_assoc. reflexivity.
Qed.

(** No iteration throws, and each starts with its query. *)
Lemma process_business_ok (tr : list Event) :
  exists evs, process_business env first last business tr = (Ok tt, tr ++ query :: evs)%list.
Proof.
  rewrite process_business_cases.
  destruct (answer tr) as [appointments [e|]|e]; try (eexists; reflexivity).
  cbv zeta.
  destruct (_ && _); [|eexists; reflexivity].
  destruct (env_send _ _ _); eexists; reflexivity.
Qed.

End Iteration.

(** C3. When the query for a business's appointments succeeds, the
    iteration attempts exactly one dispatch if the business had at least one
    appointment in the window and has a non-empty contact address: the
    report built from those appointments. Otherwise it attempts none, logs
    no error, and does nothing after the query. In both cases it ends
    normally. *)
Theorem dispatch_iff_qualifying (env : Env) (first last : Z) (business : Business.t)
    (tr : list Event) (appointments : option (list Appointment.t)) :
  env_appointments env tr (Business.id business) (iso_date first) (iso_date last)
  = Resolved appointments None ->
  exists evs,
    process_business env first last business tr = (Ok tt, tr ++ evs)%list
    /\ (dispatches evs = 1%nat <-> has_activity appointments /\ has_address business)
    /\ (has_activity appointments /\ has_address business ->
        List.filter is_dispatch evs
        = [SendEmail (report_email (env_tza env) (reportData appointments business) first)])
    /\ (~ (has_activity appointments /\ has_address business) ->
        dispatches evs = 0%nat /\ errors evs = 0%nat
        /\ evs = [SelectAppointments (Business.id business) (iso_date first) (iso_date last)]).
Proof.
  intros Hq. rewrite process_business_cases, Hq. cbv zeta.
  pose proof (qualifies_spec business appointments) as Hspec. cbv zeta in Hspec.
  destruct ((0 <? totalAppointments (reportData appointments business))%nat
            && JsString.truthy (ownerEmail (reportData appointments business))) eqn:Hc.
  - assert (Hyes : has_activity appointments /\ has_address business) by now apply Hspec.
    destruct (env_send env _ _) as [d e|e]; eexists; (split; [reflexivity|]);
      (split; [split; [intros _; exact Hyes | reflexivity]|]);
      (split; [reflexivity | intros Hno; contradiction]).
  - assert (Hno : ~ (has_activity appointments /\ has_address business)).
    { intros H. apply Hspec in H. discriminate. }
    eexists. split; [reflexivity|]. split; [|split].
    + split; [discriminate | intros H; contradiction].
    + intros H. contradiction.
    + intros _. repeat split.
Qed.

Lemma dispatch_iff_qualifying_witness :
  exists evs,
    process_business sample_env 0 0 sample_business [] = (Ok tt, [] ++ evs)%list
    /\ dispatches evs = 1%nat.
Proof.
  destruct (dispatch_iff_qualifying sample_env 0 0 sample_business []
              (Some sample_revenue_records) eq_refl) as (evs & Hrun & Hiff & _).
  exists evs. split; [exact Hrun|]. apply Hiff. split.
  - unfold has_activity. simpl. lia.
  - exists "owner@salon.test". split; [reflexivity | discriminate].
Defined.

(** ** The loop and the run *)

Section Loop.

Variable env : Env.
Variables first last : Z.


(** The loop never throws: it gives every business its iteration. *)
Lemma for_of_process_ok (bs : list Business.t) (tr : list Event) :
  exists evs,
    for_of bs (process_business env first last) tr = (Ok tt, tr ++ evs)%list.
Proof.
  revert tr. induction bs as [|b bs IH]; intros tr.
  - exists []. simpl. now rewrite app_nil_r.
  - destruct (process_business_ok env first last b tr) as (evs1 & H1).
    match type of H1 with _ = (_, ?t) => destruct (IH t) as (evs2 & H2) end.
    eexists. cbn [for_of]. unfold mbind, M_bind. rewrite H1, H2.
    rewrite <- app_assoc. reflexivity.
Qed.

End Loop.

Section Run.

Variable env : Env.
Variable req : Request.
Hypothesis not_preflight : method req <> "OPTIONS".

Let first : Z := firstDayLastMonth (env_tza env) (env_now env).
Let last : Z := lastDayLastMonth (env_tza env) (env_now env).

Lemma handler_not_preflight :
  handler env req
  = try_catch (run_reports env)
      (fun error =>
         emit (ConsoleError "Error in send-monthly-report function:" error) ;;
         mret (json_response 500 [("error", JsonString (message error))])).
Proof.
  unfold handler. destruct (String.eqb_spec (method req) "OPTIONS"); [contradiction|].
  reflexivity.
Qed.

(** A failure outside the loop: the answer is 500 with the message, and
    no business has been touched. *)
Lemma run_failure_case (e : JsError) :
  run_failure env = Some e ->
  exists tr,
    run env req = (Ok (json_response 500 (error_body e)), tr)
    /\ Forall (fun ev => is_business_work ev = false) tr.
Proof.
  unfold run_failure, run. rewrite handler_not_preflight.
  unfold try_catch, run_reports, mbind, M_bind, await, throw, emit, mret, M_ret.
  destruct (env_createClient env) as [e0|].
  - intros [= ->]. eexists. split; [reflexivity|]. repeat constructor.
  - destruct (env_businesses env) as [data [e1|]|e1]; intros [= ->];
      (eexists; split; [reflexivity|]; repeat constructor).
Qed.

(** No failure outside the loop: every business gets its iteration and
    the answer is 200. *)
Lemma run_success_case :
  run_failure env = None ->
  exists data evs,
    env_businesses env = Resolved data None
    /\ for_of (default [] data) (process_business env first last)
         [SelectBusinesses;
          ConsoleLog ("Processing monthly reports for "
                        ++ JsString.of_nat (length (default [] data)) ++ " businesses")]
       = (Ok tt, evs)
    /\ run env req = (Ok (json_response 200 success_body), evs).
Proof.
  unfold run_failure, run. rewrite handler_not_preflight.
  unfold try_catch, run_reports, mbind, M_bind, await, throw, emit, mret, M_ret.
  destruct (env_createClient env) as [e0|]; [discriminate|].
  destruct (env_businesses env) as [data [e1|]|e1]; try discriminate.
  intros _. exists data. fold first last. cbn [app].
  destruct (for_of_process_ok env first last (default [] data)
              [SelectBusinesses;
               ConsoleLog ("Processing monthly reports for "
                             ++ JsString.of_nat (length (default [] data)) ++ " businesses")])
    as (evs & Hloop).
  eexists. rewrite Hloop. split; [reflexivity|]. split; reflexivity.
Qed.

End Run.

(** C4. A run (any request but the pre-flight) answers 500 exactly when
    the list of businesses cannot be retrieved or an exception is raised
    outside the loop over the businesses; the body is then [{ error }] with
    the message, and no business was queried or mailed. Otherwise the
    answer is 200 with [{ success: true, message }]. *)
Theorem run_response (env : Env) (req : Request) :
  method req <> "OPTIONS" ->
  exists resp tr,
    run env req = (Ok resp, tr)
    /\ (status resp = 500%Z <-> run_failure env <> None)
    /\ (forall e, run_failure env = Some e ->
                  status resp = 500%Z
                  /\ body resp = Some (error_body e)
                  /\ Forall (fun ev => is_business_work ev = false) tr)
    /\ (run_failure env = None ->
        status resp = 200%Z /\ body resp = Some success_body).
Proof.
  intros Hreq. destruct (run_failure env) as [e|] eqn:Hf.
  - destruct (run_failure_case env req Hreq e Hf) as (tr & Hrun & Hquiet).
    exists (json_response 500 (error_body e)), tr.
    split; [exact Hrun|]. split; [|split].
    + split; [discriminate | reflexivity].
    + intros e' [= <-]. repeat split. exact Hquiet.
    + discriminate.
  - destruct (run_success_case env req Hreq Hf) as (data & evs & _ & _ & Hrun).
    exists (json_response 200 success_body), evs.
    split; [exact Hrun|]. split; [|split].
    + split; [discriminate | congruence].
    + discriminate.
    + intros _. split; reflexivity.
Qed.

Lemma run_response_witness :
  (exists resp tr, run sample_env post = (Ok resp, tr)
                   /\ status resp = 200%Z /\ body resp = Some success_body)
  /\ (exists resp tr, run broken_env post = (Ok resp, tr)
                      /\ status resp = 500%Z /\ body resp = Some (error_body boom)).
Proof.
  split.
  - destruct (run_response sample_env post) as (resp & tr & Hrun & _ & _ & Hok);
      [discriminate|].
    exists resp, tr. split; [exact Hrun|]. apply Hok. reflexivity.
  - destruct (run_response broken_env post) as (resp & tr & Hrun & _ & Hko & _);
      [discriminate|].
    exists resp, tr. split; [exact Hrun|].
    destruct (Hko boom eq_refl) as (H1 & H2 & _). now split.
Defined.

Section Isolation.

Variable env : Env.
Variables first last : Z.


End Isolation.



(** ** The calendar *)

Section Calendar.

Import JsDate.
Local Open Scope Z_scope.

Ltac month_cases m :=
let H := fresh "Hc" in
assert (H : m = 0 \/ m = 1 \/ m = 2 \/ m = 3 \/ m = 4 \/ m = 5 \/ m = 6
            \/ m = 7 \/ m = 8 \/ m = 9 \/ m = 10 \/ m = 11) by lia;
repeat (destruct H as [->|H]); [..|subst m].

Ltac table_lookup :=
repeat match goal with
       | H : context [DaysBeforeMonth ?l ?k] |- _ =>
           let v := eval vm_compute in (DaysBeforeMonth l k) in
           change (DaysBeforeMonth l k) with v in H
       | |- context [DaysBeforeMonth ?l ?k] =>
           let v := eval vm_compute in (DaysBeforeMonth l k) in
           change (DaysBeforeMonth l k) with v
       end.

Lemma DayFromYear_succ y : DayFromYear (y + 1) = DayFromYear y + DaysInYear y.
Proof.
unfold DayFromYear, DaysInYear, isLeap.
destruct (Z.eqb_spec (y mod 4) 0), (Z.eqb_spec (y mod 100) 0),
  (Z.eqb_spec (y mod 400) 0); simpl; Z.div_mod_to_equations; lia.
Qed.

Lemma DayFromYear_le y1 y2 : y1 <= y2 -> DayFromYear y1 <= DayFromYear y2.
Proof. intros H. unfold DayFromYear. Z.div_mod_to_equations. lia. Qed.

(** [YearFromDay] gives the year of a day: the last year that starts on or
  before it. *)
Lemma YearFromDay_spec d :
DayFromYear (YearFromDay d) <= d < DayFromYear (YearFromDay d + 1).
Proof.
unfold YearFromDay.
set (y := 1970 + d * 400 / 146097).
destruct (Z.leb_spec (DayFromYear (y + 1)) d) as [H1|H1].
- split; [exact H1|]. unfold DayFromYear in *. subst y. Z.div_mod_to_equations. lia.
- destruct (Z.leb_spec (DayFromYear y) d) as [H2|H2].
  + lia.
  + split; [|replace (y - 1 + 1) with y by lia; lia].
    unfold DayFromYear in *. subst y. Z.div_mod_to_equations. lia.
Qed.

Lemma YearFromDay_unique d y :
DayFromYear y <= d < DayFromYear (y + 1) -> YearFromDay d = y.
Proof.
intros H. pose proof (YearFromDay_spec d) as Hs.
destruct (Z.lt_trichotomy (YearFromDay d) y) as [Hlt|[Heq|Hgt]]; [|exact Heq|].
- pose proof (DayFromYear_le (YearFromDay d + 1) y ltac:(lia)). lia.
- pose proof (DayFromYear_le (y + 1) (YearFromDay d) ltac:(lia)). lia.
Qed.

Lemma MonthFromTime_range t : 0 <= MonthFromTime t <= 11.
Proof.
unfold MonthFromTime.
repeat match goal with |- context [if ?b then _ else _] => destruct b end; lia.
Qed.

Lemma DaysBeforeMonth_bounds leap m :
leap = 0 \/ leap = 1 -> 0 <= m <= 11 ->
0 <= DaysBeforeMonth leap m
/\ DaysBeforeMonth leap (m + 1) <= 365 + leap
/\ 28 <= DaysBeforeMonth leap (m + 1) - DaysBeforeMonth leap m <= 31.
Proof. intros [-> | ->] Hm; month_cases m; table_lookup; lia. Qed.

(** The month of a day of the year, from the table of month lengths. *)
Lemma month_of_day_within_year leap d m :
leap = 0 \/ leap = 1 -> 0 <= m <= 11 ->
DaysBeforeMonth leap m <= d < DaysBeforeMonth leap (m + 1) ->
(if d <? 31 then 0
 else if d <? 59 + leap then 1
 else if d <? 90 + leap then 2
 else if d <? 120 + leap then 3
 else if d <? 151 + leap then 4
 else if d <? 181 + leap then 5
 else if d <? 212 + leap then 6
 else if d <? 243 + leap then 7
 else if d <? 273 + leap then 8
 else if d <? 304 + leap then 9
 else if d <? 334 + leap then 10
 else 11) = m.
Proof.
intros [-> | ->] Hm; month_cases m; clear Hm; intros Hd; table_lookup;
  repeat match goal with
         | |- context [(?a <? ?b)] => destruct (Z.ltb_spec a b); try lia
         end; reflexivity.
Qed.

Lemma leap_flag y : (if isLeap y then 1 else 0) = 0 \/ (if isLeap y then 1 else 0) = 1.
Proof. destruct (isLeap y); auto. Qed.

Lemma MakeDay_in_year y m d :
0 <= m <= 11 ->
MakeDay y m d = DayFromYear y + DaysBeforeMonth (if isLeap y then 1 else 0) m + d - 1.
Proof.
intros Hm. unfold MakeDay.
rewrite (Z.div_small m 12), (Z.mod_small m 12), Z.add_0_r by lia. reflexivity.
Qed.

(** A day made by [MakeDay] reads back as the civil date it was made
  from. *)
Lemma civil_of_MakeDay y m d t :
0 <= m <= 11 -> 1 <= d <= DaysInMonth y m -> Day t = MakeDay y m d ->
YearFromTime t = y /\ MonthFromTime t = m /\ DateFromTime t = d.
Proof.
intros Hm Hd Ht. rewrite (MakeDay_in_year y m d Hm) in Ht.
unfold DaysInMonth in Hd. cbv zeta in Hd.
pose proof (DaysBeforeMonth_bounds _ m (leap_flag y) Hm) as (Hb1 & Hb2 & Hb3).
assert (Hy : YearFromTime t = y).
{ unfold YearFromTime. apply YearFromDay_unique.
  rewrite DayFromYear_succ, Ht. unfold DaysInYear in *.
  destruct (isLeap y); lia. }
assert (Hw : DayWithinYear t
             = DaysBeforeMonth (if isLeap y then 1 else 0) m + d - 1).
{ unfold DayWithinYear. rewrite Hy, Ht. lia. }
assert (Hmonth : MonthFromTime t = m).
{ unfold MonthFromTime. cbv zeta. unfold InLeapYear. rewrite Hy.
  apply month_of_day_within_year; [apply leap_flag | exact Hm | lia]. }
split; [exact Hy|]. split; [exact Hmonth|].
unfold DateFromTime, InLeapYear. rewrite Hmonth, Hy, Hw. lia.
Qed.

Lemma previous_month_range y m :
0 <= m <= 11 -> 0 <= (previous_month y m).2 <= 11.
Proof.
intros Hm. unfold previous_month. destruct (Z.eqb_spec m 0); simpl; lia.
Qed.

(** Month [m - 1] of [MakeDay] is the month before. *)
Lemma MakeDay_previous y m d :
0 <= m <= 11 ->
MakeDay y (m - 1) d = MakeDay (previous_month y m).1 (previous_month y m).2 d.
Proof.
intros Hm. unfold previous_month. destruct (Z.eqb_spec m 0) as [->|Hne]; simpl.
- unfold MakeDay.
  change ((0 - 1) / 12) with (-1). change ((0 - 1) mod 12) with 11.
  change (11 / 12) with 0. change (11 mod 12) with 11.
  replace (y + -1) with (y - 1 + 0) by lia. reflexivity.
- reflexivity.
Qed.

(** Date 0 of [MakeDay] is the last day of the month before. *)
Lemma MakeDay_zero y m :
0 <= m <= 11 ->
MakeDay y m 0
= MakeDay (previous_month y m).1 (previous_month y m).2
    (DaysInMonth (previous_month y m).1 (previous_month y m).2).
Proof.
intros Hm.
rewrite (MakeDay_in_year y m 0 Hm),
  (MakeDay_in_year _ _ _ (previous_month_range y m Hm)).
unfold previous_month, DaysInMonth. destruct (Z.eqb_spec m 0) as [->|Hne]; cbn [fst snd].
- replace y with (y - 1 + 1) at 1 by lia. rewrite DayFromYear_succ.
  unfold DaysInYear. destruct (isLeap (y - 1)), (isLeap y); table_lookup; lia.
- replace (m - 1 + 1) with m by lia. lia.
Qed.

(** Local midnight of day [D], read with the offset [o], as a UTC day:
  [D] itself at and west of Greenwich, the day before east of it. *)
Lemma Day_local_midnight_west o D :
- msPerDay < o <= 0 -> Day (MakeDate D 0 - o) = D.
Proof.
unfold Day, MakeDate, msPerDay. intros H. Z.div_mod_to_equations. lia.
Qed.

Lemma Day_local_midnight_east o D :
0 < o <= msPerDay -> Day (MakeDate D 0 - o) = D - 1.
Proof.
unfold Day, MakeDate, msPerDay. intros H. Z.div_mod_to_equations. lia.
Qed.

End Calendar.

(** ** The reporting window, for every clock reading *)

Section WindowStrings.

Import JsString.

(** Digits hold no "T". *)
Lemma split_head_numeral s ds r :
numeral s ds -> split_head "T" (s ++ r) = s ++ split_head "T" r.
Proof.
unfold numeral. revert ds. induction s as [|c s IH]; intros ds H; [reflexivity|].
simpl in H. destruct (digit_of c) as [d|] eqn:Hc; [|discriminate].
destruct (span_digits s) as [ds' r'] eqn:E. inversion H; subst.
change (split_head "T" (String c (s ++ r)) = String c (s ++ split_head "T" r)).
cbn [split_head].
destruct (Ascii.eqb_spec c "T") as [->|_]; [discriminate Hc|].
now rewrite (IH ds' eq_refl).
Qed.

Lemma pad_numeral w n : exists ds, numeral (JsDate.pad w n) ds.
Proof.
unfold JsDate.pad. destruct (of_N_numeral (Z.to_N n)) as (ds & H & _).
eexists. apply pad0_numeral. exact H.
Qed.

Lemma split_head_pad w n r :
split_head "T" (JsDate.pad w n ++ r) = JsDate.pad w n ++ split_head "T" r.
Proof. destruct (pad_numeral w n) as (ds & H). exact (split_head_numeral _ ds r H). Qed.

Lemma split_head_iso_year y r :
split_head "T" (JsDate.iso_year y ++ r) = JsDate.iso_year y ++ split_head "T" r.
Proof.
unfold JsDate.iso_year. destruct ((0 <=? y)%Z && (y <=? 9999)%Z).
- apply split_head_pad.
- destruct (y <? 0)%Z.
  + change (String "-" (split_head "T" (JsDate.pad 6 (Z.abs y) ++ r))
            = String "-" (JsDate.pad 6 (Z.abs y) ++ split_head "T" r)).
    now rewrite split_head_pad.
  + change (String "+" (split_head "T" (JsDate.pad 6 (Z.abs y) ++ r))
            = String "+" (JsDate.pad 6 (Z.abs y) ++ split_head "T" r)).
    now rewrite split_head_pad.
Qed.

(** The date part of the ISO string is the UTC civil date of the time
  value. *)
Lemma iso_date_civil t :
iso_date t
= date_string (JsDate.YearFromTime t) (JsDate.MonthFromTime t) (JsDate.DateFromTime t).
Proof.
unfold iso_date, JsDate.toISOString, date_string. cbv zeta.
rewrite split_head_iso_year.
change (split_head "T" ("-" ++ ?x)) with (String "-" (split_head "T" x)).
rewrite split_head_pad.
change (split_head "T" ("-" ++ ?x)) with (String "-" (split_head "T" x)).
rewrite split_head_pad.
change (split_head "T" ("T" ++ ?x)) with "".
now rewrite string_app_nil_r.
Qed.

End WindowStrings.

Section WindowGeneral.

Import JsDate.
Local Open Scope Z_scope.

Variable tz : TimeZone.
Variable now : Z.

Let y : Z := getFullYear tz now.
Let m : Z := getMonth tz now.
Let y1 : Z := (previous_month y m).1.
Let m1 : Z := (previous_month y m).2.

(** The offsets by which the two local midnights are read. *)
Let o1 : Z := offset_of_local tz (first_local_midnight tz now).
Let o2 : Z := offset_of_local tz (last_local_midnight tz now).

(** Years 0 to 99 are read by the Date constructor as 1900 to 1999. *)
Hypothesis four_digit_year : ~ 0 <= y <= 99.

Lemma m_range : 0 <= m <= 11.
Proof. apply MonthFromTime_range. Qed.

Lemma m1_range : 0 <= m1 <= 11.
Proof. apply previous_month_range, m_range. Qed.

Lemma first_midnight :
firstDayLastMonth tz now = MakeDate (MakeDay y1 m1 1) 0 - o1.
Proof.
unfold o1, first_local_midnight, firstDayLastMonth, new_Date, UTC. cbv zeta.
fold y m. fold y1 m1.
destruct (Z.leb_spec 0 y), (Z.leb_spec y 99); cbn [andb]; try lia;
  now rewrite (MakeDay_previous y m 1 m_range).
Qed.

Lemma last_midnight :
lastDayLastMonth tz now = MakeDate (MakeDay y1 m1 (DaysInMonth y1 m1)) 0 - o2.
Proof.
unfold o2, last_local_midnight, lastDayLastMonth, new_Date, UTC. cbv zeta.
fold y m. fold y1 m1.
destruct (Z.leb_spec 0 y), (Z.leb_spec y 99); cbn [andb]; try lia;
  now rewrite (MakeDay_zero y m m_range).
Qed.

Lemma DaysInMonth_bounds yy mm : 0 <= mm <= 11 -> 28 <= DaysInMonth yy mm <= 31.
Proof.
intros H. unfold DaysInMonth.
apply (DaysBeforeMonth_bounds _ mm (leap_flag yy) H).
Qed.

(** Read at or west of Greenwich, a bound is the day it was built for. *)
Lemma lower_bound_west :
- msPerDay < o1 <= 0 -> iso_date (firstDayLastMonth tz now) = date_string y1 m1 1.
Proof.
intros Ho. rewrite iso_date_civil.
pose proof m1_range as Hm1. pose proof (DaysInMonth_bounds y1 m1 Hm1) as Hd.
destruct (civil_of_MakeDay y1 m1 1 (firstDayLastMonth tz now)) as (-> & -> & ->);
  [exact Hm1 | lia | rewrite first_midnight; now apply Day_local_midnight_west |].
reflexivity.
Qed.

Lemma upper_bound_west :
- msPerDay < o2 <= 0 ->
iso_date (lastDayLastMonth tz now) = date_string y1 m1 (DaysInMonth y1 m1).
Proof.
intros Ho. rewrite iso_date_civil.
pose proof m1_range as Hm1. pose proof (DaysInMonth_bounds y1 m1 Hm1) as Hd.
destruct (civil_of_MakeDay y1 m1 (DaysInMonth y1 m1) (lastDayLastMonth tz now))
  as (-> & -> & ->);
  [exact Hm1 | lia | rewrite last_midnight; now apply Day_local_midnight_west |].
reflexivity.
Qed.

(** Read east of Greenwich, a bound is the day before. *)
Lemma lower_bound_east :
0 < o1 <= msPerDay ->
iso_date (firstDayLastMonth tz now)
= date_string (previous_month y1 m1).1 (previous_month y1 m1).2
    (DaysInMonth (previous_month y1 m1).1 (previous_month y1 m1).2).
Proof.
intros Ho. rewrite iso_date_civil.
pose proof m1_range as Hm1.
pose proof (previous_month_range y1 m1 Hm1) as Hm2.
pose proof (DaysInMonth_bounds (previous_month y1 m1).1 _ Hm2) as Hd2.
destruct (civil_of_MakeDay (previous_month y1 m1).1 (previous_month y1 m1).2
            (DaysInMonth (previous_month y1 m1).1 (previous_month y1 m1).2)
            (firstDayLastMonth tz now)) as (-> & -> & ->);
  [exact Hm2 | lia | |reflexivity].
rewrite first_midnight, (Day_local_midnight_east _ _ Ho), <- (MakeDay_zero y1 m1 Hm1).
unfold MakeDay. lia.
Qed.

Lemma upper_bound_east :
0 < o2 <= msPerDay ->
iso_date (lastDayLastMonth tz now) = date_string y1 m1 (DaysInMonth y1 m1 - 1).
Proof.
intros Ho. rewrite iso_date_civil.
pose proof m1_range as Hm1. pose proof (DaysInMonth_bounds y1 m1 Hm1) as Hd.
destruct (civil_of_MakeDay y1 m1 (DaysInMonth y1 m1 - 1) (lastDayLastMonth tz now))
  as (-> & -> & ->);
  [exact Hm1 | lia | |reflexivity].
rewrite last_midnight, (Day_local_midnight_east _ _ Ho). unfold MakeDay. lia.
Qed.

(** When both midnights are read at or west of Greenwich the window is
  the month before the local month of the clock reading, from its first
  to its last day. *)
Lemma query_window_west :
- msPerDay < o1 <= 0 -> - msPerDay < o2 <= 0 ->
query_window tz now
= (date_string y1 m1 1, date_string y1 m1 (DaysInMonth y1 m1)).
Proof.
intros H1 H2. unfold query_window.
now rewrite (lower_bound_west H1), (upper_bound_west H2).
Qed.

(** When both are read east of Greenwich both bounds are a day early: the
  window runs from the last day of the month before last month to the
  last day but one of last month. *)
Lemma query_window_east :
0 < o1 <= msPerDay -> 0 < o2 <= msPerDay ->
query_window tz now
= (date_string (previous_month y1 m1).1 (previous_month y1 m1).2
     (DaysInMonth (previous_month y1 m1).1 (previous_month y1 m1).2),
   date_string y1 m1 (DaysInMonth y1 m1 - 1)).
Proof.
intros H1 H2. unfold query_window.
now rewrite (lower_bound_east H1), (upper_bound_east H2).
Qed.

End WindowGeneral.

(** ** The window of 2025-03-15 *)

(** In UTC the window of a run on 2025-03-15 is February 2025. *)
Lemma query_window_utc_example :
  query_window 0 mid_march_2025 = ("2025-02-01", "2025-02-28").
Proof. vm_compute. reflexivity. Qed.

(** C1. The bounds are built at local midnight and printed in UTC. In a
    process one hour east of Greenwich, where the run of 2025-03-15 also
    falls on the local date 2025-03-15, local midnight is 23:00 UTC of the
    day before, and the window given to the query is
    [2025-01-31, 2025-02-27] instead of [2025-02-01, 2025-02-28]. *)
Theorem query_window_east_of_utc :
  let tza := (1 * JsDate.msPerHour)%Z in
  (JsDate.getFullYear tza mid_march_2025,
   JsDate.getMonth tza mid_march_2025,
   JsDate.getDate tza mid_march_2025) = (2025, 2, 15)%Z
  /\ JsDate.toISOString (firstDayLastMonth tza mid_march_2025) = "2025-01-31T23:00:00.000Z"
  /\ JsDate.toISOString (lastDayLastMonth tza mid_march_2025) = "2025-02-27T23:00:00.000Z"
  /\ query_window tza mid_march_2025 = ("2025-01-31", "2025-02-27").
Proof. vm_compute. repeat split. Qed.

(** * Further properties *)

(** ** Dates and the window *)

Section WindowByOffset.

Import JsDate.
Local Open Scope Z_scope.

Lemma Day_MakeDate D : Day (MakeDate D 0) = D.
Proof. unfold Day, MakeDate, msPerDay. Z.div_mod_to_equations. lia. Qed.

Lemma TimeClip_valid t : Z.abs t <= 8640000000000000 -> TimeClip t = Some t.
Proof.
  intros H. unfold TimeClip.
  destruct (Z.leb_spec (Z.abs t) 8640000000000000); [reflexivity | lia].
Qed.

(** The day of the year is not before the first day of its month. *)
Lemma month_starts_before t :
  DaysBeforeMonth (InLeapYear t) (MonthFromTime t) <= DayWithinYear t.
Proof.
  assert (H0 : 0 <= DayWithinYear t).
  { unfold DayWithinYear, YearFromTime. pose proof (YearFromDay_spec (Day t)). lia. }
  unfold MonthFromTime. cbv zeta.
  set (d := DayWithinYear t) in *. set (leap := InLeapYear t).
  repeat match goal with
         | |- context [(?a <? ?b)] => destruct (Z.ltb_spec a b)
         end; unfold DaysBeforeMonth; lia.
Qed.

(** The day of a time value is not before the first of its month. *)
Lemma first_of_month_before t :
  MakeDay (YearFromTime t) (MonthFromTime t) 1 <= Day t.
Proof.
  rewrite (MakeDay_in_year _ _ _ (MonthFromTime_range t)).
  pose proof (month_starts_before t) as H.
  unfold DayWithinYear, InLeapYear in H. lia.
Qed.

(** The days of the years 99 to 275759 are days of valid dates, with a
    day to spare on either side. *)
Lemma MakeDay_in_range yy mm d :
  99 <= yy <= 275759 -> 0 <= mm <= 11 -> 1 <= d <= 31 ->
  - 99999999 <= MakeDay yy mm d <= 99999998.
Proof.
  intros Hy Hm Hd. rewrite (MakeDay_in_year yy mm d Hm).
  pose proof (DaysBeforeMonth_bounds _ mm (leap_flag yy) Hm) as (Hb1 & Hb2 & Hb3).
  assert (Hl : (if isLeap yy then 1 else 0) <= 1) by (destruct (isLeap yy); lia).
  unfold DayFromYear. Z.div_mod_to_equations. lia.
Qed.

Variable tz : TimeZone.
Variable now : Z.

Let y : Z := getFullYear tz now.
Let m : Z := getMonth tz now.
Let y1 : Z := (previous_month y m).1.
Let m1 : Z := (previous_month y m).2.
Let o1 : Z := offset_of_local tz (first_local_midnight tz now).
Let o2 : Z := offset_of_local tz (last_local_midnight tz now).

Lemma previous_month_cases :
  (m = 0 /\ y1 = y - 1 /\ m1 = 11) \/ (0 < m /\ y1 = y /\ m1 = m - 1).
Proof.
  assert (Hm : 0 <= m <= 11) by apply (MonthFromTime_range (LocalTime tz now)).
  unfold y1, m1, previous_month.
  destruct (Z.eqb_spec m 0) as [E|E]; cbn [fst snd]; [left | right]; lia.
Qed.

(** The local fields of the lower bound: the first of last month, when the
    offset in force at that instant is the one its local midnight was read
    with. *)
Lemma first_day_local_fields :
  ~ 0 <= y <= 99 ->
  offset_at tz (firstDayLastMonth tz now) = o1 ->
  getFullYear tz (firstDayLastMonth tz now) = y1
  /\ getMonth tz (firstDayLastMonth tz now) = m1
  /\ getDate tz (firstDayLastMonth tz now) = 1.
Proof.
  intros Hy Ho. unfold getFullYear, getMonth, getDate, LocalTime.
  rewrite Ho, (first_midnight tz now Hy). fold y m. fold y1 m1. fold o1.
  replace (MakeDate (MakeDay y1 m1 1) 0 - o1 + o1) with (MakeDate (MakeDay y1 m1 1) 0) by lia.
  apply civil_of_MakeDay.
  - apply (m1_range tz now).
  - destruct (DaysInMonth_bounds y1 m1 (m1_range tz now)) as [H _].
    split; [lia|]. eapply Z.le_trans; [|exact H]. lia.
  - apply Day_MakeDate.
Qed.

Hypothesis four_digit_year : ~ 0 <= y <= 99.

(** The two dates as instants: how far apart they are, and how far the
    later one lies before the clock reading. *)
Lemma window_instants :
  lastDayLastMonth tz now - firstDayLastMonth tz now
  = (DaysInMonth y1 m1 - 1) * msPerDay + o1 - o2
  /\ lastDayLastMonth tz now + o2 + msPerDay <= now + offset_at tz now.
Proof.
  split.
  - rewrite (first_midnight tz now four_digit_year),
      (last_midnight tz now four_digit_year).
    fold y m. fold y1 m1. fold o1 o2.
    rewrite !(MakeDay_in_year y1 m1 _ (m1_range tz now)).
    unfold MakeDate. lia.
  - rewrite (last_midnight tz now four_digit_year).
    fold y m. fold y1 m1. fold o2. unfold y1, m1.
    rewrite <- (MakeDay_zero _ _ (m_range tz now)).
    pose proof (first_of_month_before (LocalTime tz now)) as H.
    fold (getFullYear tz now) (getMonth tz now) in H. fold y m in H.
    rewrite (MakeDay_in_year _ _ 1 (m_range tz now)) in H.
    rewrite (MakeDay_in_year _ _ 0 (m_range tz now)).
    unfold MakeDate, Day, LocalTime, msPerDay in *.
    Z.div_mod_to_equations. lia.
Qed.

(** In the years 100 to 275759 both dates are valid. *)
Lemma window_dates_valid :
  100 <= y <= 275759 ->
  - msPerDay <= o1 <= msPerDay -> - msPerDay <= o2 <= msPerDay ->
  TimeClip (firstDayLastMonth tz now) = Some (firstDayLastMonth tz now)
  /\ TimeClip (lastDayLastMonth tz now) = Some (lastDayLastMonth tz now).
Proof.
  intros Hy H1 H2.
  pose proof (m1_range tz now) as Hm1. fold y m in Hm1. fold m1 in Hm1.
  pose proof (DaysInMonth_bounds y1 m1 Hm1) as Hd.
  assert (Hy1 : 99 <= y1 <= 275759)
    by (destruct previous_month_cases as [(_ & E & _)|(_ & E & _)]; lia).
  pose proof (MakeDay_in_range y1 m1 1 Hy1 Hm1 ltac:(lia)) as Hf.
  pose proof (MakeDay_in_range y1 m1 (DaysInMonth y1 m1) Hy1 Hm1 ltac:(lia)) as Hl.
  split; apply TimeClip_valid.
  - rewrite (first_midnight tz now four_digit_year). fold y m. fold y1 m1. fold o1.
    unfold MakeDate, msPerDay in *. lia.
  - rewrite (last_midnight tz now four_digit_year). fold y m. fold y1 m1. fold o2.
    unfold MakeDate, msPerDay in *. lia.
Qed.

End WindowByOffset.

(** X2. A bound of the window is the day it was built for when its local
    midnight is read at or west of Greenwich (an offset in (-24h, 0]): for
    every zone and every clock reading in the local years 100 to 275759,
    the lower bound given to the query is then the first day of the month
    before the local month of the clock and the upper bound its last day,
    as YYYY-MM-DD, and the date is a valid one. The offset is the one in
    force at that local midnight, not the one in force now. January is
    followed back into December of the year before, and the last day is the
    28th to the 31st. *)
Theorem window_at_or_west_of_utc (tz : JsDate.TimeZone) (now : Z) :
  let y := JsDate.getFullYear tz now in
  let m := JsDate.getMonth tz now in
  let y1 := (previous_month y m).1 in
  let m1 := (previous_month y m).2 in
  let o1 := JsDate.offset_of_local tz (first_local_midnight tz now) in
  let o2 := JsDate.offset_of_local tz (last_local_midnight tz now) in
  (100 <= y <= 275759)%Z ->
  ((- JsDate.msPerDay < o1 <= 0)%Z ->
   (query_window tz now).1 = date_string y1 m1 1
   /\ JsDate.TimeClip (firstDayLastMonth tz now) = Some (firstDayLastMonth tz now))
  /\ ((- JsDate.msPerDay < o2 <= 0)%Z ->
      (query_window tz now).2 = date_string y1 m1 (DaysInMonth y1 m1)
      /\ JsDate.TimeClip (lastDayLastMonth tz now) = Some (lastDayLastMonth tz now))
  /\ ((m = 0 /\ y1 = y - 1 /\ m1 = 11) \/ (0 < m /\ y1 = y /\ m1 = m - 1))%Z
  /\ (28 <= DaysInMonth y1 m1 <= 31)%Z.
Proof.
  intros y m y1 m1 o1 o2 Hy.
  assert (Hy' : ~ (0 <= y <= 99)%Z) by lia.
  pose proof (m1_range tz now) as Hm1.
  pose proof (DaysInMonth_bounds y1 m1 Hm1) as Hd.
  assert (Hy1 : (99 <= y1 <= 275759)%Z)
    by (destruct (previous_month_cases tz now) as [(_ & E & _)|(_ & E & _)];
        fold y m in E; fold y1 in E; lia).
  split; [|split; [|split]].
  - intros Ho. split; [exact (lower_bound_west tz now Hy' Ho)|].
    apply TimeClip_valid. rewrite (first_midnight tz now Hy'). fold y m. fold y1 m1. fold o1.
    pose proof (MakeDay_in_range y1 m1 1 Hy1 Hm1 ltac:(lia)).
    unfold JsDate.MakeDate, JsDate.msPerDay in *. lia.
  - intros Ho. split; [exact (upper_bound_west tz now Hy' Ho)|].
    apply TimeClip_valid. rewrite (last_midnight tz now Hy'). fold y m. fold y1 m1. fold o2.
    pose proof (MakeDay_in_range y1 m1 (DaysInMonth y1 m1) Hy1 Hm1 ltac:(lia)).
    unfold JsDate.MakeDate, JsDate.msPerDay in *. lia.
  - apply previous_month_cases.
  - exact Hd.
Qed.

Lemma window_at_or_west_of_utc_witness :
  (query_window (-18000000) mid_march_2025).1 = date_string 2025 1 1
  /\ (query_window london_2025 mid_november_2025).2 = date_string 2025 9 31
  /\ (query_window london_2025 mid_april_2025).1 = date_string 2025 2 1.
Proof.
  split; [|split].
  - apply (window_at_or_west_of_utc (-18000000) mid_march_2025).
    + vm_compute. split; discriminate.
    + vm_compute. split; [reflexivity | discriminate].
  - apply (window_at_or_west_of_utc london_2025 mid_november_2025).
    + vm_compute. split; discriminate.
    + vm_compute. split; [reflexivity | discriminate].
  - apply (window_at_or_west_of_utc london_2025 mid_april_2025).
    + vm_compute. split; discriminate.
    + vm_compute. split; [reflexivity | discriminate].
Defined.

(** X3. A bound of the window is a day early when its local midnight is
    read east of Greenwich (an offset in (0, +24h]): for every zone and
    every clock reading in the local years 100 to 275759, the lower bound
    given to the query is then the last day of the month before last month,
    and the upper bound the last day but one of last month, the 27th to the
    30th; the date is a valid one. The offset is the one in force at that
    local midnight: where daylight saving time starts or ends between the
    two midnights, one bound is early and the other is not. The lower date
    itself is locally the 1st. *)
Theorem window_east_of_utc (tz : JsDate.TimeZone) (now : Z) :
  let y := JsDate.getFullYear tz now in
  let m := JsDate.getMonth tz now in
  let y1 := (previous_month y m).1 in
  let m1 := (previous_month y m).2 in
  let y2 := (previous_month y1 m1).1 in
  let m2 := (previous_month y1 m1).2 in
  let o1 := JsDate.offset_of_local tz (first_local_midnight tz now) in
  let o2 := JsDate.offset_of_local tz (last_local_midnight tz now) in
  (100 <= y <= 275759)%Z ->
  ((0 < o1 <= JsDate.msPerDay)%Z ->
   (query_window tz now).1 = date_string y2 m2 (DaysInMonth y2 m2)
   /\ JsDate.TimeClip (firstDayLastMonth tz now) = Some (firstDayLastMonth tz now))
  /\ ((0 < o2 <= JsDate.msPerDay)%Z ->
      (query_window tz now).2 = date_string y1 m1 (DaysInMonth y1 m1 - 1)
      /\ JsDate.TimeClip (lastDayLastMonth tz now) = Some (lastDayLastMonth tz now))
  /\ (27 <= DaysInMonth y1 m1 - 1 <= 30)%Z
  /\ (JsDate.offset_at tz (firstDayLastMonth tz now) = o1 ->
      JsDate.getDate tz (firstDayLastMonth tz now) = 1%Z).
Proof.
  intros y m y1 m1 y2 m2 o1 o2 Hy.
  assert (Hy' : ~ (0 <= y <= 99)%Z) by lia.
  pose proof (m1_range tz now) as Hm1.
  pose proof (DaysInMonth_bounds y1 m1 Hm1) as Hd.
  assert (Hy1 : (99 <= y1 <= 275759)%Z)
    by (destruct (previous_month_cases tz now) as [(_ & E & _)|(_ & E & _)];
        fold y m in E; fold y1 in E; lia).
  split; [|split; [|split]].
  - intros Ho. split; [exact (lower_bound_east tz now Hy' Ho)|].
    apply TimeClip_valid. rewrite (first_midnight tz now Hy'). fold y m. fold y1 m1. fold o1.
    pose proof (MakeDay_in_range y1 m1 1 Hy1 Hm1 ltac:(lia)).
    unfold JsDate.MakeDate, JsDate.msPerDay in *. lia.
  - intros Ho. split; [exact (upper_bound_east tz now Hy' Ho)|].
    apply TimeClip_valid. rewrite (last_midnight tz now Hy'). fold y m. fold y1 m1. fold o2.
    pose proof (MakeDay_in_range y1 m1 (DaysInMonth y1 m1) Hy1 Hm1 ltac:(lia)).
    unfold JsDate.MakeDate, JsDate.msPerDay in *. lia.
  - lia.
  - intros Ho. apply (first_day_local_fields tz now Hy' Ho).
Qed.

Lemma window_east_of_utc_witness :
  (query_window 3600000 mid_march_2025).1 = date_string 2025 0 31
  /\ (query_window london_2025 mid_november_2025).1 = date_string 2025 8 30
  /\ (query_window london_2025 mid_april_2025).2 = date_string 2025 2 30.
Proof.
  split; [|split].
  - apply (window_east_of_utc 3600000 mid_march_2025).
    + vm_compute. split; discriminate.
    + vm_compute. split; [reflexivity | discriminate].
  - apply (window_east_of_utc london_2025 mid_november_2025).
    + vm_compute. split; discriminate.
    + vm_compute. split; [reflexivity | discriminate].
  - apply (window_east_of_utc london_2025 mid_april_2025).
    + vm_compute. split; discriminate.
    + vm_compute. split; [reflexivity | discriminate].
Defined.



(** X15. The two dates the window is made of, as instants, for every zone
    and every clock reading in the local years 100 to 275759. The upper one
    is the local midnight that begins the last day of last month and the
    lower one the local midnight that begins its first day: they lie apart
    by the length of last month less one day, corrected by the difference
    of the offsets the two midnights are read with (an hour less across the
    start of daylight saving time). In local time the upper one is a full
    day or more before now. With offsets of at most 24 hours both dates are
    valid and the lower one is the earlier one, and when the offset in
    force now exceeds the one of the upper midnight by less than 24 hours
    the upper one is an instant of the past. *)
Theorem window_before_now (tz : JsDate.TimeZone) (now : Z) :
  let y := JsDate.getFullYear tz now in
  let m := JsDate.getMonth tz now in
  let days := DaysInMonth (previous_month y m).1 (previous_month y m).2 in
  let o1 := JsDate.offset_of_local tz (first_local_midnight tz now) in
  let o2 := JsDate.offset_of_local tz (last_local_midnight tz now) in
  let first := firstDayLastMonth tz now in
  let last := lastDayLastMonth tz now in
  (100 <= y <= 275759)%Z ->
  (last - first = (days - 1) * JsDate.msPerDay + o1 - o2
   /\ 28 <= days <= 31
   /\ last + o2 + JsDate.msPerDay <= now + JsDate.offset_at tz now
   /\ (- JsDate.msPerDay <= o1 <= JsDate.msPerDay ->
       - JsDate.msPerDay <= o2 <= JsDate.msPerDay ->
       JsDate.TimeClip first = Some first /\ JsDate.TimeClip last = Some last
       /\ first < last)
   /\ (JsDate.offset_at tz now - o2 < JsDate.msPerDay -> last < now))%Z.
Proof.
  intros y m days o1 o2 first last Hy.
  assert (Hy' : ~ (0 <= y <= 99)%Z) by lia.
  destruct (window_instants tz now Hy') as [Hlen Hpast].
  fold y m in Hlen. fold days o1 o2 first last in Hlen. fold o2 last in Hpast.
  assert (Hd : (28 <= days <= 31)%Z) by apply DaysInMonth_bounds, (m1_range tz now).
  split; [exact Hlen|]. split; [exact Hd|]. split; [exact Hpast|]. split.
  - intros H1 H2.
    destruct (window_dates_valid tz now Hy' Hy H1 H2) as [Hv1 Hv2].
    split; [exact Hv1|]. split; [exact Hv2|].
    unfold JsDate.msPerDay in *. lia.
  - intros Ho. unfold JsDate.msPerDay in *. lia.
Qed.

Lemma window_before_now_witness :
  (lastDayLastMonth london_2025 mid_april_2025 - firstDayLastMonth london_2025 mid_april_2025
   = 2588400000)%Z
  /\ (lastDayLastMonth london_2025 mid_april_2025 < mid_april_2025)%Z
  /\ (lastDayLastMonth 3600000 mid_march_2025 - firstDayLastMonth 3600000 mid_march_2025
      = 27 * JsDate.msPerDay)%Z.
Proof.
  assert (Hy : (100 <= JsDate.getFullYear london_2025 mid_april_2025 <= 275759)%Z)
    by (vm_compute; split; discriminate).
  assert (Hy' : (100 <= JsDate.getFullYear 3600000 mid_march_2025 <= 275759)%Z)
    by (vm_compute; split; discriminate).
  destruct (window_before_now london_2025 mid_april_2025 Hy) as (Hlen & _ & _ & _ & Hpast).
  destruct (window_before_now 3600000 mid_march_2025 Hy') as (Hlen' & _).
  split; [|split].
  - rewrite Hlen. vm_compute. reflexivity.
  - apply Hpast. vm_compute. reflexivity.
  - rewrite Hlen'. vm_compute. reflexivity.
Defined.

(** ** The counts of the report *)

Section ReportCounts.

Lemma filter_disjoint_length {A} (p q : A -> bool) (l : list A) :
  (forall x, p x && q x = false) ->
  (length (List.filter p l) + length (List.filter q l) <= length l)%nat.
Proof.
  intros Hpq. induction l as [|x l IH]; simpl; [lia|].
  specialize (Hpq x). destruct (p x), (q x); simpl in *; try discriminate; lia.
Qed.

Lemma size_list_to_set_le (xs : list (option string)) :
  (size (list_to_set xs : gset (option string)) <= length xs)%nat.
Proof.
  induction xs as [|x xs IH].
  - change (size (∅ : gset (option string)) <= 0)%nat. now rewrite size_empty.
  - rewrite list_to_set_cons, size_union_alt, size_singleton. cbn [length].
    assert (Hsub : (list_to_set xs : gset (option string)) ∖ {[x]} ⊆ list_to_set xs)
      by apply subseteq_difference_l, reflexivity.
    apply subseteq_size in Hsub. lia.
Qed.

End ReportCounts.

(** X5. In every report the completed and the cancelled appointments
    together are at most the total, and so is the customer count; without a
    completed appointment the revenue is 0; and when the query gave no array
    every count is 0, the revenue is 0 and the ranking is empty. *)
Theorem report_counts_bounded (appointments : option (list Appointment.t))
    (business : Business.t) :
  let data := reportData appointments business in
  (completedAppointments data + cancelledAppointments data <= totalAppointments data)%nat
  /\ (newCustomers data <= totalAppointments data)%nat
  /\ (completedAppointments data = 0%nat -> totalRevenue data = JsNumber.zero)
  /\ (appointments = None ->
      totalAppointments data = 0%nat /\ completedAppointments data = 0%nat
      /\ cancelledAppointments data = 0%nat /\ newCustomers data = 0%nat
      /\ totalRevenue data = JsNumber.zero /\ topServices data = []).
Proof.
  intros data. unfold data, reportData. cbn [totalAppointments completedAppointments
    cancelledAppointments newCustomers totalRevenue topServices].
  split; [|split; [|split]].
  - destruct appointments as [l|]; simpl; [|lia].
    apply filter_disjoint_length. intros a. unfold has_status.
    destruct (String.eqb_spec (Appointment.status a) "completed") as [->|]; reflexivity.
  - destruct appointments as [l|]; unfold calc_newCustomers, uniqueCustomers.
    + etransitivity; [apply size_list_to_set_le|].
      etransitivity; [apply filter_length_le|]. now rewrite length_map.
    + change (size (∅ : gset (option string)) <= 0)%nat. now rewrite size_empty.
  - destruct appointments as [l|]; simpl; [|reflexivity].
    intros H. apply length_zero_iff_nil in H. now rewrite H.
  - intros ->. split; [reflexivity|]. split; [reflexivity|]. split; [reflexivity|].
    split; [exact (size_empty (C:=gset (option string)))|]. split; reflexivity.
Qed.

Lemma report_counts_bounded_witness :
  totalRevenue (reportData (Some [appointment "pending" (JNum (JsNumber.of_Z 5)) None None])
                  sample_business) = JsNumber.zero
  /\ topServices (reportData None sample_business) = [].
Proof.
  split.
  - destruct (report_counts_bounded
                (Some [appointment "pending" (JNum (JsNumber.of_Z 5)) None None]) sample_business)
      as (_ & _ & H & _).
    apply H. reflexivity.
  - destruct (report_counts_bounded None sample_business) as (_ & _ & _ & H).
    apply H. reflexivity.
Defined.

(** X6. The completion rate of a report lies between 0.0 and 100.0: when
    there is an appointment (and fewer than 2^32 of them, as in every
    array) it is the numeral of [n / 10] for some [n] from 0 to 1000. It is
    "100.0" when every appointment is completed and "0.0" when none is,
    while a report without appointments shows "0". The quotient and the
    product are those of double-precision arithmetic. *)
Theorem completion_rate_range (appointments : option (list Appointment.t))
    (business : Business.t) :
  let data := reportData appointments business in
  (Z.of_nat (totalAppointments data) < 2 ^ 32)%Z ->
  ((0 < totalAppointments data)%nat ->
   exists n : Z, (0 <= n <= 1000)%Z
                 /\ completionRate data = JsNumber.positional 1 (Z.to_N n))
  /\ ((0 < totalAppointments data)%nat ->
      completedAppointments data = totalAppointments data ->
      completionRate data = "100.0")
  /\ ((0 < totalAppointments data)%nat ->
      completedAppointments data = 0%nat -> completionRate data = "0.0")
  /\ (totalAppointments data = 0%nat -> completionRate data = "0").
Proof.
  intros data Hsize.
  assert (Hle : (completedAppointments data <= totalAppointments data)%nat).
  { destruct appointments as [l|]; simpl; [apply filter_length_le | lia]. }
  set (c := Z.of_nat (completedAppointments data)) in *.
  set (t := Z.of_nat (totalAppointments data)) in *.
  assert (Hrate : (0 < totalAppointments data)%nat ->
                  completionRate data
                  = JsNumber.toFixed 1
                      (JsNumber.mul (JsNumber.div (JsNumber.of_Z c) (JsNumber.of_Z t))
                                    (JsNumber.of_Z 100))).
  { intros Ht. unfold completionRate.
    destruct (Nat.ltb_spec 0 (totalAppointments data)) as [_|H]; [reflexivity | lia]. }
  assert (Hnone : (0 < totalAppointments data)%nat -> c = 0%Z ->
                  completionRate data = "0.0").
  { intros Ht Hc. rewrite (Hrate Ht), Hc. apply rate_zero. lia. }
  assert (Hsome : (0 < totalAppointments data)%nat -> (0 < c)%Z ->
                  exists n : Z,
                    completionRate data = JsNumber.positional 1 (Z.to_N n)
                    /\ (0 <= n)%Z /\ (- t <= 2 * (1000 * c - n * t) <= t)%Z).
  { intros Ht Hc. rewrite (Hrate Ht). apply rate_nearest; lia. }
  split; [|split; [|split]].
  - intros Ht. destruct (Z.eq_dec c 0%Z) as [Hc|Hc].
    + exists 0%Z. split; [lia|]. now apply Hnone.
    + destruct (Hsome Ht ltac:(lia)) as (n & Hs & Hn & Hb).
      exists n. split; [|exact Hs]. split; [exact Hn|]. nia.
  - intros Ht Hall.
    destruct (Hsome Ht ltac:(lia)) as (n & Hs & Hn & Hb). rewrite Hs.
    assert (E : n = 1000%Z) by (assert (c = t) by lia; nia).
    now rewrite E.
  - intros Ht Hzero. apply (Hnone Ht). lia.
  - intros H0. unfold completionRate. now rewrite H0.
Qed.

Lemma completion_rate_range_witness :
  (exists n : Z,
      (0 <= n <= 1000)%Z
      /\ completionRate (reportData (Some sample_revenue_records) sample_business)
         = JsNumber.positional 1 (Z.to_N n))
  /\ completionRate (reportData (Some [appointment "completed" JNull None None])
                       sample_business) = "100.0"
  /\ completionRate (reportData (Some [appointment "pending" JNull None None])
                       sample_business) = "0.0"
  /\ completionRate (reportData None sample_business) = "0".
Proof.
  split; [|split; [|split]].
  - apply (completion_rate_range (Some sample_revenue_records) sample_business).
    + reflexivity.
    + simpl. lia.
  - destruct (completion_rate_range (Some [appointment "completed" JNull None None])
                sample_business eq_refl) as (_ & H & _).
    apply H; [simpl; lia | reflexivity].
  - destruct (completion_rate_range (Some [appointment "pending" JNull None None])
                sample_business eq_refl) as (_ & _ & H & _).
    apply H; [simpl; lia | reflexivity].
  - destruct (completion_rate_range None sample_business eq_refl) as (_ & _ & _ & H).
    apply H. reflexivity.
Defined.


(** ** The average revenue *)

Section AverageRevenue.

Local Open Scope Z_scope.

(** From the two roundings (the division and the one of [toFixed]) to the
    exact quotient [q]: the double [v] nearest to [q] is off by at most
    half a unit [T] of its last place, which is a 2^-52th of [q] or, for
    a subnormal [v], 2^-1075. *)
Lemma average_arith (n : Z) (q v T : Q) :
  (0 <= q)%Q -> (0 < T)%Q ->
  (q - (1 # 2) * T <= v <= q + (1 # 2) * T)%Q ->
  (inject_Z (2 ^ 52) * T <= v)%Q \/ (T == two_to (-1074))%Q ->
  (inject_Z n <= 100 * v + (1 # 2) < inject_Z n + 1)%Q ->
  (v <= q + (q * two_to (-52) + two_to (-1075)))%Q
  /\ (- ((1 # 2) + 100 * (q * two_to (-52) + two_to (-1075)))
      <= inject_Z n - 100 * q
      <= (1 # 2) + 100 * (q * two_to (-52) + two_to (-1075)))%Q.
Proof.
  intros Hq HT [A1 A2] Hunit [N1 N2].
  assert (K52 : (two_to (-52) == 1 # 4503599627370496)%Q) by reflexivity.
  pose proof (two_to_pos (-1075)) as Hsub.
  pose proof (two_to_succ (-1075)) as Hsucc. change (-1075 + 1) with (-1074) in Hsucc.
  assert (Hhalf : ((1 # 2) * T <= q * two_to (-52) + two_to (-1075))%Q).
  { rewrite K52. destruct Hunit as [B|E].
    - change (inject_Z (2 ^ 52)) with (4503599627370496 # 1)%Q in B. lra.
    - rewrite E, Hsucc. lra. }
  split; lra.
Qed.

(** The average printed for a revenue [m * 2^e] and [c] completed
    appointments. *)
Lemma average_nearest (s : bool) (m e c : Z) :
  canonical (Finite s m e) -> 0 < c < 2 ^ 53 ->
  let q := (inject_Z m * two_to e / inject_Z c)%Q in
  (q < inject_Z (10 ^ 20))%Q ->
  exists (n : Z) (minus : bool),
    toFixed 2 (div (Finite s m e) (of_Z c))
    = ((if minus then "-" else "") ++ positional 2 (Z.to_N n))%string
    /\ 0 <= n
    /\ (minus = true -> s = true)
    /\ ((two_to (-1022) <= q)%Q -> minus = s)
    /\ (- ((1 # 2) + 100 * (q * two_to (-52) + two_to (-1075)))
        <= inject_Z n - 100 * q
        <= (1 # 2) + 100 * (q * two_to (-52) + two_to (-1075)))%Q.
Proof.
  intros Cr Hc q Hq.
  destruct (of_Z_exact c Hc) as (Ec & Cc & Vc).
  rewrite Ec in Cc, Vc. rewrite Ec.
  set (mc := c * 2 ^ (52 - Z.log2 c)) in *. set (ec := Z.log2 c - 52) in *.
  cbn [finite_value signed] in Vc.
  pose proof (inject_pos c ltac:(lia)) as Hx.
  assert (Hmc : 0 < mc).
  { destruct (Z.lt_trichotomy mc 0) as [H|[H|H]]; [| |exact H].
    - destruct Cc as [? _]. lia.
    - rewrite H in Vc. change (inject_Z 0) with 0%Q in Vc. lra. }
  destruct Cr as (Hm & He & Hsubn).
  pose proof (two_to_pos e) as HTe.
  pose proof (two_to_pos (-52)) as H52. pose proof (two_to_pos (-1075)) as H1075.
  cbn [div]. destruct (Z.eqb_spec mc 0) as [E|_]; [lia|].
  replace (xorb s false) with s by (destruct s; reflexivity).
  destruct (Z.eq_dec m 0) as [->|Hm0].
  - (* a revenue of zero *)
    assert (Hq0 : (q == 0)%Q) by (unfold q; field; lra).
    change (round s (0 * pow2 (e - ec)) (mc * pow2 (ec - e))) with (Finite s 0 emin).
    destruct (toFixed_spec 2 s 0 emin ltac:(lia)) as (n & -> & Hn & F1 & F2).
    { change (inject_Z 0) with 0%Q. rewrite Qmult_0_l. reflexivity. }
    exists n, false. rewrite andb_false_r.
    split; [reflexivity|]. split; [exact Hn|]. split; [discriminate|]. split.
    + intros Hnorm. rewrite Hq0 in Hnorm. pose proof (two_to_pos (-1022)). lra.
    + change (inject_Z 0) with 0%Q in F1, F2.
      change (inject_Z (10 ^ Z.of_nat 2)) with 100%Q in F1, F2.
      rewrite Hq0. lra.
  - set (N := m * pow2 (e - ec)). set (D := mc * pow2 (ec - e)).
    assert (HN : 0 < N) by (apply Z.mul_pos_pos; [lia | apply pow2_pos]).
    assert (HD : 0 < D) by (apply Z.mul_pos_pos; [exact Hmc | apply pow2_pos]).
    assert (HND : (inject_Z N / inject_Z D == q)%Q).
    { unfold N, D, q. rewrite (div_ratio m e mc ec Hmc), Vc. reflexivity. }
    assert (Hqpos : (0 < q)%Q).
    { unfold q. apply Qlt_shift_div_l; [exact Hx|]. rewrite Qmult_0_l.
      apply Qmult_lt_0_compat; [apply inject_pos; lia | exact HTe]. }
    destruct (round_spec s N D HN HD) as [[_ Hinf]|(m' & e' & -> & C' & Err & Norm)].
    { cbv zeta in Hinf. rewrite HND in Hinf. pose proof (below_two_to_1023 q Hq). lra. }
    cbv zeta in Err, Norm. rewrite HND in Err, Norm.
    destruct C' as (Hm' & He' & Hsub').
    pose proof (two_to_pos e') as HT'.
    assert (Hunit : (inject_Z (2 ^ 52) * two_to e' <= inject_Z m' * two_to e')%Q
                    \/ (two_to e' == two_to (-1074))%Q).
    { destruct (Z.lt_ge_cases m' (2 ^ 52)) as [Hlt|Hge].
      - right. rewrite (Hsub' Hlt). reflexivity.
      - left. apply Qmult_le_r; [exact HT'|]. rewrite <- Zle_Qle. exact Hge. }
    assert (Hsmall : (inject_Z m' * two_to e' < inject_Z (10 ^ 21))%Q).
    { assert (K52 : (two_to (-52) == 1 # 4503599627370496)%Q) by reflexivity.
      assert (K1075 : (two_to (-1075) <= 1)%Q).
      { apply Qle_trans with (two_to 0); [apply two_to_le; lia | apply Qle_refl]. }
      assert (Hhalf : ((1 # 2) * two_to e' <= q * two_to (-52) + two_to (-1075))%Q).
      { pose proof (two_to_succ (-1075)) as Hsucc.
        change (-1075 + 1) with (-1074) in Hsucc.
        rewrite K52. destruct Hunit as [B|E].
        - change (inject_Z (2 ^ 52)) with (4503599627370496 # 1)%Q in B. lra.
        - rewrite E, Hsucc. lra. }
      rewrite K52 in Hhalf.
      change (inject_Z (10 ^ 20)) with (100000000000000000000 # 1)%Q in Hq.
      change (inject_Z (10 ^ 21)) with (1000000000000000000000 # 1)%Q. lra. }
    destruct (toFixed_spec 2 s m' e' ltac:(lia) Hsmall) as (n & -> & Hn & F1 & F2).
    change (inject_Z (10 ^ Z.of_nat 2)) with 100%Q in F1, F2.
    exists n, (s && (0 <? m')). split; [reflexivity|]. split; [exact Hn|].
    split; [|split].
    + intros H. now apply andb_true_iff in H as [-> _].
    + intros Hnorm. specialize (Norm Hnorm).
      destruct (Z.ltb_spec 0 m') as [_|]; [apply andb_true_r | lia].
    + apply (average_arith n q (inject_Z m' * two_to e') (two_to e'));
        [lra | exact HT' | exact Err | exact Hunit | split; assumption].
Qed.

End AverageRevenue.

(** X7. The average revenue per completed appointment shows "0" when no
    appointment is completed. Otherwise, for a finite revenue and fewer
    than 2^32 completed appointments whose exact quotient [q] in magnitude
    is below 10^20, it is a numeral with two decimals, [n / 100], and the
    sign of the revenue, where [n] is the integer nearest to 100 times the
    double nearest to [q]: it differs from [100 * q] by at most one half
    and 100 times the rounding error of the division, which is at most
    [q * 2^-52 + 2^-1075]. A negative revenue shows its minus sign unless
    the quotient is so small that it rounds to zero. An infinite revenue
    shows as "Infinity" or "-Infinity" and one that is not a number as
    "NaN". *)
Theorem average_revenue_rendered (data : MonthlyReportData) :
  let c := Z.of_nat (completedAppointments data) in
  (c = 0%Z -> averageRevenue data = "0")
  /\ (forall s m e,
         (0 < c < 2 ^ 32)%Z -> totalRevenue data = Finite s m e ->
         canonical (Finite s m e) ->
         let q := (inject_Z m * two_to e / inject_Z c)%Q in
         (q < inject_Z (10 ^ 20))%Q ->
         exists (n : Z) (minus : bool),
           averageRevenue data
           = (if minus then "-" else "") ++ JsNumber.positional 2 (Z.to_N n)
           /\ (0 <= n)%Z
           /\ (minus = true -> s = true)
           /\ ((two_to (-1022) <= q)%Q -> minus = s)
           /\ (- ((1 # 2) + 100 * (q * two_to (-52) + two_to (-1075)))
               <= inject_Z n - 100 * q
               <= (1 # 2) + 100 * (q * two_to (-52) + two_to (-1075)))%Q)
  /\ (forall negative,
         (0 < c < 2 ^ 32)%Z -> totalRevenue data = Infinity negative ->
         averageRevenue data = if negative then "-Infinity" else "Infinity")
  /\ ((0 < c)%Z -> totalRevenue data = NaN -> averageRevenue data = "NaN").
Proof.
  intros c.
  assert (Havg : (0 < c)%Z ->
                 averageRevenue data
                 = JsNumber.toFixed 2 (JsNumber.div (totalRevenue data) (JsNumber.of_Z c))).
  { intros Hc. unfold averageRevenue.
    destruct (Nat.ltb_spec 0 (completedAppointments data)); [reflexivity | lia]. }
  split; [|split; [|split]].
  - intros Hc. unfold averageRevenue.
    destruct (Nat.ltb_spec 0 (completedAppointments data)); [lia | reflexivity].
  - intros s m e Hc Hrev Hcan q Hq. rewrite (Havg ltac:(lia)), Hrev.
    apply average_nearest; [exact Hcan | lia | exact Hq].
  - intros negative Hc Hrev. rewrite (Havg ltac:(lia)), Hrev.
    destruct (of_Z_exact c ltac:(lia)) as (-> & _ & _).
    destruct negative; reflexivity.
  - intros Hc Hrev. rewrite (Havg Hc), Hrev. reflexivity.
Qed.

Lemma average_revenue_rendered_witness :
  averageRevenue empty_report = "0"
  /\ exists (n : Z) (minus : bool),
       averageRevenue sample_report
       = (if minus then "-" else "") ++ JsNumber.positional 2 (Z.to_N n)
       /\ (minus = true -> false = true).
Proof.
  destruct (average_revenue_rendered empty_report) as (H0 & _).
  destruct (average_revenue_rendered sample_report) as (_ & H1 & _).
  split; [apply H0; reflexivity|].
  destruct (H1 false 8444249301319680%Z (-48)%Z) as (n & minus & Hs & _ & Hsign & _).
  - vm_compute. split; reflexivity.
  - vm_compute. reflexivity.
  - vm_compute. repeat split; discriminate.
  - vm_compute. reflexivity.
  - exists n, minus. split; [exact Hs | exact Hsign].
Defined.

(** The average of a revenue of 1.005 over one appointment shows as "1.00"
    (the double nearest to 1.005 lies below it), a revenue of 30 over three
    as "10.00", and one of 10^21 in exponent form. *)
Lemma average_revenue_examples :
  JsNumber.toFixed 2 (JsNumber.div (parseFloat "1.005") (JsNumber.of_nat 1)) = "1.00"
  /\ averageRevenue sample_report = "10.00"
  /\ JsNumber.toFixed 2 (JsNumber.div (parseFloat "1e21") (JsNumber.of_nat 1)) = "1e+21".
Proof. vm_compute. repeat split. Qed.

(** ** Amounts given as text *)

Section NumericPrefix.

Import JsString.

Lemma skip_white_blank ws s : blank ws = true -> skip_white (ws ++ s) = skip_white s.
Proof.
  induction ws as [|c ws IH]; intros H; [reflexivity|].
  simpl in H. apply andb_true_iff in H as [Hc Hws].
  change (skip_white (String c (ws ++ s)) = skip_white s).
  cbn [skip_white]. rewrite Hc. now apply IH.
Qed.

Lemma parseFloat_blank ws s : blank ws = true -> parseFloat (ws ++ s) = parseFloat s.
Proof. intros H. unfold parseFloat. now rewrite (skip_white_blank ws s H). Qed.

Lemma truthy_app_r s1 s2 : truthy s2 = true -> truthy (s1 ++ s2) = true.
Proof. destruct s1; [trivial | reflexivity]. Qed.

Lemma of_N_head n :
  exists c d s', of_N n = String c s' /\ digit_of c = Some d.
Proof.
  destruct (of_N_numeral n) as (ds & Hnum & _ & Hne).
  exact (numeral_head _ _ Hnum Hne).
Qed.

(** Without decimals the positional notation is the numeral itself. *)
Lemma positional_integer n : positional 0 n = of_N n.
Proof.
  destruct (of_N_head n) as (c & d & s' & E & _).
  unfold positional, pad0. rewrite E. reflexivity.
Qed.

Lemma ends_number_stops junk :
  ends_number junk = true -> stops junk /\ exponent_part junk = 0%Z.
Proof.
  destruct junk as [|c r]; [split; [exact I | reflexivity]|].
  unfold ends_number, stops, exponent_part.
  destruct (digit_of c); [discriminate|]. intros H.
  apply negb_true_iff, orb_false_iff in H as [H He2].
  apply orb_false_iff in H as [Hdot He1].
  split; [split; [reflexivity|]|].
  - intros ->. discriminate Hdot.
  - now rewrite He1, He2.
Qed.

(** A sign, the digits of [n], then something that ends the number. *)
Lemma parseFloat_integer (negative : bool) n junk :
  ends_number junk = true ->
  parseFloat ((if negative then "-" else "") ++ of_N n ++ junk)
  = JsNumber.round negative (Z.of_N n) 1.
Proof.
  intros Hj. destruct (ends_number_stops junk Hj) as [Hs He].
  rewrite <- positional_integer.
  destruct negative.
  - rewrite (parseFloat_minus_positional 0 n junk Hs), He.
    unfold of_decimal. change (pow10 (0 - Z.of_nat 0)) with 1%Z.
    change (pow10 (- (0 - Z.of_nat 0))) with 1%Z. now rewrite Z.mul_1_r.
  - change ("" ++ positional 0 n ++ junk) with (positional 0 n ++ junk).
    rewrite (parseFloat_positional 0 n junk Hs), He.
    unfold of_decimal. change (pow10 (0 - Z.of_nat 0)) with 1%Z.
    change (pow10 (- (0 - Z.of_nat 0))) with 1%Z. now rewrite Z.mul_1_r.
Qed.

(** Below 2^53 every integer is a number of the format. *)
Lemma round_integer (negative : bool) z :
  (0 <= z < 2 ^ 53)%Z ->
  is_finite (JsNumber.round negative z 1)
  /\ (finite_value (JsNumber.round negative z 1)
      == inject_Z (JsNumber.signed negative z))%Q.
Proof.
  intros Hz. destruct (Z.eq_dec z 0%Z) as [->|Hne].
  - split; [now exists negative, 0%Z, emin|].
    change (JsNumber.round negative 0 1) with (Finite negative 0 emin).
    unfold finite_value. destruct negative; reflexivity.
  - destruct (of_Z_exact z ltac:(lia)) as (E & _ & Hv).
    unfold of_Z in E. rewrite Z.abs_eq in E by lia.
    destruct (Z.ltb_spec z 0) as [|_]; [lia|].
    rewrite (round_sign negative _ _ _ _ _ E).
    split; [now eexists _, _, _|].
    unfold of_Z in Hv. rewrite Z.abs_eq in Hv by lia.
    destruct (Z.ltb_spec z 0) as [|_]; [lia|].
    rewrite E in Hv. unfold finite_value in *. cbn [signed] in Hv.
    destruct negative; cbn [signed]; [|exact Hv].
    rewrite !inject_Z_opp. rewrite <- Hv. ring.
Qed.

End NumericPrefix.

(** X8. An amount given as text counts by its leading integer: white space
    in front is skipped, a minus sign is read, and whatever follows the
    digits (unless it continues the number: a digit, a point or an exponent
    mark) is ignored. The amount is the double nearest to that integer: the
    integer itself below 2^53, so "12 USD" counts as 12 and " -7" as -7,
    while "9007199254740993" counts as 9007199254740992. *)
Theorem price_of_numeric_prefix (a : Appointment.t) (ws junk : string)
    (negative : bool) (n : N) :
  Appointment.final_price a
  = JStr (ws ++ (if negative then "-" else "") ++ JsString.of_N n ++ junk) ->
  blank ws = true -> ends_number junk = true ->
  price_of a = JsNumber.round negative (Z.of_N n) 1
  /\ ((Z.of_N n < 2 ^ 53)%Z ->
      is_finite (price_of a)
      /\ (finite_value (price_of a) == inject_Z (JsNumber.signed negative (Z.of_N n)))%Q).
Proof.
  intros Hp Hws Hj.
  assert (E : price_of a = JsNumber.round negative (Z.of_N n) 1).
  { unfold price_of. rewrite Hp. cbn [toString_opt JsString.or_else].
    destruct (of_N_head n) as (c & d & s' & Es & Hd).
    assert (Ht : JsString.truthy
                   (ws ++ (if negative then "-" else "") ++ JsString.of_N n ++ junk) = true).
    { apply truthy_app_r, truthy_app_r. rewrite Es. reflexivity. }
    rewrite Ht, (parseFloat_blank _ _ Hws). now apply parseFloat_integer. }
  split; [exact E|]. intros Hn. rewrite E. apply round_integer. lia.
Qed.

Lemma price_of_numeric_prefix_witness :
  price_of (appointment "completed" (JStr "12 USD") None None) = JsNumber.of_Z 12
  /\ price_of (appointment "completed" (JStr " -7") None None) = JsNumber.of_Z (-7)
  /\ price_of (appointment "completed" (JStr "9007199254740993") None None)
     = JsNumber.of_Z 9007199254740992.
Proof.
  split; [|split].
  - apply (price_of_numeric_prefix _ "" " USD" false 12); reflexivity.
  - apply (price_of_numeric_prefix _ " " "" true 7); reflexivity.
  - destruct (price_of_numeric_prefix
                (appointment "completed" (JStr "9007199254740993") None None)
                "" "" false 9007199254740993 eq_refl eq_refl eq_refl) as [E _].
    rewrite E. vm_compute. reflexivity.
Defined.

(** ** The map of service counts *)

Section MapLookup.

Lemma get_Some_elem {V} (m : JsMap.t V) k v : JsMap.get m k = Some v -> (k, v) ∈ m.
Proof.
  induction m as [|[k' v'] m IH]; cbn [JsMap.get]; [discriminate|].
  destruct (String.eqb_spec k k') as [->|Hne].
  - intros [= ->]. now left.
  - intros H. right. now apply IH.
Qed.

End MapLookup.

(** X9. After the loop over the records the map of service counts has one
    entry per service name met, in the order in which the names were first
    met; looking a name up gives the number of records that carry it, and a
    name that was never met is not in the map. The counts add up to the
    number of records with a service name. When the query gave no array the
    map is empty. *)
Theorem service_counts_map (l : list Appointment.t) :
  let m := serviceCounts (Some l) in
  let names := service_names l in
  NoDup m.*1
  /\ (forall n c, JsMap.get m n = Some c <->
                  n ∈ names /\ c = length (List.filter (has_service n) l))
  /\ (forall n, JsMap.get m n = None <-> n ∉ names)
  /\ StronglySorted
       (fun e1 e2 => (first_index e1.1 names < first_index e2.1 names)%nat)
       (JsMap.entries m)
  /\ list_sum m.*2 = length (List.filter has_service_name l)
  /\ serviceCounts None = JsMap.empty.
Proof.
  intros m names.
  pose proof (counted names) as Hc. cbv zeta in Hc.
  unfold names in Hc. rewrite <- serviceCounts_names in Hc. fold names m in Hc.
  destruct Hc as (Hnd & Hin & Hs & Hsum).
  assert (Hkeys : forall n, n ∈ m.*1 <-> n ∈ names).
  { intros n. rewrite list_elem_of_fmap. split.
    - intros ([n' c] & -> & H). now apply Hin in H.
    - intros H. exists (n, occurrences n names). split; [reflexivity|]. now apply Hin. }
  split; [exact Hnd|]. split; [|split; [|split; [exact Hs|split]]].
  - intros n c. unfold names. rewrite <- occurrences_service_names. fold names. split.
    + intros H. apply Hin. now apply get_Some_elem.
    + intros H. apply get_present; [exact Hnd|]. now apply Hin.
  - intros n. rewrite <- Hkeys. split.
    + intros H Hk. apply list_elem_of_fmap in Hk as ([n' c] & -> & Hk).
      cbn [fst] in H. rewrite (get_present m n' c Hnd Hk) in H. discriminate.
    + apply get_absent.
  - rewrite Hsum. apply length_service_names.
  - reflexivity.
Qed.

Lemma service_counts_map_witness :
  JsMap.get (serviceCounts (Some unnamed_service_records)) "A" = Some 2%nat
  /\ JsMap.get (serviceCounts (Some unnamed_service_records)) "B" = None.
Proof.
  destruct (service_counts_map unnamed_service_records) as (_ & Hget & Hnone & _).
  split.
  - apply Hget. split; [|reflexivity]. vm_compute. left.
  - apply Hnone. vm_compute. intros H.
    apply list_elem_of_In in H. simpl in H. destruct H as [H|[H|[]]]; discriminate.
Defined.

(** X10. When the records name at most five different services (all drawn
    from a list of at most five names), nothing is cut off: the ranking
    lists every service met, and its counts add up to the number of records
    with a service name. *)
Theorem few_services_all_listed (l : list Appointment.t) (offered : list string) :
  NoDup offered -> (length offered <= 5)%nat ->
  (forall n, n ∈ service_names l -> n ∈ offered) ->
  let top := calc_topServices (Some l) in
  (forall n, n ∈ service_names l <-> n ∈ map ServiceCount.name top)
  /\ total_count top = length (List.filter has_service_name l)
  /\ (length top <= length offered)%nat.
Proof.
  intros Hnd Hlen Hsub top.
  destruct (ranking_structure l) as (ranked & Htop & Hnames & Hin & _ & Hsum).
  assert (Hshort : (length ranked <= length offered)%nat).
  { rewrite <- (length_fmap ServiceCount.name ranked).
    apply submseteq_length, NoDup_submseteq; [exact Hnames|].
    intros n Hn. apply list_elem_of_fmap in Hn as (e & -> & He).
    apply Hsub. now apply Hin in He. }
  assert (Hall : top = ranked).
  { unfold top. rewrite Htop. apply take_ge. lia. }
  rewrite Hall. split; [|split].
  - intros n. change (map ServiceCount.name ranked) with (ServiceCount.name <$> ranked).
    rewrite list_elem_of_fmap. split.
    + intros Hn. exists (ServiceCount.mk n (occurrences n (service_names l))).
      split; [reflexivity|]. apply Hin. now split.
    + intros (e & -> & He). now apply Hin in He.
  - rewrite Hsum. apply length_service_names.
  - exact Hshort.
Qed.

Lemma few_services_all_listed_witness :
  total_count (calc_topServices (Some ranking_records))
  = length (List.filter has_service_name ranking_records).
Proof.
  apply (few_services_all_listed ranking_records ["A"; "B"; "C"; "D"]).
  - repeat constructor; rewrite ?elem_of_cons, ?elem_of_nil;
      intros H; repeat destruct H as [H|H]; try discriminate H; exact H.
  - simpl. lia.
  - intros n Hn. apply list_elem_of_In in Hn. apply list_elem_of_In.
    vm_compute in Hn. simpl.
    repeat (destruct Hn as [<-|Hn]; [tauto|]). destruct Hn.
Defined.


(** ** What a run does to the outside *)

Section IterationEvents.

Variable env : Env.
Variables first last : Z.

(** The events of one iteration: its query, at most one mail, and a mail
    only for a business that qualifies. *)
Lemma iteration_events (b : Business.t) (tr : list Event) :
  exists evs,
    process_business env first last b tr = (Ok tt, tr ++ evs)%list
    /\ List.filter is_query evs
       = [SelectAppointments (Business.id b) (iso_date first) (iso_date last)]
    /\ (dispatches evs <= 1)%nat
    /\ (forall email, SendEmail email ∈ evs ->
          exists appointments,
            has_activity appointments /\ has_address b
            /\ email = report_email (env_tza env) (reportData appointments b) first).
Proof.
  rewrite process_business_cases.
  destruct (env_appointments env tr _ _ _) as [appointments [e|]|e].
  - eexists. split; [reflexivity|]. split; [reflexivity|]. split; [unfold dispatches; simpl; lia|].
    intros email H. apply list_elem_of_In in H. simpl in H.
    destruct H as [H|[H|[]]]; discriminate.
  - cbv zeta.
    pose proof (qualifies_spec b appointments) as Hspec. cbv zeta in Hspec.
    destruct ((0 <? totalAppointments (reportData appointments b))%nat
              && JsString.truthy (ownerEmail (reportData appointments b))) eqn:Hq.
    + assert (Hyes : has_activity appointments /\ has_address b) by now apply Hspec.
      destruct (env_send env _ _) as [d e|e];
        (eexists; split; [reflexivity|]; split; [reflexivity|]; split; [unfold dispatches; simpl; lia|];
         intros email H; apply list_elem_of_In in H; simpl in H;
         destruct H as [H|[H|[H|[]]]]; try discriminate;
         injection H as <-; exists appointments; tauto).
    + eexists. split; [reflexivity|]. split; [reflexivity|]. split; [unfold dispatches; simpl; lia|].
      intros email H. apply list_elem_of_In in H. simpl in H.
      destruct H as [H|[]]. discriminate.
  - eexists. split; [reflexivity|]. split; [reflexivity|]. split; [unfold dispatches; simpl; lia|].
    intros email H. apply list_elem_of_In in H. simpl in H.
    destruct H as [H|[H|[]]]; discriminate.
Qed.

Lemma filter_app_events (p : Event -> bool) (xs ys : list Event) :
  List.filter p (xs ++ ys) = (List.filter p xs ++ List.filter p ys)%list.
Proof. apply List.filter_app. Qed.

(** The events of the loop: one query per business, in the order of the
    list; at most one mail per business, each to a business of the list that
    qualifies. *)
Lemma loop_events (bs : list Business.t) (tr : list Event) :
  exists evs,
    for_of bs (process_business env first last) tr = (Ok tt, tr ++ evs)%list
    /\ List.filter is_query evs
       = map (fun b => SelectAppointments (Business.id b) (iso_date first) (iso_date last)) bs
    /\ (dispatches evs <= length bs)%nat
    /\ (forall email, SendEmail email ∈ evs ->
          exists b appointments,
            b ∈ bs /\ has_activity appointments /\ has_address b
            /\ email = report_email (env_tza env) (reportData appointments b) first).
Proof.
  revert tr. induction bs as [|b bs IH]; intros tr.
  - exists []. split; [simpl; now rewrite app_nil_r|]. split; [reflexivity|].
    split; [unfold dispatches; simpl; lia|]. intros email H. now apply elem_of_nil in H.
  - destruct (iteration_events b tr) as (evs1 & H1 & Hq1 & Hd1 & Hm1).
    destruct (IH (tr ++ evs1)%list) as (evs2 & H2 & Hq2 & Hd2 & Hm2).
    exists (evs1 ++ evs2)%list. split; [|split; [|split]].
    + cbn [for_of]. unfold mbind, M_bind. rewrite H1, H2, app_assoc. reflexivity.
    + rewrite filter_app_events, Hq1, Hq2. reflexivity.
    + unfold dispatches in *. rewrite filter_app_events, length_app. simpl. lia.
    + intros email H. apply elem_of_app in H as [H|H].
      * destruct (Hm1 email H) as (appointments & Ha & Hb & He).
        exists b, appointments. split; [now left | tauto].
      * destruct (Hm2 email H) as (b' & appointments & Hin & Ha & Hb & He).
        exists b', appointments. split; [now right | tauto].
Qed.

End IterationEvents.


Section RunEvents.

Variable env : Env.
Variable req : Request.

Let first : Z := firstDayLastMonth (env_tza env) (env_now env).
Let last : Z := lastDayLastMonth (env_tza env) (env_now env).

Lemma run_preflight :
  method req = "OPTIONS" ->
  run env req = (Ok {| status := 200; headers := corsHeaders; body := None |}, []).
Proof. intros H. unfold run, handler. rewrite H. reflexivity. Qed.

(** The trace of a run that gets the list of businesses: the query for the
    list, the line that counts them, then the events of the loop. *)
Lemma run_success_events :
  method req <> "OPTIONS" -> run_failure env = None ->
  exists data evs,
    env_businesses env = Resolved data None
    /\ run env req
       = (Ok (json_response 200 success_body),
          [SelectBusinesses;
           ConsoleLog ("Processing monthly reports for "
                         ++ JsString.of_nat (length (default [] data)) ++ " businesses")]
            ++ evs)%list
    /\ List.filter is_query evs
       = map (fun b => SelectAppointments (Business.id b) (iso_date first) (iso_date last))
             (default [] data)
    /\ (dispatches evs <= length (default [] data))%nat
    /\ (forall email, SendEmail email ∈ evs ->
          exists b appointments,
            b ∈ default [] data /\ has_activity appointments /\ has_address b
            /\ email = report_email (env_tza env) (reportData appointments b) first).
Proof.
  intros Hreq Hf.
  destruct (run_success_case env req Hreq Hf) as (data & tr & Hb & Hloop & Hrun).
  fold first last in Hloop.
  destruct (loop_events env first last (default [] data)
              [SelectBusinesses;
               ConsoleLog ("Processing monthly reports for "
                             ++ JsString.of_nat (length (default [] data)) ++ " businesses")])
    as (evs & Hloop' & Hq & Hd & Hm).
  rewrite Hloop' in Hloop. injection Hloop as <-.
  exists data, evs. repeat (split; [assumption|]). assumption.
Qed.

End RunEvents.

(** X11. No run mails an empty report or an empty address: every mail a
    run sends goes to exactly one recipient, the non-empty contact address of
    one of the businesses that the list query returned, and reports at least
    one appointment of that business. *)
Theorem mail_only_to_qualifying (env : Env) (req : Request) (resp : Response)
    (tr : list Event) (email : Email) :
  run env req = (Ok resp, tr) ->
  SendEmail email ∈ tr ->
  exists data b address,
    env_businesses env = Resolved data None
    /\ b ∈ default [] data
    /\ Business.email b = Some address /\ address <> ""
    /\ to email = [address]
    /\ from email = "Boji <admin@bojiapp.me>"
    /\ html_businessName (html email) = Business.name b
    /\ (0 < html_totalAppointments (html email))%nat.
Proof.
  intros Hrun Hmail.
  destruct (String.eqb_spec (method req) "OPTIONS") as [Hopt|Hreq].
  { rewrite (run_preflight env req Hopt) in Hrun. injection Hrun as _ <-.
    now apply elem_of_nil in Hmail. }
  destruct (run_failure env) as [e|] eqn:Hf.
  { destruct (run_failure_case env req Hreq e Hf) as (tr' & Hrun' & Hquiet).
    rewrite Hrun' in Hrun. injection Hrun as _ <-.
    rewrite Forall_forall in Hquiet. specialize (Hquiet _ Hmail). discriminate. }
  destruct (run_success_events env req Hreq Hf) as (data & evs & Hb & Hrun' & _ & _ & Hm).
  rewrite Hrun' in Hrun. injection Hrun as _ <-.
  apply list_elem_of_In in Hmail. simpl in Hmail.
  destruct Hmail as [H|[H|Hmail]]; [discriminate | discriminate |].
  apply list_elem_of_In in Hmail.
  destruct (Hm email Hmail) as (b & appointments & Hin & Hact & (address & Haddr & Hne) & ->).
  exists data, b, address. split; [exact Hb|]. split; [exact Hin|].
  split; [exact Haddr|]. split; [exact Hne|]. split; [|split; [reflexivity|split]].
  - unfold report_email, reportData. cbn [to ownerEmail]. rewrite Haddr.
    cbn [JsString.or_else]. destruct address; [contradiction | reflexivity].
  - reflexivity.
  - exact Hact.
Qed.

Lemma mail_only_to_qualifying_witness :
  exists resp tr email,
    run sample_env post = (Ok resp, tr)
    /\ SendEmail email ∈ tr
    /\ to email = ["owner@salon.test"].
Proof.
  destruct (run sample_env post) as [[resp|e] tr] eqn:Hrun; [|vm_compute in Hrun; discriminate].
  set (email := report_email 0 (reportData (Some sample_revenue_records) sample_business)
                  (firstDayLastMonth 0 mid_march_2025)).
  assert (Hin : SendEmail email ∈ tr).
  { vm_compute in Hrun. injection Hrun as _ <-.
    apply list_elem_of_In. simpl. do 5 right. left. vm_compute. reflexivity. }
  exists resp, tr, email. split; [reflexivity|]. split; [exact Hin|].
  destruct (mail_only_to_qualifying sample_env post resp tr email Hrun Hin)
    as (data & b & address & _ & _ & _ & _ & Hto & _).
  rewrite Hto. vm_compute in Hto. now injection Hto as <-.
Defined.




(** X13. What one iteration logs, by what its two calls do. A query that
    rejects and a mail call that rejects are logged under "Error processing
    business"; an error answer of the query is logged under "Error fetching
    appointments" and whatever data came with it is ignored. A mail call
    that resolves is logged as sent, whatever it resolves to, an error
    object included. No iteration logs more than one error. *)
Theorem iteration_outcomes (env : Env) (first last : Z) (b : Business.t)
    (tr : list Event) :
  let query := SelectAppointments (Business.id b) (iso_date first) (iso_date last) in
  let answer := env_appointments env tr (Business.id b) (iso_date first) (iso_date last) in
  let failed := "Error processing business " ++ Business.id b ++ ":" in
  exists evs,
    process_business env first last b tr = (Ok tt, tr ++ query :: evs)%list
    /\ (errors evs <= 1)%nat
    /\ (forall e, answer = Rejected e -> evs = [ConsoleError failed e])
    /\ (forall data e,
          answer = Resolved data (Some e) ->
          evs = [ConsoleError
                   ("Error fetching appointments for business " ++ Business.id b ++ ":") e])
    /\ (forall appointments address,
          answer = Resolved appointments None ->
          has_activity appointments ->
          Business.email b = Some address -> address <> "" ->
          let email := report_email (env_tza env) (reportData appointments b) first in
          match env_send env (tr ++ [query])%list email with
          | Resolved _ _ =>
              evs = [SendEmail email;
                     ConsoleLog ("Sent monthly report to " ++ address
                                   ++ " for " ++ Business.name b)]
          | Rejected e => evs = [SendEmail email; ConsoleError failed e]
          end).
Proof.
  intros query answer failed. subst query answer failed. cbv zeta.
  rewrite process_business_cases. cbv beta.
  destruct (env_appointments env tr _ _ _) as [appointments [e|]|e].
  - eexists. split; [reflexivity|]. split; [unfold errors; simpl; lia|].
    split; [discriminate|]. split; [|discriminate].
    intros data e' [= _ <-]. reflexivity.
  - cbv zeta.
    pose proof (qualifies_spec b appointments) as Hspec. cbv zeta in Hspec.
    destruct ((0 <? totalAppointments (reportData appointments b))%nat
              && JsString.truthy (ownerEmail (reportData appointments b))) eqn:Hq.
    + assert (Hsent :
        forall address, Business.email b = Some address -> address <> "" ->
          ownerEmail (reportData appointments b) = address).
      { intros address Ha Hne. unfold reportData. cbn [ownerEmail]. rewrite Ha.
        destruct address; [contradiction | reflexivity]. }
      destruct (env_send env _ _) as [d e|e] eqn:Hsend.
      * eexists. split; [reflexivity|]. split; [unfold errors; simpl; lia|].
        split; [discriminate|]. split; [discriminate|].
        intros appointments' address [= <-] _ Ha Hne. rewrite Hsend.
        rewrite (Hsent address Ha Hne). reflexivity.
      * eexists. split; [reflexivity|]. split; [unfold errors; simpl; lia|].
        split; [discriminate|]. split; [discriminate|].
        intros appointments' address [= <-] _ Ha Hne. rewrite Hsend.
        reflexivity.
    + exists []. split; [reflexivity|]. split; [unfold errors; simpl; lia|].
      split; [discriminate|]. split; [discriminate|].
      intros appointments' address [= <-] Hact Ha Hne. exfalso.
      assert (Hyes : has_activity appointments /\ has_address b).
      { split; [exact Hact|]. exists address. split; assumption. }
      apply Hspec in Hyes. discriminate.
  - eexists. split; [reflexivity|]. split; [unfold errors; simpl; lia|].
    split; [|split; discriminate].
    intros e' [= <-]. reflexivity.
Qed.

Lemma iteration_outcomes_witness :
  (exists evs,
     process_business sample_env 0 0 failing_business []
     = (Ok tt, SelectAppointments "b0" "1970-01-01" "1970-01-01" :: evs)
     /\ evs = [ConsoleError "Error fetching appointments for business b0:" boom])
  /\ (exists evs,
        process_business sample_env 0 0 sample_business []
        = (Ok tt, SelectAppointments "b1" "1970-01-01" "1970-01-01" :: evs)
        /\ List.filter is_error evs = []
        /\ ConsoleLog "Sent monthly report to owner@salon.test for Salon" ∈ evs).
Proof.
  split.
  - destruct (iteration_outcomes sample_env 0 0 failing_business [])
      as (evs & Hrun & _ & _ & Hfetch & _).
    exists evs. split; [exact Hrun|].
    exact (Hfetch None boom eq_refl).
  - destruct (iteration_outcomes sample_env 0 0 sample_business [])
      as (evs & Hrun & _ & _ & _ & Hsend).
    exists evs. split; [exact Hrun|].
    assert (Hact : has_activity (Some sample_revenue_records))
      by (unfold has_activity; vm_compute; lia).
    assert (Hne : "owner@salon.test" <> "") by discriminate.
    pose proof (Hsend (Some sample_revenue_records) "owner@salon.test"
                  eq_refl Hact eq_refl Hne) as H.
    cbv zeta in H. cbn [sample_env env_send] in H. rewrite H.
    split; [reflexivity|]. apply list_elem_of_In. right. left. reflexivity.
Defined.

Section TopLevelError.

Variable env : Env.
Variables first last : Z.

(** The line of the outer [catch] is never written by an iteration. *)
Lemma iteration_no_top_error (b : Business.t) (tr : list Event) :
  exists evs,
    process_business env first last b tr = (Ok tt, tr ++ evs)%list
    /\ forall e, ~ ConsoleError "Error in send-monthly-report function:" e ∈ evs.
Proof.
  rewrite process_business_cases.
  assert (Hp : forall e e',
            ConsoleError ("Error processing business " ++ Business.id b ++ ":") e
            <> ConsoleError "Error in send-monthly-report function:" e').
  { intros e e' H. cbv [String.append] in H. discriminate. }
  assert (Hf : forall e e',
            ConsoleError ("Error fetching appointments for business " ++ Business.id b ++ ":") e
            <> ConsoleError "Error in send-monthly-report function:" e').
  { intros e e' H. cbv [String.append] in H. discriminate. }
  destruct (env_appointments env tr _ _ _) as [appointments [e|]|e].
  - eexists. split; [reflexivity|]. intros e' H.
    apply list_elem_of_In in H. simpl in H.
    destruct H as [H|[H|[]]]; [discriminate | exact (Hf _ _ H)].
  - cbv zeta.
    destruct ((0 <? totalAppointments (reportData appointments b))%nat
              && JsString.truthy (ownerEmail (reportData appointments b))).
    + destruct (env_send env _ _) as [d e|e];
        (eexists; split; [reflexivity|]; intros e' H;
         apply list_elem_of_In in H; simpl in H;
         destruct H as [H|[H|[H|[]]]]; try discriminate; exact (Hp _ _ H)).
    + eexists. split; [reflexivity|]. intros e' H.
      apply list_elem_of_In in H. simpl in H. destruct H as [H|[]]. discriminate.
  - eexists. split; [reflexivity|]. intros e' H.
    apply list_elem_of_In in H. simpl in H.
    destruct H as [H|[H|[]]]; [discriminate | exact (Hp _ _ H)].
Qed.

Lemma loop_no_top_error (bs : list Business.t) (tr : list Event) :
  exists evs,
    for_of bs (process_business env first last) tr = (Ok tt, tr ++ evs)%list
    /\ forall e, ~ ConsoleError "Error in send-monthly-report function:" e ∈ evs.
Proof.
  revert tr. induction bs as [|b bs IH]; intros tr.
  - exists []. split; [simpl; now rewrite app_nil_r|].
    intros e H. now apply elem_of_nil in H.
  - destruct (iteration_no_top_error b tr) as (evs1 & H1 & Hno1).
    destruct (IH (tr ++ evs1)%list) as (evs2 & H2 & Hno2).
    exists (evs1 ++ evs2)%list. split.
    + cbn [for_of]. unfold mbind, M_bind. rewrite H1, H2.
      now rewrite <- app_assoc.
    + intros e H. apply elem_of_app in H as [H|H]; [exact (Hno1 e H) | exact (Hno2 e H)].
Qed.

End TopLevelError.

(** X14. The handler answers every request: it never throws, whatever
    the collaborators do. The answer is 200 or 500 and always carries the
    two cross-origin headers. A pre-flight request is answered 200 without a
    body and without a content type, and touches nothing: no query, no mail,
    no log line. Every other request is answered with a JSON body and its
    content type, and logs the top-level error line exactly when the answer
    is 500. *)
Theorem handler_always_answers (env : Env) (req : Request) :
  exists resp tr,
    run env req = (Ok resp, tr)
    /\ (status resp = 200%Z \/ status resp = 500%Z)
    /\ (forall h, h ∈ corsHeaders -> h ∈ headers resp)
    /\ (method req = "OPTIONS" ->
        tr = [] /\ status resp = 200%Z /\ body resp = None
        /\ headers resp = corsHeaders)
    /\ (method req <> "OPTIONS" ->
        body resp <> None
        /\ headers resp = (corsHeaders ++ [("Content-Type", "application/json")])%list
        /\ (status resp = 500%Z <->
            exists e, ConsoleError "Error in send-monthly-report function:" e ∈ tr)).
Proof.
  destruct (String.eqb_spec (method req) "OPTIONS") as [Hopt|Hreq].
  - eexists _, _. split; [exact (run_preflight env req Hopt)|].
    split; [left; reflexivity|]. split; [intros h H; exact H|].
    split; [intros _; repeat split | intros H; contradiction].
  - destruct (run_failure env) as [e|] eqn:Hf.
    + assert (Hrun : exists tr,
                run env req = (Ok (json_response 500 (error_body e)), tr)
                /\ ConsoleError "Error in send-monthly-report function:" e ∈ tr).
      { unfold run_failure in Hf. unfold run. rewrite (handler_not_preflight env req Hreq).
        unfold try_catch, run_reports, mbind, M_bind, await, throw, emit, mret, M_ret.
        destruct (env_createClient env) as [e0|].
        - injection Hf as ->. eexists. split; [reflexivity|].
          apply list_elem_of_In. left. reflexivity.
        - destruct (env_businesses env) as [data [e1|]|e1]; try discriminate;
            injection Hf as ->; (eexists; split; [reflexivity|]);
            apply list_elem_of_In; right; left; reflexivity. }
      destruct Hrun as (tr & Hrun & Hlog).
      eexists _, _. split; [exact Hrun|].
      split; [right; reflexivity|].
      split; [intros h H; apply elem_of_app; left; exact H|].
      split; [intros H; contradiction|]. intros _.
      split; [discriminate|]. split; [reflexivity|].
      split; [intros _; exists e; exact Hlog | reflexivity].
    + destruct (run_success_events env req Hreq Hf) as (data & evs & _ & Hrun & _ & _ & _).
      eexists _, _. split; [exact Hrun|].
      split; [left; reflexivity|].
      split; [intros h H; apply elem_of_app; left; exact H|].
      split; [intros H; contradiction|]. intros _.
      split; [discriminate|]. split; [reflexivity|].
      split; [discriminate|]. intros (e & Hin). exfalso.
      apply list_elem_of_In in Hin. simpl in Hin.
      destruct Hin as [H|[H|Hin]]; [discriminate | discriminate |].
      apply list_elem_of_In in Hin.
      destruct (run_success_case env req Hreq Hf) as (data' & evs' & _ & Hloop & Hrun').
      rewrite Hrun in Hrun'. injection Hrun' as <-.
      match type of Hloop with
      | for_of ?bs (process_business _ ?f ?l) ?t = _ =>
          destruct (loop_no_top_error env f l bs t) as (evs0 & Hloop' & Hno)
      end.
      rewrite Hloop' in Hloop.
      assert (Htr : evs0 = evs) by (injection Hloop; auto).
      subst evs0. exact (Hno e Hin).
Qed.

Lemma handler_always_answers_witness :
  (exists resp,
     run sample_env {| method := "OPTIONS" |} = (Ok resp, [])
     /\ body resp = None /\ headers resp = corsHeaders)
  /\ (exists resp tr e,
        run broken_env post = (Ok resp, tr)
        /\ ConsoleError "Error in send-monthly-report function:" e ∈ tr).
Proof.
  split.
  - destruct (handler_always_answers sample_env {| method := "OPTIONS" |})
      as (resp & tr & Hrun & _ & _ & Hopt & _).
    destruct (Hopt eq_refl) as (-> & _ & Hbody & Hheaders).
    exists resp. split; [exact Hrun|]. split; assumption.
  - destruct (handler_always_answers broken_env post)
      as (resp & tr & Hrun & _ & _ & _ & Hpost).
    destruct Hpost as (_ & _ & Hlog); [discriminate|].
    destruct (proj1 Hlog) as (e & He).
    + vm_compute in Hrun. injection Hrun as <- _. reflexivity.
    + exists resp, tr, e. split; [exact Hrun | exact He].
Defined.

